(** * Mindmap-text: the mind-map tree editor, its outline parser and the
      mandala mirror sync, embedded from the TypeScript sources.

    Sources embedded here:
    - [unnamed/part_002] ([types]): [MindMapNode], [MandalaCell],
      [MandalaGridData], [MandalaChartData];
    - [unnamed/part_001] ([utils/export]): [exportMindMap];
    - [src/utils/import.ts]: [parseMindMap];
    - [unnamed/part_005], the hook [useMindMapData] with [insertParent]:
      [findNodePath], [updateNodeText], [addSibling], [addChild],
      [removeNodes], [insertParent]
      ([src/components/MindMap/useMindMapData.ts] is the same hook before
      [insertParent] was added; the functions it has are the same);
    - the last part of [src/App.tsx]: the stand-alone check script of
      [insertParent];
    - [src/components/MindMap/MindMapCanvas.tsx]: [getVisibleNodes],
      [handleKeyDown];
    - the last part of [unnamed/part_003], the hook [useMandalaData]:
      [updateCell];
    - [src/components/Mandala/MandalaView.tsx]: [handleKeyDown],
      [handleMobileGridSelect];
    - [unnamed/part_001] and [src/utils/import.ts]: [exportMandala],
      [getPositionName], [parseMandala], [createEmptyGrid];
    - the first part of [src/App.tsx]: [handleImport]. *)

From Stdlib Require Import String Ascii DecimalString.
From Stdlib Require Import List Bool Arith NArith ZArith Lia Permutation.
Import ListNotations.
Local Open Scope list_scope.

(* ================================================================== *)
(** * Part I: definitions                                              *)
(* ================================================================== *)

(** ** JavaScript strings

    A JavaScript string is a finite sequence of UTF-16 code units.  A code
    unit is kept as a number, so that the character classes of the regular
    expressions and of [String.prototype.trim] are the ECMAScript ones. *)

Definition jschar := N.
Definition jsstring := list jschar.

(** String literals of the source, written with Rocq's own literals. *)
Definition js (s : string) : jsstring :=
  map N_of_ascii (list_ascii_of_string s).

(** [a === b] on strings. *)
Fixpoint str_eqb (a b : jsstring) : bool :=
  match a, b with
  | [], [] => true
  | x :: a', y :: b' => N.eqb x y && str_eqb a' b'
  | _, _ => false
  end.

Definition LF : jschar := 10%N.
Definition TAB : jschar := 9%N.
Definition SPACE : jschar := 32%N.

(** ECMAScript LineTerminator: LF, CR, LS, PS.  The regular expression
    atom [.] matches every code unit that is not one of these. *)
Definition isLineTerminator (c : jschar) : bool :=
  ((c =? 0x0A) || (c =? 0x0D) || (c =? 0x2028) || (c =? 0x2029))%N.

(** ECMAScript WhiteSpace: TAB, VT, FF, SP, NBSP, ZWNBSP and category Zs. *)
Definition isWhiteSpace (c : jschar) : bool :=
  ((c =? 0x09) || (c =? 0x0B) || (c =? 0x0C) || (c =? 0x20) || (c =? 0xA0)
   || (c =? 0x1680) || ((0x2000 <=? c) && (c <=? 0x200A))
   || (c =? 0x202F) || (c =? 0x205F) || (c =? 0x3000) || (c =? 0xFEFF))%N.

(** The class [\s] of regular expressions, which is also what [trim]
    strips: WhiteSpace and LineTerminator. *)
Definition isSpace (c : jschar) : bool :=
  isWhiteSpace c || isLineTerminator c.

Fixpoint takeWhile {A} (p : A -> bool) (l : list A) : list A :=
  match l with
  | [] => []
  | x :: r => if p x then x :: takeWhile p r else []
  end.

Fixpoint dropWhile {A} (p : A -> bool) (l : list A) : list A :=
  match l with
  | [] => []
  | x :: r => if p x then dropWhile p r else l
  end.

(** [s.trim()] *)
Definition trim (s : jsstring) : jsstring :=
  rev (dropWhile isSpace (rev (dropWhile isSpace s))).

(** [s.split('\n')]: the segments between line feeds; never empty. *)
Fixpoint split (s : jsstring) : list jsstring :=
  match s with
  | [] => [[]]
  | c :: r =>
      if (c =? LF)%N then [] :: split r
      else match split r with
           | l :: ls => (c :: l) :: ls
           | [] => [[c]]
           end
  end.

(** [parts.join(sep)] *)
Fixpoint join (sep : jsstring) (parts : list jsstring) : jsstring :=
  match parts with
  | [] => []
  | [x] => x
  | x :: rest => x ++ sep ++ join sep rest
  end.

(** [s.repeat(n)] *)
Fixpoint str_repeat (s : jsstring) (n : nat) : jsstring :=
  match n with
  | O => []
  | S n' => s ++ str_repeat s n'
  end.

(** [s.replace(/\t/g, '  ')] *)
Definition replaceTabs (s : jsstring) : jsstring :=
  flat_map (fun c => if (c =? TAB)%N then [SPACE; SPACE] else [c]) s.

(** ** JavaScript [Set<string>]

    A [Set] keeps its members in insertion order; [Array.from] lists them in
    that order. *)

Definition JsSet := list jsstring.

Definition set_has (s : JsSet) (x : jsstring) : bool :=
  existsb (str_eqb x) s.

Definition set_add (s : JsSet) (x : jsstring) : JsSet :=
  if set_has s x then s else s ++ [x].

Definition set_delete (s : JsSet) (x : jsstring) : JsSet :=
  filter (fun y => negb (str_eqb x y)) s.

(** [new Set(array)] *)
Definition set_from (l : list jsstring) : JsSet :=
  fold_left set_add l [].

Definition set_size (s : JsSet) : nat := length s.

Definition Array_from (s : JsSet) : list jsstring := s.

(** [array.includes(x)] *)
Definition includes (l : list jsstring) (x : jsstring) : bool :=
  existsb (str_eqb x) l.

(** ** The tree model ([MindMapNode] of [types])

    [isExpanded] is an optional field: [None] is the absent field. *)

#[warnings="-register-all"]
Inductive MindMapNode : Type := mkNode {
  id : jsstring;
  text : jsstring;
  children : list MindMapNode;
  isExpanded : option bool
}.

Definition set_children (n : MindMapNode) (cs : list MindMapNode) : MindMapNode :=
  mkNode (id n) (text n) cs (isExpanded n).

Definition set_text (n : MindMapNode) (t : jsstring) : MindMapNode :=
  mkNode (id n) t (children n) (isExpanded n).

Definition set_isExpanded (n : MindMapNode) (b : bool) : MindMapNode :=
  mkNode (id n) (text n) (children n) (Some b).

(** *** References to node objects

    The hooks deep-clone the tree and then mutate node objects of the clone
    in place, through references kept in a path or on a stack.  A node
    object inside a tree is designated by the child indexes that lead to it
    from the root: the root is [[]], its second child is [[1]]. *)

Definition ref := list nat.

Fixpoint deref (t : MindMapNode) (r : ref) : option MindMapNode :=
  match r with
  | [] => Some t
  | k :: r' =>
      match nth_error (children t) k with
      | Some c => deref c r'
      | None => None
      end
  end.

(** Replace element [k] of a list by its image (nothing out of range). *)
Fixpoint update_nth {A} (k : nat) (f : A -> A) (l : list A) : list A :=
  match l, k with
  | [], _ => []
  | x :: r, O => f x :: r
  | x :: r, S k' => x :: update_nth k' f r
  end.

(** The tree after the object at [r] was mutated by [f]. *)
Fixpoint modify (t : MindMapNode) (r : ref) (f : MindMapNode -> MindMapNode)
  : MindMapNode :=
  match r with
  | [] => f t
  | k :: r' => set_children t (update_nth k (fun c => modify c r' f) (children t))
  end.

(** ** Fresh identifiers

    [uuidv4()] is the only effect of the tree operations.  The [n]-th
    identifier drawn is [uuid n]; a computation threads the number of
    identifiers drawn so far. *)

Definition Gen (A : Type) : Type := nat -> A * nat.

Definition ret {A} (a : A) : Gen A := fun n => (a, n).

Definition bind {A B} (m : Gen A) (k : A -> Gen B) : Gen B :=
  fun n => let (a, n') := m n in k a n'.

Notation "x <- m ;; k" := (bind m (fun x => k))
  (at level 61, m at next level, right associativity).

(** The value a computation returns when [n] identifiers were drawn before. *)
Definition run {A} (m : Gen A) (n : nat) : A := fst (m n).

(** ** [exportMindMap] ([utils/export]) *)

Fixpoint exportMindMap (node : MindMapNode) (depth : nat) : jsstring :=
  let indent := str_repeat (js "  ") depth in
  let line := indent ++ js "- " ++ text node in
  let childrenLines :=
    join [LF] (map (fun child => exportMindMap child (depth + 1)) (children node)) in
  match childrenLines with
  | [] => line
  | _ => line ++ [LF] ++ childrenLines
  end.

(** ** [parseMindMap] ([utils/import.ts]) *)

(** One element of [parsedLines]: [{ depth, text }]. *)
Record ParsedLine : Type := mkParsedLine {
  pl_depth : nat;
  pl_text : jsstring
}.

(** The character class [[-+*]]. *)
Definition isBullet (c : jschar) : bool :=
  ((c =? 45) || (c =? 43) || (c =? 42))%N.

(** [line.match(re)] for the regular expression of the parser, which is
    anchored at the start of the line and made of three groups: a run of
    [\s], of any length; optionally, a bullet character followed by a run
    of [\s] of length one at least; a run of [.], of any length.  The
    result holds the groups 1, 2 and 3.

    Group 1 takes the longest run of [\s]; the optional group 2 is taken
    when a bullet character followed by at least one [\s] comes next (and
    then takes the longest such run); group 3 takes every code unit up to
    the first line terminator.  Group 3 may be empty, so the engine never
    has to give back what groups 1 and 2 took. *)
Definition matchLine (line : jsstring)
  : option (jsstring * option jsstring * jsstring) :=
  let g1 := takeWhile isSpace line in
  let r1 := dropWhile isSpace line in
  let '(g2, r2) :=
    match r1 with
    | b :: r =>
        if isBullet b then
          match takeWhile isSpace r with
          | [] => (None, r1)
          | w => (Some (b :: w), dropWhile isSpace r)
          end
        else (None, r1)
    | [] => (None, r1)
    end in
  let g3 := takeWhile (fun c => negb (isLineTerminator c)) r2 in
  Some (g1, g2, g3).

(** The callback of [lines.map]. *)
Definition parseLine (line : jsstring) : ParsedLine :=
  match matchLine line with
  | None => mkParsedLine 0 (trim line)
  | Some (headerIndent, _, content) =>
      (* Math.floor(headerIndent.replace(/\t/g, '  ').length / 2) *)
      mkParsedLine (length (replaceTabs headerIndent) / 2) content
  end.

(** One element of [stack]: [{ node, depth }].  [node] is a reference into
    the tree under [root]; [None] stands for a node object that was never
    attached and so cannot be reached from [root]. *)
Record StackEntry : Type := mkStackEntry {
  node : option ref;
  depth : Z
}.

(** [root === lines[0]] compares a node object with a string: strict
    equality between an object and a primitive is always false. *)
Definition strict_eq_object_string (o : MindMapNode) (s : jsstring) : bool :=
  false.

(** [while (stack.length > 0 && stack[stack.length - 1].depth >= depth)
    stack.pop()]; the top of the stack is the head of the list. *)
Fixpoint popWhile (d : Z) (stack : list StackEntry) : list StackEntry :=
  match stack with
  | [] => []
  | top :: below => if (depth top >=? d)%Z then popWhile d below else stack
  end.

(** [parentWrapper.node.children.push(newNode)] *)
Definition push_child (newNode : MindMapNode) (p : MindMapNode) : MindMapNode :=
  set_children p (children p ++ [newNode]).

Definition children_at (t : MindMapNode) (r : ref) : list MindMapNode :=
  match deref t r with
  | Some n => children n
  | None => []
  end.

Section WithUuid.

(** The identifiers [uuidv4()] returns, in the order of the calls. *)
Variable uuid : nat -> jsstring.

Definition uuidv4 : Gen jsstring := fun n => (uuid n, S n).

(** The [for] loop over [parsedLines], from [startIndex] on. *)
Fixpoint parseLoop (lines : list ParsedLine) (root : MindMapNode)
    (stack : list StackEntry) : Gen MindMapNode :=
  match lines with
  | [] => ret root
  | l :: rest =>
      newId <- uuidv4 ;;
      let newNode := mkNode newId (pl_text l) [] None in
      let d := Z.of_nat (pl_depth l) in
      let stack := popWhile d stack in
      match stack with
      | parentWrapper :: _ =>
          match node parentWrapper with
          | Some p =>
              let k := length (children_at root p) in
              parseLoop rest (modify root p (push_child newNode))
                        (mkStackEntry (Some (p ++ [k])) d :: stack)
          | None =>
              parseLoop rest root (mkStackEntry None d :: stack)
          end
      | [] =>
          parseLoop rest root [mkStackEntry None d]
      end
  end.

Definition parseMindMap (text : jsstring) : Gen MindMapNode :=
  let lines := filter (fun line => negb (str_eqb (trim line) [])) (split text) in
  match lines with
  | [] =>
      rootId <- uuidv4 ;;
      ret (mkNode rootId (js "Root") [] None)
  | line0 :: _ =>
      let parsedLines := map parseLine lines in
      let first := parseLine line0 in
      rs <- (if pl_depth first =? 0
             then rootId <- uuidv4 ;; ret (mkNode rootId (pl_text first) [] None, 1)
             else rootId <- uuidv4 ;; ret (mkNode rootId (js "Root") [] None, 0)) ;;
      let '(root, startIndex) := rs in
      let stack :=
        [mkStackEntry (Some [])
           (if strict_eq_object_string root line0 then 0 else -1)%Z] in
      let stack :=
        if pl_depth first =? 0 then stack
        else match stack with
             | e :: below => mkStackEntry (node e) (-1)%Z :: below
             | [] => []
             end in
      parseLoop (skipn startIndex parsedLines) root stack
  end.

(** ** The mutation engine (the hook [useMindMapData])

    Every operation is the function handed to the state setter: from the
    previous tree to the next one.  [JSON.parse(JSON.stringify(prev))] is a
    deep copy, which on values is the identity. *)

(** [findNodePath(current, targetId, path)]: the references of the node
    objects from the root down to the first node, in depth-first order,
    whose id is [targetId].  [here] is the reference of [current]. *)
Fixpoint findNodePath (current : MindMapNode) (here : ref) (targetId : jsstring)
    (path : list ref) : option (list ref) :=
  if str_eqb (id current) targetId then Some (path ++ [here])
  else
    (fix each (cs : list MindMapNode) (k : nat) : option (list ref) :=
       match cs with
       | [] => None
       | child :: rest =>
           match findNodePath child (here ++ [k]) targetId (path ++ [here]) with
           | Some result => Some result
           | None => each rest (S k)
           end
       end) (children current) 0.

(** [array.findIndex(p)]: the first index whose element satisfies [p],
    [-1] when there is none. *)
Fixpoint findIndex_from {A} (p : A -> bool) (l : list A) (i : Z) : Z :=
  match l with
  | [] => (-1)%Z
  | x :: r => if p x then i else findIndex_from p r (i + 1)%Z
  end.

Definition findIndex {A} (p : A -> bool) (l : list A) : Z :=
  findIndex_from p l 0%Z.

(** [array.splice(start, 0, item)]: a negative [start] counts from the end,
    and [start] is clamped to the bounds of the array. *)
Definition splice_insert {A} (l : list A) (start : Z) (item : A) : list A :=
  let len := Z.of_nat (length l) in
  let k := if (start <? 0)%Z then Z.max (len + start) 0 else Z.min start len in
  firstn (Z.to_nat k) l ++ item :: skipn (Z.to_nat k) l.

Definition updateNodeText (nodeId : jsstring) (newText : jsstring)
    (prev : MindMapNode) : MindMapNode :=
  let clone := prev in
  match findNodePath clone [] nodeId [] with
  | Some path =>
      let target := nth (length path - 1) path [] in
      modify clone target (fun t => set_text t newText)
  | None => clone
  end.

Definition addSibling (referenceId : jsstring) (prev : MindMapNode)
  : Gen MindMapNode :=
  if str_eqb referenceId (id prev) then ret prev (* Cannot add sibling to root *)
  else
    let clone := prev in
    match findNodePath clone [] referenceId [] with
    | Some path =>
        if 2 <=? length path then
          let parent := nth (length path - 2) path [] in
          let index :=
            findIndex (fun n => str_eqb (id n) referenceId)
                      (children_at clone parent) in
          newId <- uuidv4 ;;
          let newNode := mkNode newId (js "New Node") [] None in
          ret (modify clone parent
                 (fun p => set_children p
                             (splice_insert (children p) (index + 1)%Z newNode)))
        else ret clone
    | None => ret clone
    end.

Definition addChild (parentId : jsstring) (prev : MindMapNode)
  : Gen MindMapNode :=
  let clone := prev in
  match findNodePath clone [] parentId [] with
  | Some path =>
      let target := nth (length path - 1) path [] in
      newId <- uuidv4 ;;
      let newNode := mkNode newId (js "New Child") [] None in
      ret (modify clone target
             (fun t => set_isExpanded (push_child newNode t) true))
  | None => ret clone
  end.

(** [removeRecursive]: filter the children, then recurse into the children
    that are left. *)
Fixpoint removeRecursive (idsSet : JsSet) (n : MindMapNode) : MindMapNode :=
  set_children n
    ((fix each (cs : list MindMapNode) : list MindMapNode :=
        match cs with
        | [] => []
        | child :: rest =>
            if negb (set_has idsSet (id child))
            then removeRecursive idsSet child :: each rest
            else each rest
        end) (children n)).

Definition removeNodes (ids : list jsstring) (prev : MindMapNode) : MindMapNode :=
  let clone := prev in
  let idsSet := set_from ids in
  if set_has idsSet (id clone) then clone (* Cannot remove root *)
  else removeRecursive idsSet clone.

(** An element of the [newChildren] array of [insertParent]: a child that
    stays, or the reference to the [newParent] object, whose [children] are
    assigned after the loop. *)
Inductive Slot : Type :=
| Existing (n : MindMapNode)
| NewParentRef.

(** The [for (const child of originalChildren)] loop of [insertParent]. *)
Fixpoint regroup (targetsSet : JsSet) (originalChildren : list MindMapNode)
    (newChildren : list Slot) (newParentChildren : list MindMapNode)
    (parentInserted : bool) : list Slot * list MindMapNode * bool :=
  match originalChildren with
  | [] => (newChildren, newParentChildren, parentInserted)
  | child :: rest =>
      if set_has targetsSet (id child) then
        regroup targetsSet rest
          (if parentInserted then newChildren else newChildren ++ [NewParentRef])
          (newParentChildren ++ [child]) true
      else
        regroup targetsSet rest (newChildren ++ [Existing child])
          newParentChildren parentInserted
  end.

Definition resolve (newParent : MindMapNode) (slots : list Slot)
  : list MindMapNode :=
  map (fun s => match s with Existing n => n | NewParentRef => newParent end)
      slots.

(** [insertParent] of the hook.  With an empty [targetIds],
    [targetIds[0]] is [undefined], which no id equals: the path is null. *)
Definition insertParent (targetIds : list jsstring) (newText : jsstring)
    (prev : MindMapNode) : Gen MindMapNode :=
  let clone := prev in
  if includes targetIds (id clone) then ret clone
  else
    let targetsSet := set_from targetIds in
    match targetIds with
    | [] => ret clone
    | firstTargetId :: _ =>
        match findNodePath clone [] firstTargetId [] with
        | None => ret clone
        | Some path =>
            if length path <? 2 then ret clone
            else
              let commonParent := nth (length path - 2) path [] in
              let validTargets :=
                filter (fun i => existsb (fun c => str_eqb (id c) i)
                                         (children_at clone commonParent))
                       targetIds in
              if length validTargets =? 0 then ret clone
              else
                newId <- uuidv4 ;;
                (* step 4: commonParent.children = commonParent.children.filter(..);
                   the movingNodes it collects into newParent.children are
                   replaced below by newParentChildren *)
                let clone :=
                  modify clone commonParent
                    (fun p => set_children p
                       (filter (fun c => negb (set_has targetsSet (id c)))
                               (children p))) in
                (* the second walk copies commonParent.children as they are now *)
                let originalChildren := children_at clone commonParent in
                let '(newChildren, newParentChildren, _) :=
                  regroup targetsSet originalChildren [] [] false in
                let newParent := mkNode newId newText newParentChildren (Some true) in
                ret (modify clone commonParent
                       (fun p => set_children p (resolve newParent newChildren)))
        end
    end.

(** [insertParent] of the stand-alone check script: the same steps without
    the filter of step 4; its new node has the fixed id
    ['new-parent-uuid']. *)
Definition insertParent_script (targetIds : list jsstring) (newText : jsstring)
    (root : MindMapNode) : MindMapNode :=
  let clone := root in
  if includes targetIds (id clone) then clone
  else
    let targetsSet := set_from targetIds in
    match targetIds with
    | [] => clone
    | firstTargetId :: _ =>
        match findNodePath clone [] firstTargetId [] with
        | None => clone
        | Some path =>
            if length path <? 2 then clone
            else
              let commonParent := nth (length path - 2) path [] in
              let validTargets :=
                filter (fun i => existsb (fun c => str_eqb (id c) i)
                                         (children_at clone commonParent))
                       targetIds in
              if length validTargets =? 0 then clone
              else
                let originalChildren := children_at clone commonParent in
                let '(newChildren, newParentChildren, _) :=
                  regroup targetsSet originalChildren [] [] false in
                let newParent :=
                  mkNode (js "new-parent-uuid") newText newParentChildren
                         (Some true) in
                modify clone commonParent
                  (fun p => set_children p (resolve newParent newChildren))
        end
    end.

(** ** Selection and navigation ([components/MindMap/MindMapCanvas.tsx]) *)

(** The fields of a keyboard event that [handleKeyDown] reads. *)
Record KeyboardEvent : Type := mkKeyboardEvent {
  key : jsstring;
  shiftKey : bool;
  ctrlKey : bool;
  metaKey : bool;
  altKey : bool
}.

(** The state the view works on: the tree of the hook and the two pieces
    of local state. *)
Record ViewState : Type := mkViewState {
  root : MindMapNode;
  selectedIds : JsSet;
  lastFocusedId : jsstring
}.

(** [getVisibleNodes(node, list)]: pushes onto the array [list] ([lst]
    here), which it returns. *)
Fixpoint getVisibleNodes (n : MindMapNode) (lst : list MindMapNode)
  : list MindMapNode :=
  let lst := lst ++ [n] in
  match isExpanded n with
  | Some false => lst
  | _ =>
      (fix each (cs : list MindMapNode) (lst : list MindMapNode) :=
         match cs with
         | [] => lst
         | c :: rest => each rest (getVisibleNodes c lst)
         end) (children n) lst
  end.

(** [for (let i = count - 1; i >= 0; i--)]: the id of the first node met
    that is not selected.  The indexes visited are below [currentIdx], so
    inside [visible]. *)
Fixpoint scanBack (visible : list MindMapNode) (selected : JsSet) (count : nat)
  : option jsstring :=
  match count with
  | O => None
  | S i =>
      match nth_error visible i with
      | Some v =>
          if negb (set_has selected (id v)) then Some (id v)
          else scanBack visible selected i
      | None => None
      end
  end.

(** [visible[i].id] for an index inside [visible]. *)
Definition id_at (visible : list MindMapNode) (i : nat) (default : jsstring)
  : jsstring :=
  match nth_error visible i with
  | Some v => id v
  | None => default
  end.

Definition handleKeyDown (e : KeyboardEvent) (nodeId : jsstring) (st : ViewState)
  : Gen ViewState :=
  if str_eqb (key e) (js "ArrowDown") || str_eqb (key e) (js "ArrowUp") then
    let visible := getVisibleNodes (root st) [] in
    let idx := findIndex (fun n => str_eqb (id n) nodeId) visible in
    if (idx =? -1)%Z then ret st
    else
      let nextId := nodeId in
      let nextId :=
        if str_eqb (key e) (js "ArrowDown")
           && (idx <? Z.of_nat (length visible) - 1)%Z
        then id_at visible (Z.to_nat (idx + 1)) nextId else nextId in
      let nextId :=
        if str_eqb (key e) (js "ArrowUp") && (idx >? 0)%Z
        then id_at visible (Z.to_nat (idx - 1)) nextId else nextId in
      if shiftKey e
      then ret (mkViewState (root st) (set_add (selectedIds st) nextId) nextId)
      else ret (mkViewState (root st) (set_from [nextId]) nextId)
  else if str_eqb (key e) (js "Enter") then
    r <- addSibling nodeId (root st) ;;
    ret (mkViewState r (selectedIds st) (lastFocusedId st))
  else if str_eqb (key e) (js "Tab") then
    r <- addChild nodeId (root st) ;;
    ret (mkViewState r (selectedIds st) (lastFocusedId st))
  else if (str_eqb (key e) (js "Backspace") || str_eqb (key e) (js "Delete"))
          && (ctrlKey e || metaKey e) then
    if (0 <? set_size (selectedIds st))
       && negb (set_has (selectedIds st) (id (root st))) then
      let visible := getVisibleNodes (root st) [] in
      let safeId := id (root st) in
      let currentIdx :=
        findIndex (fun n => str_eqb (id n) (lastFocusedId st)) visible in
      let found :=
        if (currentIdx >? 0)%Z
        then scanBack visible (selectedIds st) (Z.to_nat currentIdx)
        else None in
      let safeId :=
        match found with
        | Some i => i
        | None => if 0 <? length visible then id_at visible 0 safeId else safeId
        end in
      ret (mkViewState (removeNodes (Array_from (selectedIds st)) (root st))
                       (set_from [safeId]) safeId)
    else ret st
  else if (altKey e || metaKey e)
          && (str_eqb (key e) (js "p") || str_eqb (key e) (js "P")) then
    if (0 <? set_size (selectedIds st))
       && negb (set_has (selectedIds st) (id (root st))) then
      r <- insertParent (Array_from (selectedIds st)) (js "New Parent") (root st) ;;
      ret (mkViewState r (selectedIds st) (lastFocusedId st))
    else ret st
  else ret st.

End WithUuid.

(** ** The mandala chart (the hook [useMandalaData]) *)

Module Mandala.

(** A cell object.  A cell made by spreading [undefined] has no [id]. *)
Record MandalaCell : Type := mkCell {
  id : option jsstring;
  text : jsstring
}.

(** A JavaScript array: index [i] holds [Some v], or [None] for
    [undefined] and for the holes an out-of-range write leaves. *)
Definition array (A : Type) : Type := list (option A).

Record MandalaGridData : Type := mkGrid {
  grid_id : jsstring;
  title : jsstring;
  cells : array MandalaCell
}.

Record MandalaChartData : Type := mkChart {
  centerGrid : MandalaGridData;
  surroundingGrids : array MandalaGridData
}.

Inductive GridType : Type := center | surrounding.

(** [a[i]] *)
Definition get {A} (a : array A) (i : nat) : option A :=
  match nth_error a i with
  | Some v => v
  | None => None
  end.

(** [a[i] = v]: inside the array the element is replaced; past its end the
    array grows, with holes up to index [i]. *)
Fixpoint set {A} (a : array A) (i : nat) (v : A) : array A :=
  match a, i with
  | [], O => [Some v]
  | [], S i' => None :: set [] i' v
  | _ :: r, O => Some v :: r
  | x :: r, S i' => x :: set r i' v
  end.

(** [{ ...c, text: newText }]; spreading [undefined] gives no field. *)
Definition with_text (c : option MandalaCell) (newText : jsstring) : MandalaCell :=
  match c with
  | Some c => mkCell (id c) newText
  | None => mkCell None newText
  end.

(** [updateCell]: the function handed to [setData].  [None] is the
    [TypeError] of spreading the [cells] of a grid that does not exist.
    The view passes array indexes for [gridIndex] and [cellIndex]: natural
    numbers. *)
Definition updateCell (gridType : GridType) (gridIndex cellIndex : nat)
    (newText : jsstring) (prev : MandalaChartData) : option MandalaChartData :=
  let next := prev in
  match gridType with
  | center =>
      let newCells := cells (centerGrid next) in
      let newCells := set newCells cellIndex (with_text (get newCells cellIndex) newText) in
      let next :=
        mkChart (mkGrid (grid_id (centerGrid next)) (title (centerGrid next)) newCells)
                (surroundingGrids next) in
      if negb (cellIndex =? 4) then
        match get (surroundingGrids next) cellIndex with
        | None => None
        | Some surroundingGrid =>
            let sCells := cells surroundingGrid in
            let sCells := set sCells 4 (with_text (get sCells 4) newText) in
            let surroundingGrid :=
              mkGrid (grid_id surroundingGrid) (title surroundingGrid) sCells in
            let newSurrounding := set (surroundingGrids next) cellIndex surroundingGrid in
            Some (mkChart (centerGrid next) newSurrounding)
        end
      else Some next
  | surrounding =>
      match get (surroundingGrids next) gridIndex with
      | None => None
      | Some surroundingGrid =>
          let sCells := cells surroundingGrid in
          let sCells := set sCells cellIndex (with_text (get sCells cellIndex) newText) in
          let surroundingGrid :=
            mkGrid (grid_id surroundingGrid) (title surroundingGrid) sCells in
          let newSurrounding := set (surroundingGrids next) gridIndex surroundingGrid in
          let next := mkChart (centerGrid next) newSurrounding in
          if cellIndex =? 4 then
            let mainCells := cells (centerGrid next) in
            let mainCells := set mainCells gridIndex (with_text (get mainCells gridIndex) newText) in
            Some (mkChart
                    (mkGrid (grid_id (centerGrid next)) (title (centerGrid next)) mainCells)
                    (surroundingGrids next))
          else Some next
      end
  end.

(** [createEmptyGrid(idPrefix, title)] and the initial chart of the hook;
    the ids are template strings, kept here as the prefix and the index. *)
Definition createEmptyGrid (idPrefix : jsstring) (t : jsstring) : MandalaGridData :=
  mkGrid (js "grid-" ++ idPrefix) t
    (map (fun i => Some (mkCell (Some (js "cell-" ++ idPrefix ++ js "-" ++ [N.of_nat (48 + i)])) []))
         (seq 0 9)).

Definition INITIAL_GRID_TITLES : list jsstring :=
  [js "Top Left"; js "Top Center"; js "Top Right";
   js "Middle Left"; js "Center"; js "Middle Right";
   js "Bottom Left"; js "Bottom Center"; js "Bottom Right"].

Definition initialData : MandalaChartData :=
  mkChart (createEmptyGrid (js "center") (js "Main Goal"))
    (map (fun i =>
            if i =? 4 then Some (createEmptyGrid (js "center-placeholder") (js "Center"))
            else Some (createEmptyGrid (js "surrounding-" ++ [N.of_nat (48 + i)])
                                       (nth i INITIAL_GRID_TITLES [])))
         (seq 0 9)).

(** [chart.centerGrid.cells[i].text] and
    [chart.surroundingGrids[i].cells[4].text]; [None] when the cell or the
    grid is [undefined]. *)
Definition centerText (chart : MandalaChartData) (i : nat) : option jsstring :=
  option_map text (get (cells (centerGrid chart)) i).

Definition mirrorText (chart : MandalaChartData) (i : nat) : option jsstring :=
  match get (surroundingGrids chart) i with
  | Some g => option_map text (get (cells g) 4)
  | None => None
  end.

End Mandala.

(** ** Observations on trees and sample data *)

(** The ids and the texts of a tree, in depth-first pre-order. *)
Fixpoint ids_of (n : MindMapNode) : list jsstring :=
  id n :: flat_map ids_of (children n).

Fixpoint texts (n : MindMapNode) : list jsstring :=
  text n :: flat_map texts (children n).

(** The non-blank lines of an input, as [parseMindMap] measures them: the
    [parsedLines] array. *)
Definition survivingLines (input : jsstring) : list ParsedLine :=
  map parseLine (filter (fun line => negb (str_eqb (trim line) [])) (split input)).

Definition leaf (label : string) : MindMapNode :=
  mkNode (js label) (js label) [] None.

(** A root [R] with the children [A], [B] and [C]. *)
Definition tree_RABC : MindMapNode :=
  mkNode (js "R") (js "R") [leaf "A"; leaf "B"; leaf "C"] (Some true).

(** [INITIAL_TREE] of the check script of [insertParent]. *)
Definition INITIAL_TREE : MindMapNode :=
  mkNode (js "root") (js "Central Topic")
    [ mkNode (js "child-1") (js "Child 1")
        [ mkNode (js "grandchild-1") (js "Grandchild 1") [] None ] None;
      mkNode (js "child-2") (js "Child 2") [] None ]
    (Some true).

(** A supply of identifiers to run the operations on sample data. *)
Definition sample_uuid (n : nat) : jsstring :=
  js "uuid-" ++ [N.of_nat (48 + n)].

(** The references of the nodes met on the way from [here] down to
    [here ++ a], both ends included. *)
Fixpoint prefixes (here : ref) (a : ref) : list ref :=
  match a with
  | [] => [here]
  | k :: a' => here :: prefixes (here ++ [k]) a'
  end.

(** The [for (const child of current.children)] loop of [findNodePath],
    from the child of index [k] on. *)
Fixpoint findNodePath_each (here : ref) (targetId : jsstring) (path : list ref)
    (cs : list MindMapNode) (k : nat) : option (list ref) :=
  match cs with
  | [] => None
  | child :: rest =>
      match findNodePath child (here ++ [k]) targetId (path ++ [here]) with
      | Some result => Some result
      | None => findNodePath_each here targetId path rest (S k)
      end
  end.

(** *** The visible order and the fallback of the delete transition, as
    the specification words them *)

(** Depth-first pre-order; the children of a node count only when its
    [isExpanded] is not [false]. *)
Fixpoint visibleOrder (n : MindMapNode) : list MindMapNode :=
  n :: match isExpanded n with
       | Some false => []
       | _ => flat_map visibleOrder (children n)
       end.

(** [k] is the index of [x] in [v]: its first occurrence. *)
Definition index_of (v : list jsstring) (x : jsstring) (k : nat) : Prop :=
  nth_error v k = Some x /\ forall j, j < k -> nth_error v j <> Some x.

(** [safe] is the fallback for the visible ids [v], the selection
    [selected] and the focus [last]: scanning [v] backward from the index
    of [last], the first id that is not selected; the very first visible id
    when there is none, or when [last] is not visible or sits at index 0. *)
Inductive SafeFallback (v : list jsstring) (selected : JsSet) (last safe : jsstring)
  : Prop :=
| fallback_scanned (k j : nat) :
    index_of v last k -> j < k ->
    nth_error v j = Some safe -> ~ In safe selected ->
    (forall j', j < j' < k -> exists y, nth_error v j' = Some y /\ In y selected) ->
    SafeFallback v selected last safe
| fallback_first :
    (~ In last v \/ index_of v last 0 \/
     exists k, index_of v last k /\
               forall j, j < k -> exists y, nth_error v j = Some y /\ In y selected) ->
    nth_error v 0 = Some safe ->
    SafeFallback v selected last safe.

(** *** The invariant of the parser's stack

    [rightmost t a]: the reference [a] follows last children only, so the
    node at [a] lies on the right edge of [t]. *)
Fixpoint rightmost (t : MindMapNode) (a : ref) : Prop :=
  match a with
  | [] => True
  | k :: a' =>
      match nth_error (children t) k with
      | Some c => S k = length (children t) /\ rightmost c a'
      | None => False
      end
  end.

Definition is_prefix (a b : ref) : Prop := exists c, b = a ++ c.

(** From the top of the stack down, every entry refers to a node that is
    an ancestor (or the same node) of the entry above it; [upper] bounds
    the top entry. *)
Fixpoint chain (upper : ref) (stack : list StackEntry) : Prop :=
  match stack with
  | [] => True
  | e :: below =>
      match node e with
      | Some a => is_prefix a upper /\ chain a below
      | None => False
      end
  end.

(** The stack refers to nodes of the right edge of [t], nested as above,
    and its bottom entry has depth [-1]. *)
Definition stack_ok (t : MindMapNode) (stack : list StackEntry) : Prop :=
  (exists upper, rightmost t upper /\ chain upper stack) /\
  (exists above bottom, stack = above ++ [bottom] /\ depth bottom = (-1)%Z).

(** *** Structure of a tree and the lines of its outline *)

(** What "structurally equal" compares: the texts, the shape and the order
    of the children; neither the ids nor [isExpanded]. *)
#[warnings="-register-all"]
Inductive Outline : Type :=
| outline (label : jsstring) (subs : list Outline).

Fixpoint shape (n : MindMapNode) : Outline :=
  outline (text n) (map shape (children n)).

Fixpoint size (n : MindMapNode) : nat :=
  S (list_sum (map size (children n))).

(** The tree [t] with the ids [uuid n], [uuid (n + 1)], ... given in
    pre-order, and no [isExpanded] field. *)
Fixpoint relabel (uuid : nat -> jsstring) (n : nat) (t : MindMapNode) : MindMapNode :=
  mkNode (uuid n) (text t)
    ((fix forest (cs : list MindMapNode) (m : nat) : list MindMapNode :=
        match cs with
        | [] => []
        | c :: rest => relabel uuid m c :: forest rest (m + size c)
        end) (children t) (S n))
    None.

Fixpoint relabel_forest (uuid : nat -> jsstring) (m : nat) (cs : list MindMapNode)
  : list MindMapNode :=
  match cs with
  | [] => []
  | c :: rest => relabel uuid m c :: relabel_forest uuid (m + size c) rest
  end.

(** The nodes of [t] in pre-order, each with its depth, [t] being at depth
    [d]: one per line of the outline. *)
Fixpoint flatten (t : MindMapNode) (d : nat) : list ParsedLine :=
  mkParsedLine d (text t) :: flat_map (fun c => flatten c (S d)) (children t).

(** The line [exportMindMap] writes for a node. *)
Definition render (l : ParsedLine) : jsstring :=
  str_repeat (js "  ") (pl_depth l) ++ js "- " ++ pl_text l.

(** A text that an outline line carries unchanged: it holds no line
    terminator and does not start with whitespace. *)
Definition exportable (s : jsstring) : bool :=
  forallb (fun c => negb (isLineTerminator c)) s
  && match s with
     | [] => true
     | c :: _ => negb (isSpace c)
     end.

(** *** More observations on trees *)

(** The ids met on the way from the root of [t] down to the node at [p],
    both ends included (nothing past a reference that leaves the tree). *)
Fixpoint path_ids (t : MindMapNode) (p : ref) : list jsstring :=
  id t ::
  match p with
  | [] => []
  | k :: p' =>
      match nth_error (children t) k with
      | Some c => path_ids c p'
      | None => []
      end
  end.

(** ** More of the view ([components/MindMap/MindMapCanvas.tsx]) *)

(** [handleNodeClick(e, id)]; of the event only [e.shiftKey] is read. *)
Definition handleNodeClick (shift : bool) (nodeId : jsstring) (st : ViewState)
  : ViewState :=
  if shift then
    let newSet := selectedIds st in
    let newSet :=
      if set_has newSet nodeId then set_delete newSet nodeId
      else set_add newSet nodeId in
    mkViewState (root st) newSet nodeId
  else mkViewState (root st) (set_from [nodeId]) nodeId.

(** [isFocused] of [NodeView]: whether the node is shown as a text input. *)
Definition isFocused (n : MindMapNode) (selected : JsSet) (lastFocused : jsstring)
  : bool :=
  let isSelected := set_has selected (id n) in
  let isMultiSelecting := 1 <? set_size selected in
  isSelected && negb isMultiSelecting && str_eqb lastFocused (id n).

(** No node of the tree is collapsed. *)
Fixpoint all_expanded (n : MindMapNode) : bool :=
  match isExpanded n with
  | Some false => false
  | _ => forallb all_expanded (children n)
  end.

(** ** The mandala view ([components/Mandala/MandalaView.tsx]) *)

Module MandalaView.

(** The local state of the view: [focused], [isMobile] and
    [mobileActiveGrid]. *)
Record NavState : Type := mkNav {
  focused : option (Z * Z);
  isMobile : bool;
  mobileActiveGrid : Z
}.

(** [handleKeyDown(e, gridIdx, cellIdx)].  On integers [a % 3] is the
    remainder with the sign of [a], and [Math.floor(a / 3)] the quotient
    rounded down. *)
Definition handleKeyDown (key : jsstring) (gridIdx cellIdx : Z) (st : NavState)
  : NavState :=
  let gx := Z.rem gridIdx 3 in
  let gy := (gridIdx / 3)%Z in
  let cx := Z.rem cellIdx 3 in
  let cy := (cellIdx / 3)%Z in
  let nextGx := gx in
  let nextGy := gy in
  let nextCx := cx in
  let nextCy := cy in
  let moved :=
    if str_eqb key (js "ArrowRight") then
      let nextCx := (nextCx + 1)%Z in
      if (nextCx >? 2)%Z then Some (nextGx + 1, nextGy, 0, nextCy)%Z
      else Some (nextGx, nextGy, nextCx, nextCy)
    else if str_eqb key (js "ArrowLeft") then
      let nextCx := (nextCx - 1)%Z in
      if (nextCx <? 0)%Z then Some (nextGx - 1, nextGy, 2, nextCy)%Z
      else Some (nextGx, nextGy, nextCx, nextCy)
    else if str_eqb key (js "ArrowDown") then
      let nextCy := (nextCy + 1)%Z in
      if (nextCy >? 2)%Z then Some (nextGx, nextGy + 1, nextCx, 0)%Z
      else Some (nextGx, nextGy, nextCx, nextCy)
    else if str_eqb key (js "ArrowUp") then
      let nextCy := (nextCy - 1)%Z in
      if (nextCy <? 0)%Z then Some (nextGx, nextGy - 1, nextCx, 2)%Z
      else Some (nextGx, nextGy, nextCx, nextCy)
    else None (* Not nav *) in
  match moved with
  | None => st
  | Some (nextGx, nextGy, nextCx, nextCy) =>
      (* Boundary check *)
      if ((nextGx <? 0) || (nextGx >? 2) || (nextGy <? 0) || (nextGy >? 2))%Z
      then st
      else
        let nextGridIndex := (nextGy * 3 + nextGx)%Z in
        let nextCellIndex := (nextCy * 3 + nextCx)%Z in
        mkNav (Some (nextGridIndex, nextCellIndex)) (isMobile st)
              (if isMobile st && negb (nextGridIndex =? mobileActiveGrid st)%Z
               then nextGridIndex else mobileActiveGrid st)
  end.

(** [handleMobileGridSelect(cellIdx)] *)
Definition handleMobileGridSelect (cellIdx : Z) (st : NavState) : NavState :=
  if negb (isMobile st) then st
  else if (mobileActiveGrid st =? 4)%Z
       then mkNav (focused st) (isMobile st) cellIdx
       else st.

(** The chart as one board of 9 by 9 cells: the column and the row of
    cell [c] of grid [g], and the grid and cell at a column and a row. *)
Definition board_x (g c : Z) : Z := (3 * (g mod 3) + c mod 3)%Z.
Definition board_y (g c : Z) : Z := (3 * (g / 3) + c / 3)%Z.
Definition board_cell (x y : Z) : Z * Z :=
  (3 * (y / 3) + x / 3, 3 * (y mod 3) + x mod 3)%Z.

(** The step of an arrow key on the board. *)
Definition arrow_step (key : jsstring) : option (Z * Z) :=
  if str_eqb key (js "ArrowRight") then Some (1, 0)%Z
  else if str_eqb key (js "ArrowLeft") then Some (-1, 0)%Z
  else if str_eqb key (js "ArrowDown") then Some (0, 1)%Z
  else if str_eqb key (js "ArrowUp") then Some (0, -1)%Z
  else None.

End MandalaView.

(** *** Charts of nine grids of nine cells, and the cells of a chart *)

Definition grid_ok (g : Mandala.MandalaGridData) : Prop :=
  length (Mandala.cells g) = 9 /\
  Forall (fun c => c <> None) (Mandala.cells g).

Definition chart_ok (chart : Mandala.MandalaChartData) : Prop :=
  grid_ok (Mandala.centerGrid chart) /\
  length (Mandala.surroundingGrids chart) = 9 /\
  Forall (fun g => exists g', g = Some g' /\ grid_ok g')
         (Mandala.surroundingGrids chart).

Inductive CellAddr : Type :=
| CenterCell (c : nat)
| SurroundingCell (g c : nat).

Definition read_cell (chart : Mandala.MandalaChartData) (a : CellAddr)
  : option Mandala.MandalaCell :=
  match a with
  | CenterCell c => Mandala.get (Mandala.cells (Mandala.centerGrid chart)) c
  | SurroundingCell g c =>
      match Mandala.get (Mandala.surroundingGrids chart) g with
      | Some grid => Mandala.get (Mandala.cells grid) c
      | None => None
      end
  end.

(** The cell an [updateCell] call names, and the cell the sync writes as
    well. *)
Definition edited_cell (gridType : Mandala.GridType) (gridIndex cellIndex : nat)
  : CellAddr :=
  match gridType with
  | Mandala.center => CenterCell cellIndex
  | Mandala.surrounding => SurroundingCell gridIndex cellIndex
  end.

Definition synced_cell (a : CellAddr) : option CellAddr :=
  match a with
  | CenterCell c => if c =? 4 then None else Some (SurroundingCell c 4)
  | SurroundingCell g c => if c =? 4 then Some (CenterCell g) else None
  end.

(** ** The mandala chart as text ([utils/export], [utils/import.ts]) *)

(** [s.startsWith(p)] *)
Fixpoint startsWith (s p : jsstring) {struct p} : bool :=
  match p, s with
  | [], _ => true
  | y :: p', x :: s' => N.eqb x y && startsWith s' p'
  | _ :: _, [] => false
  end.

(** [s.includes(sub)] on strings: [sub] starts at some position of [s]. *)
Fixpoint str_includes (s sub : jsstring) : bool :=
  startsWith s sub ||
  match s with
  | [] => false
  | _ :: s' => str_includes s' sub
  end.

(** The class [\d] of regular expressions. *)
Definition isDigit (c : jschar) : bool := ((48 <=? c) && (c <=? 57))%N.

(** [parseInt(digits, 10)] on a string of decimal digits.  The parser only
    compares the result with 9, for which the rounding of numbers too large
    for a double makes no difference. *)
Definition parseInt (digits : jsstring) : N :=
  fold_left (fun acc c => (10 * acc + (c - 48))%N) digits 0%N.

(** An array index inside a template string: its decimal digits. *)
Definition decimal (index : nat) : jsstring :=
  js (NilZero.string_of_uint (Nat.to_uint index)).

(** [array.sort(cmp)]: the sort is stable, so for a comparator that orders
    by a key the result is the one of insertion sort, in which an element
    moves past those it is strictly greater than. *)
Fixpoint sort_insert {A} (cmp : A -> A -> Z) (x : A) (l : list A) : list A :=
  match l with
  | [] => [x]
  | y :: r => if (cmp x y >? 0)%Z then y :: sort_insert cmp x r else x :: l
  end.

Definition sort {A} (cmp : A -> A -> Z) (l : list A) : list A :=
  fold_right (sort_insert cmp) [] l.

Module MandalaExport.
Import Mandala.

Definition names : list jsstring :=
  [js "Top Left"; js "Top Center"; js "Top Right";
   js "Middle Left"; js "Center"; js "Middle Right";
   js "Bottom Left"; js "Bottom Center"; js "Bottom Right"].

Definition getPositionName (index : nat) : jsstring :=
  match nth_error names index with
  | Some name => name
  | None => js "Grid " ++ decimal index
  end.

(** What one call of the callback of [cells.forEach] appends. *)
Definition cellLine (index : nat) (cell : MandalaCell) : jsstring :=
  js "- [" ++ decimal index ++ js "] " ++ text cell ++ [LF].

(** [cells.forEach((cell, index) => ...)], from index [index] on.  [None]:
    a cell is missing.  The code then throws a [TypeError] (the element is
    [undefined]) or skips the index (a hole); [array] does not tell the two
    apart, and the export of such a chart is left out. *)
Fixpoint exportCells (cs : array MandalaCell) (index : nat) : option jsstring :=
  match cs with
  | [] => Some []
  | Some cell :: rest =>
      match exportCells rest (S index) with
      | Some out => Some (cellLine index cell ++ out)
      | None => None
      end
  | None :: _ => None
  end.

(** [data.surroundingGrids.forEach((grid, index) => ...)], from index
    [index] on; index 4 returns before it looks at the grid. *)
Fixpoint exportGrids (gs : array MandalaGridData) (index : nat) : option jsstring :=
  match gs with
  | [] => Some []
  | grid :: rest =>
      let section :=
        if index =? 4 then Some []
        else match grid with
             | Some grid =>
                 match exportCells (cells grid) 0 with
                 | Some out =>
                     Some (js "## " ++ getPositionName index ++ js " Grid" ++ [LF]
                           ++ out ++ [LF])
                 | None => None
                 end
             | None => None
             end in
      match section, exportGrids rest (S index) with
      | Some s, Some out => Some (s ++ out)
      | _, _ => None
      end
  end.

(** [cells[4].text || 'Untitled'] for the cell [cells[4]] of the center
    grid: the empty string is falsy. *)
Definition centerTitle (core : MandalaCell) : jsstring :=
  match text core with
  | [] => js "Untitled"
  | t => t
  end.

(** [exportMandala(data)], the version that writes the section names the
    parser reads.  [None]: a cell or a grid is missing (see
    [exportCells]). *)
Definition exportMandala (data : MandalaChartData) : option jsstring :=
  match get (cells (centerGrid data)) 4 with
  | None => None
  | Some core =>
      let centerTitle := centerTitle core in
      let output := js "# " ++ centerTitle ++ [LF; LF] in
      let output := output ++ js "## Center Grid" ++ [LF] in
      match exportCells (cells (centerGrid data)) 0 with
      | None => None
      | Some out =>
          let output := output ++ out ++ [LF] in
          match exportGrids (surroundingGrids data) 0 with
          | None => None
          | Some out => Some (output ++ out)
          end
      end
  end.

End MandalaExport.

Module MandalaImport.
Import Mandala.

(** [gridTarget] holds a grid object of [data]: the center grid, or a
    surrounding grid. *)
Inductive GridRef : Type :=
| centerRef
| surroundingRef (index : nat).

(** The state of the loop over the lines. *)
Record ParseState : Type := mkState {
  data : MandalaChartData;
  gridTarget : option GridRef;
  processedCenterGrid : bool
}.

Definition positionMap : list (jsstring * nat) :=
  [(js "top left", 0); (js "top center", 1); (js "top right", 2);
   (js "middle left", 3); (js "center", 4); (js "middle right", 5);
   (js "bottom left", 6); (js "bottom center", 7); (js "bottom right", 8)].

(** [positionMap[key]] *)
Fixpoint lookup (key : jsstring) (m : list (jsstring * nat)) : option nat :=
  match m with
  | [] => None
  | (k, v) :: r => if str_eqb k key then Some v else lookup key r
  end.

(** [Object.keys(positionMap).sort((a, b) => b.length - a.length)] *)
Definition sortedKeys : list jsstring :=
  sort (fun a b => (Z.of_nat (length b) - Z.of_nat (length a))%Z)
       (map fst positionMap).

(** The loop over [sortedKeys]: [foundIndex], [None] for [-1]. *)
Fixpoint findPosition (headerText : jsstring) (keys : list jsstring) : option nat :=
  match keys with
  | [] => None
  | key :: rest =>
      if str_includes headerText key then lookup key positionMap
      else findPosition headerText rest
  end.

(** [trimmed.replace(re, '')] where [re] is anchored at the start and asks
    for two number signs and a run of [\s] of length one at least. *)
Definition stripHeader (trimmed : jsstring) : jsstring :=
  match trimmed with
  | 35%N :: 35%N :: r =>
      match takeWhile isSpace r with
      | [] => trimmed
      | _ => dropWhile isSpace r
      end
  | _ => trimmed
  end.

(** The character class of the list items, a hyphen or an asterisk. *)
Definition isItemBullet (c : jschar) : bool := ((c =? 45) || (c =? 42))%N.

(** The test of a list item: a bullet and one [\s] at the start. *)
Definition isListItem (trimmed : jsstring) : bool :=
  match trimmed with
  | b :: w :: _ => isItemBullet b && isSpace w
  | _ => false
  end.

(** One alternative of the index group: [opening], a run of digits of
    length one at least, [closing].  The result is the digits and what
    follows the group. *)
Definition matchIndex (opening closing : jschar) (s : jsstring)
  : option (jsstring * jsstring) :=
  match s with
  | c :: r =>
      if (c =? opening)%N then
        match takeWhile isDigit r, dropWhile isDigit r with
        | d :: ds, c' :: rest =>
            if (c' =? closing)%N then Some (d :: ds, rest) else None
        | _, _ => None
        end
      else None
  | [] => None
  end.

(** [trimmed.match(re)] for the regular expression of a list item, anchored
    at the start: a bullet; a run of [\s] of length one at least;
    optionally an index, in square brackets (group 1) or in round ones
    (group 2); a run of [\s] of any length; a run of [.] (group 3).  The run
    after the bullet is the longest one, the index is taken when it is
    there, and group 3 may be empty, so nothing is ever given back. *)
Definition matchItem (trimmed : jsstring)
  : option (option jsstring * option jsstring * jsstring) :=
  match trimmed with
  | b :: r =>
      if isItemBullet b then
        match takeWhile isSpace r with
        | [] => None
        | _ =>
            let r1 := dropWhile isSpace r in
            let '(g1, g2, r2) :=
              match matchIndex 91%N 93%N r1 with
              | Some (digits, rest) => (Some digits, None, rest)
              | None =>
                  match matchIndex 40%N 41%N r1 with
                  | Some (digits, rest) => (None, Some digits, rest)
                  | None => (None, None, r1)
                  end
              end in
            Some (g1, g2,
                  takeWhile (fun c => negb (isLineTerminator c))
                            (dropWhile isSpace r2))
        end
      else None
  | [] => None
  end.

(** [gridTarget.cells] *)
Definition target_cells (d : MandalaChartData) (r : GridRef) : array MandalaCell :=
  match r with
  | centerRef => cells (centerGrid d)
  | surroundingRef i =>
      match get (surroundingGrids d) i with
      | Some g => cells g
      | None => []
      end
  end.

(** [cells[idx].text = content], on the cell object that is there. *)
Definition set_cell_text (cs : array MandalaCell) (idx : nat) (content : jsstring)
  : array MandalaCell :=
  update_nth idx (option_map (fun c => mkCell (id c) content)) cs.

(** [data] after [gridTarget.cells[idx].text = content]. *)
Definition write_cell (d : MandalaChartData) (r : GridRef) (idx : nat)
    (content : jsstring) : MandalaChartData :=
  match r with
  | centerRef =>
      mkChart (mkGrid (grid_id (centerGrid d)) (title (centerGrid d))
                      (set_cell_text (cells (centerGrid d)) idx content))
              (surroundingGrids d)
  | surroundingRef i =>
      mkChart (centerGrid d)
        (update_nth i
           (option_map (fun g =>
              mkGrid (grid_id g) (title g) (set_cell_text (cells g) idx content)))
           (surroundingGrids d))
  end.

(** [c => c.text === ''] *)
Definition isEmptyCell (c : option MandalaCell) : bool :=
  match c with
  | Some c => str_eqb (text c) []
  | None => false
  end.

Section WithEnvironment.

Variable uuid : nat -> jsstring.

(** [String.prototype.toLowerCase] *)
Variable toLowerCase : jsstring -> jsstring.

(** [Array(n).fill(null).map(() => m)] *)
Fixpoint fillMap {A} (n : nat) (m : Gen A) : Gen (list A) :=
  match n with
  | O => ret []
  | S n' => x <- m ;; xs <- fillMap n' m ;; ret (x :: xs)
  end.

Definition createEmptyGrid : Gen MandalaGridData :=
  gridId <- uuidv4 uuid ;;
  cs <- fillMap 9 (cellId <- uuidv4 uuid ;; ret (Some (mkCell (Some cellId) []))) ;;
  ret (mkGrid gridId [] cs).

(** The body of the loop over [lines]. *)
Definition parseStep (st : ParseState) (line : jsstring) : ParseState :=
  let trimmed := trim line in
  match trimmed with
  | [] => st
  | _ =>
      if startsWith trimmed (js "# ") then st
      else if startsWith trimmed (js "## ") then
        let headerText := toLowerCase (stripHeader trimmed) in
        if startsWith headerText (js "center grid")
           || startsWith headerText (js "main grid")
        then
          if processedCenterGrid st
          then mkState (data st) None (processedCenterGrid st)
          else mkState (data st) (Some centerRef) true
        else
          match findPosition headerText sortedKeys with
          | Some foundIndex =>
              if foundIndex =? 4
              then mkState (data st) None (processedCenterGrid st)
              else
                (* data.surroundingGrids[foundIndex] *)
                match get (surroundingGrids (data st)) foundIndex with
                | Some _ =>
                    mkState (data st) (Some (surroundingRef foundIndex))
                            (processedCenterGrid st)
                | None => mkState (data st) None (processedCenterGrid st)
                end
          | None => mkState (data st) None (processedCenterGrid st)
          end
      else
        match gridTarget st with
        | Some target =>
            if isListItem trimmed then
              match matchItem trimmed with
              | Some (g1, g2, content) =>
                  let indexStr :=
                    match g1 with
                    | Some s => Some s
                    | None => g2
                    end in
                  match indexStr with
                  | Some indexStr =>
                      let idx := parseInt indexStr in
                      if (idx <? 9)%N
                      then mkState (write_cell (data st) target (N.to_nat idx) content)
                                   (gridTarget st) (processedCenterGrid st)
                      else st
                  | None =>
                      let firstEmpty :=
                        findIndex isEmptyCell (target_cells (data st) target) in
                      if negb (firstEmpty =? -1)%Z
                      then mkState (write_cell (data st) target (Z.to_nat firstEmpty) content)
                                   (gridTarget st) (processedCenterGrid st)
                      else st
                  end
              | None => st
              end
            else st
        | None => st
        end
  end.

Definition parseMandala (text : jsstring) : Gen MandalaChartData :=
  center <- createEmptyGrid ;;
  grids <- fillMap 9 createEmptyGrid ;;
  let d := mkChart center (map Some grids) in
  ret (data (fold_left parseStep (split text) (mkState d None false))).

End WithEnvironment.

(** The lower case of the letters A to Z; [toLowerCase] is this map on a
    string made of ASCII characters. *)
Definition asciiLower (c : jschar) : jschar :=
  if ((65 <=? c) && (c <=? 90))%N then (c + 32)%N else c.

Definition isAscii (c : jschar) : bool := (c <? 128)%N.

End MandalaImport.

(** *** The texts of a chart *)

Definition cell_texts (cs : Mandala.array Mandala.MandalaCell) : list (option jsstring) :=
  map (option_map Mandala.text) cs.

(** The chart with every cell text replaced: ids and titles only. *)
Definition blank_cells (cs : Mandala.array Mandala.MandalaCell)
  : Mandala.array Mandala.MandalaCell :=
  map (option_map (fun c => Mandala.mkCell (Mandala.id c) [])) cs.

Definition blank_grid (g : Mandala.MandalaGridData) : Mandala.MandalaGridData :=
  Mandala.mkGrid (Mandala.grid_id g) (Mandala.title g) (blank_cells (Mandala.cells g)).

Definition blank_chart (d : Mandala.MandalaChartData) : Mandala.MandalaChartData :=
  Mandala.mkChart (blank_grid (Mandala.centerGrid d))
                  (map (option_map blank_grid) (Mandala.surroundingGrids d)).

(** A text that survives a line of the export: no line terminator in it,
    no white space at either end. *)
Definition clean_text (t : jsstring) : Prop :=
  Forall (fun c => isLineTerminator c = false) t /\ trim t = t.

(** The grid [createEmptyGrid] makes when [n] identifiers were drawn
    before, and the chart [parseMandala] starts from: every grid takes ten
    identifiers, its own and then those of its cells. *)
Definition empty_grid (uuid : nat -> jsstring) (n : nat) : Mandala.MandalaGridData :=
  Mandala.mkGrid (uuid n) []
    (map (fun j => Some (Mandala.mkCell (Some (uuid (S j + n))) [])) (seq 0 9)).

Definition empty_chart (uuid : nat -> jsstring) (n : nat) : Mandala.MandalaChartData :=
  Mandala.mkChart (empty_grid uuid n)
    (map (fun k => Some (empty_grid uuid (10 * S k + n))) (seq 0 9)).

(** The cell [cells[idx]] of the grid a reference designates. *)
Definition cell_addr (r : MandalaImport.GridRef) (idx : nat) : CellAddr :=
  match r with
  | MandalaImport.centerRef => CenterCell idx
  | MandalaImport.surroundingRef g => SurroundingCell g idx
  end.

(** The cells of a chart of nine grids of nine cells. *)
Definition valid_addr (a : CellAddr) : Prop :=
  match a with
  | CenterCell c => c < 9
  | SurroundingCell g c => g < 9 /\ c < 9
  end.

(** The cells [exportMandala] writes: all but those of the surrounding
    grid 4. *)
Definition exported_addr (a : CellAddr) : Prop :=
  match a with
  | CenterCell c => c < 9
  | SurroundingCell g c => g < 9 /\ g <> 4 /\ c < 9
  end.

Definition read_text (d : Mandala.MandalaChartData) (a : CellAddr) : option jsstring :=
  option_map Mandala.text (read_cell d a).

(** The chart after the lines [exportCells] writes for [cs], from index
    [index] on, were read into the grid [r]; and after the sections
    [exportGrids] writes were read. *)
Fixpoint write_cells (d : Mandala.MandalaChartData) (r : MandalaImport.GridRef)
    (index : nat) (cs : Mandala.array Mandala.MandalaCell) : Mandala.MandalaChartData :=
  match cs with
  | Some c :: rest =>
      write_cells (MandalaImport.write_cell d r index (Mandala.text c)) r (S index) rest
  | _ => d
  end.

Fixpoint write_grids (d : Mandala.MandalaChartData) (index : nat)
    (gs : Mandala.array Mandala.MandalaGridData) : Mandala.MandalaChartData :=
  match gs with
  | [] => d
  | g :: rest =>
      write_grids
        (if index =? 4 then d
         else match g with
              | Some g => write_cells d (MandalaImport.surroundingRef index) 0 (Mandala.cells g)
              | None => d
              end)
        (S index) rest
  end.

(** Every cell of the nine by nine chart is there. *)
Definition full (d : Mandala.MandalaChartData) : Prop :=
  forall a, valid_addr a -> read_cell d a <> None.

(** A chart with a core text and the goal of one surrounding grid. *)
Definition sample_chart : Mandala.MandalaChartData :=
  MandalaImport.write_cell
    (MandalaImport.write_cell
       (MandalaImport.write_cell Mandala.initialData
          MandalaImport.centerRef 4 (js "Health"))
       MandalaImport.centerRef 2 (js "Sleep 8 hours"))
    (MandalaImport.surroundingRef 2) 4 (js "Sleep 8 hours").


(** ** The import dialog ([App.tsx]) *)

Module App.

Inductive Mode : Type := mindmap | mandala.

(** The state [handleImport] reads and sets: [mode], [isImportOpen],
    [importText], and the data of the two hooks ([setRoot] also saves the
    tree in the local storage, which is not part of the state here). *)
Record AppState : Type := mkApp {
  mode : Mode;
  isImportOpen : bool;
  importText : jsstring;
  mandalaData : Mandala.MandalaChartData;
  mindMapRoot : MindMapNode
}.

Section WithEnvironment.

Variable uuid : nat -> jsstring.
Variable toLowerCase : jsstring -> jsstring.

(** [handleImport()]; neither parser throws, so the [catch] branches are
    never taken. *)
Definition handleImport (st : AppState) : Gen AppState :=
  match trim (importText st) with
  | [] => ret st
  | _ =>
      (* Detection Heuristic *)
      if str_includes (importText st) (js "## Center Grid")
         || str_includes (importText st) (js "## Main Grid")
      then
        d <- MandalaImport.parseMandala uuid toLowerCase (importText st) ;;
        ret (mkApp mandala false [] d (mindMapRoot st))
      else
        root <- parseMindMap uuid (importText st) ;;
        ret (mkApp mindmap false [] (mandalaData st) root)
  end.

End WithEnvironment.

End App.

(** A list item without index that carries its text unchanged: the text
    is clean, not empty, and does not start with a bracket. *)
Definition plain_item (t : jsstring) : Prop :=
  clean_text t /\
  match t with
  | [] => False
  | c :: _ => c <> 91%N /\ c <> 40%N
  end.

(** The center grid while items without index are read: nine cells, the
    first [k] with a text, the others empty. *)
Definition filled_to (k : nat) (d : Mandala.MandalaChartData) : Prop :=
  length (Mandala.cells (Mandala.centerGrid d)) = 9 /\
  (forall c, c < k ->
     exists cell, Mandala.get (Mandala.cells (Mandala.centerGrid d)) c = Some cell
                  /\ Mandala.text cell <> []) /\
  (forall c, k <= c < 9 ->
     exists cell, Mandala.get (Mandala.cells (Mandala.centerGrid d)) c = Some cell
                  /\ Mandala.text cell = []).

(** The export of [sample_chart], and an outline one of whose texts quotes
    a mandala section header. *)
Definition sample_chart_text : jsstring :=
  match MandalaExport.exportMandala sample_chart with
  | Some t => t
  | None => []
  end.

Definition tree_quoting_header : MindMapNode :=
  mkNode (js "R") (js "Plan")
    [mkNode (js "A") (js "as in ## Main Grid") [] None] None.

(* ================================================================== *)
(** * Part II: properties                                              *)
(* ================================================================== *)

(** ** Strings and sets *)

Lemma str_eqb_eq (a b : jsstring) : str_eqb a b = true <-> a = b.
Proof.
  revert b; induction a as [|x a IH]; intros [|y b]; simpl;
    try (split; [discriminate | discriminate]); [tauto|].
  rewrite andb_true_iff, N.eqb_eq, IH. split.
  - intros [-> ->]; reflexivity.
  - intros E; inversion E; auto.
Qed.

Lemma str_eqb_refl (a : jsstring) : str_eqb a a = true.
Proof. apply str_eqb_eq; reflexivity. Qed.

Lemma str_eqb_neq (a b : jsstring) : str_eqb a b = false <-> a <> b.
Proof.
  rewrite <- str_eqb_eq. destruct (str_eqb a b); split; congruence.
Qed.

Lemma str_eqb_sym (a b : jsstring) : str_eqb a b = str_eqb b a.
Proof.
  destruct (str_eqb b a) eqn:E.
  - apply str_eqb_eq in E; subst; apply str_eqb_refl.
  - apply str_eqb_neq. apply str_eqb_neq in E. congruence.
Qed.

Lemma set_has_In (s : JsSet) (x : jsstring) : set_has s x = true <-> In x s.
Proof.
  unfold set_has. rewrite existsb_exists. split.
  - intros (y & Hy & E). apply str_eqb_eq in E; subst; assumption.
  - intros H; exists x; split; [assumption | apply str_eqb_refl].
Qed.

Lemma set_has_false (s : JsSet) (x : jsstring) : set_has s x = false <-> ~ In x s.
Proof.
  rewrite <- set_has_In. destruct (set_has s x); split; congruence.
Qed.

Lemma set_add_In (s : JsSet) (x y : jsstring) :
  In y (set_add s x) <-> In y s \/ y = x.
Proof.
  unfold set_add. destruct (set_has s x) eqn:E.
  - apply set_has_In in E. split; [tauto | intros [H | ->]; assumption].
  - rewrite in_app_iff; simpl. intuition (subst; auto).
Qed.

Lemma fold_set_add_In (l : list jsstring) (acc : JsSet) (y : jsstring) :
  In y (fold_left set_add l acc) <-> In y acc \/ In y l.
Proof.
  revert acc; induction l as [|x l IH]; intros acc; simpl.
  - tauto.
  - rewrite IH, set_add_In. split; intros H; intuition (subst; auto).
Qed.

Lemma set_from_In (l : list jsstring) (y : jsstring) :
  In y (set_from l) <-> In y l.
Proof.
  unfold set_from. rewrite fold_set_add_In. simpl. tauto.
Qed.

Lemma set_has_from (l : list jsstring) (y : jsstring) :
  set_has (set_from l) y = includes l y.
Proof.
  destruct (includes l y) eqn:E.
  - apply set_has_In, set_from_In. apply (set_has_In l y). exact E.
  - apply set_has_false. rewrite set_from_In. apply (set_has_false l y). exact E.
Qed.

Lemma dropWhile_all {A} (p : A -> bool) (l : list A) :
  forallb p l = true -> dropWhile p l = [].
Proof.
  induction l as [|x l IH]; simpl; [reflexivity|].
  intros H. apply andb_true_iff in H as [Hx Hl]. rewrite Hx. auto.
Qed.

Lemma trim_blank (line : jsstring) :
  forallb isSpace line = true -> trim line = [].
Proof.
  intros H. unfold trim. rewrite (dropWhile_all _ _ H). reflexivity.
Qed.

Lemma filter_none {A} (f : A -> bool) (l : list A) :
  Forall (fun x => f x = false) l -> filter f l = [].
Proof.
  induction 1 as [|x l Hx _ IH]; simpl; [reflexivity|]. rewrite Hx. exact IH.
Qed.

(** ** Blank input *)

(** C9: if every line of the input is empty or made of whitespace only,
    [parseMindMap] returns the single node ["Root"] with no children (and
    draws one identifier for it). *)
Theorem parseMindMap_blank_input (uuid : nat -> jsstring) (input : jsstring) (n : nat) :
  Forall (fun line => forallb isSpace line = true) (split input) ->
  parseMindMap uuid input n = (mkNode (uuid n) (js "Root") [] None, S n).
Proof.
  intros H. unfold parseMindMap.
  rewrite filter_none; [reflexivity|].
  eapply Forall_impl; [|exact H]. intros line Hl; simpl in *.
  rewrite (trim_blank _ Hl). reflexivity.
Qed.

(** ** Induction on trees *)

Lemma MindMapNode_forall_ind (P : MindMapNode -> Prop) :
  (forall i t cs e, Forall P cs -> P (mkNode i t cs e)) ->
  forall n, P n.
Proof.
  intros step. fix IH 1. intros [i t cs e]. apply step.
  induction cs as [|c cs IHcs]; constructor; [apply IH | exact IHcs].
Qed.

(** ** [removeNodes] *)

Lemma removeRecursive_unfold (idsSet : JsSet) (n : MindMapNode) :
  removeRecursive idsSet n =
  set_children n
    (map (removeRecursive idsSet)
         (filter (fun child => negb (set_has idsSet (id child))) (children n))).
Proof.
  destruct n as [i t cs e]; simpl. unfold set_children; simpl. f_equal.
  induction cs as [|c cs IH]; simpl; [reflexivity|].
  destruct (negb (set_has idsSet (id c))); simpl; rewrite IH; reflexivity.
Qed.

Lemma removeNodes_root_guard (ids : list jsstring) (t : MindMapNode) :
  In (id t) ids -> removeNodes ids t = t.
Proof.
  intros H. unfold removeNodes.
  replace (set_has (set_from ids) (id t)) with true; [reflexivity|].
  symmetry. apply set_has_In, set_from_In, H.
Qed.

Lemma ids_of_unfold (n : MindMapNode) :
  ids_of n = id n :: flat_map ids_of (children n).
Proof. destruct n; reflexivity. Qed.

Lemma texts_unfold (n : MindMapNode) :
  texts n = text n :: flat_map texts (children n).
Proof. destruct n; reflexivity. Qed.

Lemma removeRecursive_id (idsSet : JsSet) (n : MindMapNode) :
  id (removeRecursive idsSet n) = id n.
Proof. destruct n; reflexivity. Qed.

(** When the root is not listed, no listed id is left below the root. *)
Lemma removeRecursive_removes (idsSet : JsSet) (t : MindMapNode) (x : jsstring) :
  In x idsSet ->
  ~ In x (flat_map ids_of (children (removeRecursive idsSet t))).
Proof.
  intros Hx. induction t as [i t cs e IH] using MindMapNode_forall_ind.
  rewrite removeRecursive_unfold. simpl.
  induction cs as [|c cs IHcs]; simpl; [tauto|].
  inversion IH as [|? ? Hc Hcs]; subst.
  destruct (set_has idsSet (id c)) eqn:E; simpl.
  - apply IHcs, Hcs.
  - rewrite in_app_iff, ids_of_unfold, removeRecursive_id.
    intros [[Hid | Hin] | Hin].
    + apply set_has_false in E. apply E. subst x. exact Hx.
    + exact (Hc Hin).
    + exact (IHcs Hcs Hin).
Qed.

(** C2, as the code has it: when the root's id is listed, [removeNodes]
    returns the tree as it was.  For every tree whose root has a child
    [child1], [removeNodes(tree, [root.id, child1.id])] leaves the root in
    place and leaves [child1], with its subtree, among the root's
    children. *)
Theorem removeNodes_root_listed_noop (t child1 : MindMapNode) :
  In child1 (children t) ->
  removeNodes [id t; id child1] t = t /\
  In child1 (children (removeNodes [id t; id child1] t)).
Proof.
  intros H. rewrite removeNodes_root_guard by (left; reflexivity). auto.
Qed.

Lemma removeNodes_root_listed_noop_witness :
  removeNodes [js "root"; js "child-1"] INITIAL_TREE = INITIAL_TREE /\
  In (mkNode (js "child-1") (js "Child 1")
        [ mkNode (js "grandchild-1") (js "Grandchild 1") [] None ] None)
     (children (removeNodes [js "root"; js "child-1"] INITIAL_TREE)).
Proof.
  apply (removeNodes_root_listed_noop INITIAL_TREE
           (mkNode (js "child-1") (js "Child 1")
              [ mkNode (js "grandchild-1") (js "Grandchild 1") [] None ] None)).
  simpl. left. reflexivity.
Defined.

(** C2 as stated fails: on the sample tree, with the root's id and the id
    of ["Child 1"] listed, ["Child 1"] is still in the result. *)
Lemma removeNodes_root_listed_counterexample :
  In (js "child-1") (ids_of (removeNodes [js "root"; js "child-1"] INITIAL_TREE)).
Proof. vm_compute. right. left. reflexivity. Qed.

(** Without the root's id in the list, the same call removes ["Child 1"]
    and its subtree. *)
Example removeNodes_child_only :
  removeNodes [js "child-1"] INITIAL_TREE =
  mkNode (js "root") (js "Central Topic")
    [ mkNode (js "child-2") (js "Child 2") [] None ] (Some true).
Proof. vm_compute. reflexivity. Qed.

(** ** [parseMindMap] on two top-level lines *)

(** C8, the parser at the two lines ["- A"] and ["- B"]: the second
    depth-0 line is attached as a child of the explicit root, it is not
    dropped. *)
Theorem parseMindMap_second_top_level_line (uuid : nat -> jsstring) (n : nat) :
  run (parseMindMap uuid (js "- A" ++ [LF] ++ js "- B")) n =
  mkNode (uuid n) (js "A") [mkNode (uuid (S n)) (js "B") [] None] None.
Proof. vm_compute. reflexivity. Qed.

(** ** The mandala mirror sync *)

Lemma array_get_set_eq {A} (a : Mandala.array A) (i : nat) (v : A) :
  Mandala.get (Mandala.set a i v) i = Some v.
Proof.
  unfold Mandala.get. revert a; induction i as [|i IH]; intros [|x a]; simpl; auto.
Qed.

Lemma array_get_set_ne {A} (a : Mandala.array A) (i j : nat) (v : A) :
  i <> j -> Mandala.get (Mandala.set a i v) j = Mandala.get a j.
Proof.
  unfold Mandala.get. revert a j; induction i as [|i IH]; intros [|x a] [|j] H;
    simpl; try congruence; auto.
  - destruct j; reflexivity.
  - rewrite (IH [] j) by congruence. destruct j; reflexivity.
Qed.

Lemma array_length_set_inside {A} (a : Mandala.array A) (i : nat) (v : A) :
  i < length a -> length (Mandala.set a i v) = length a.
Proof.
  revert a; induction i as [|i IH]; intros [|x a] H; simpl in *; try lia.
  rewrite IH; lia.
Qed.

Lemma text_with_text (c : option Mandala.MandalaCell) (t : jsstring) :
  Mandala.text (Mandala.with_text c t) = t.
Proof. destruct c; reflexivity. Qed.

Arguments Mandala.set : simpl never.

Ltac mandala_fields :=
  cbn [negb option_map Mandala.centerGrid Mandala.surroundingGrids
       Mandala.cells];
  rewrite ?text_with_text.

Ltac mandala_reads :=
  unfold Mandala.centerText, Mandala.mirrorText; mandala_fields;
  repeat (first [ rewrite array_get_set_eq
                | rewrite array_get_set_ne by congruence ];
          mandala_fields).

(** C10: for a grid index [i] other than 4, an [updateCell] call that
    returns keeps the text of [centerGrid.cells[i]] equal to the text of
    [surroundingGrids[i].cells[4]] when they were equal before; and the
    two edits that touch the pair write the new text on both sides: an
    edit of cell [i] of the center grid, and an edit of cell 4 of
    surrounding grid [i]. *)
Theorem updateCell_mirror_sync
    (gridType : Mandala.GridType) (gridIndex cellIndex : nat)
    (newText : jsstring) (prev next : Mandala.MandalaChartData) (i : nat) :
  i <> 4 ->
  Mandala.updateCell gridType gridIndex cellIndex newText prev = Some next ->
  (Mandala.centerText prev i = Mandala.mirrorText prev i ->
   Mandala.centerText next i = Mandala.mirrorText next i) /\
  (gridType = Mandala.center -> cellIndex = i ->
   Mandala.centerText next i = Some newText /\
   Mandala.mirrorText next i = Some newText) /\
  (gridType = Mandala.surrounding -> gridIndex = i -> cellIndex = 4 ->
   Mandala.centerText next i = Some newText /\
   Mandala.mirrorText next i = Some newText).
Proof.
  intros Hi Hupd. unfold Mandala.updateCell in Hupd.
  destruct gridType.
  - (* an edit in the center grid *)
    destruct (Nat.eqb_spec cellIndex 4) as [E4 | N4];
      cbn [negb Mandala.centerGrid Mandala.surroundingGrids] in Hupd.
    + injection Hupd as <-; subst cellIndex.
      repeat split; try congruence.
      mandala_reads. auto.
    + destruct (Mandala.get (Mandala.surroundingGrids prev) cellIndex)
        as [g|] eqn:Eg; [|discriminate].
      injection Hupd as <-.
      destruct (Nat.eq_dec cellIndex i) as [-> | Hne].
      * repeat split; try congruence; mandala_reads; reflexivity.
      * repeat split; try congruence.
        mandala_reads. auto.
  - (* an edit in a surrounding grid *)
    destruct (Mandala.get (Mandala.surroundingGrids prev) gridIndex)
      as [g|] eqn:Eg; [|discriminate].
    destruct (Nat.eqb_spec cellIndex 4) as [E4 | N4];
      cbn [negb Mandala.centerGrid Mandala.surroundingGrids] in Hupd;
      injection Hupd as <-.
    + subst cellIndex. destruct (Nat.eq_dec gridIndex i) as [-> | Hne].
      * repeat split; try congruence; mandala_reads; reflexivity.
      * repeat split; try congruence.
        mandala_reads. auto.
    + destruct (Nat.eq_dec gridIndex i) as [-> | Hne].
      * repeat split; try congruence.
        mandala_reads. rewrite Eg. auto.
      * repeat split; try congruence.
        mandala_reads. auto.
Qed.

Lemma updateCell_mirror_sync_witness :
  Mandala.centerText Mandala.initialData 2 = Mandala.mirrorText Mandala.initialData 2 /\
  exists next,
    Mandala.updateCell Mandala.center 4 2 (js "goal") Mandala.initialData = Some next /\
    Mandala.centerText next 2 = Some (js "goal") /\
    Mandala.mirrorText next 2 = Some (js "goal").
Proof.
  split; [reflexivity|].
  eexists; split; [reflexivity|].
  refine (proj1 (proj2 (updateCell_mirror_sync Mandala.center 4 2 (js "goal")
                          Mandala.initialData _ 2 _ _)) eq_refl eq_refl).
  - discriminate.
  - reflexivity.
Defined.


Lemma parseMindMap_blank_input_witness :
  parseMindMap sample_uuid (js "  " ++ [LF; TAB; LF]) 0 =
  (mkNode (sample_uuid 0) (js "Root") [] None, 1).
Proof.
  apply (parseMindMap_blank_input sample_uuid (js "  " ++ [LF; TAB; LF]) 0).
  vm_compute. repeat constructor.
Defined.

(** ** References: reading and mutating inside a tree *)

Lemma nth_error_update_nth_eq {A} (k : nat) (f : A -> A) (l : list A) :
  nth_error (update_nth k f l) k = option_map f (nth_error l k).
Proof.
  revert k; induction l as [|x l IH]; intros [|k]; simpl; auto.
Qed.

Lemma nth_error_update_nth_ne {A} (k j : nat) (f : A -> A) (l : list A) :
  k <> j -> nth_error (update_nth k f l) j = nth_error l j.
Proof.
  revert k j; induction l as [|x l IH]; intros [|k] [|j] H; simpl; auto.
  congruence.
Qed.

Lemma length_update_nth {A} (k : nat) (f : A -> A) (l : list A) :
  length (update_nth k f l) = length l.
Proof.
  revert k; induction l as [|x l IH]; intros [|k]; simpl; auto.
Qed.

Lemma update_nth_ext {A} (k : nat) (f g : A -> A) (l : list A) :
  (forall x, nth_error l k = Some x -> f x = g x) ->
  update_nth k f l = update_nth k g l.
Proof.
  revert k; induction l as [|x l IH]; intros [|k] H; simpl; auto.
  - rewrite (H x); reflexivity.
  - rewrite (IH k); auto.
Qed.

Lemma update_nth_twice {A} (k : nat) (f g : A -> A) (l : list A) :
  update_nth k g (update_nth k f l) = update_nth k (fun x => g (f x)) l.
Proof.
  revert k; induction l as [|x l IH]; intros [|k]; simpl; auto.
  rewrite IH; reflexivity.
Qed.

Lemma update_nth_at {A} (pre post : list A) (x : A) (f : A -> A) :
  update_nth (length pre) f (pre ++ x :: post) = pre ++ f x :: post.
Proof.
  induction pre as [|y pre IH]; simpl; [reflexivity|]. rewrite IH; reflexivity.
Qed.

Lemma deref_app (t : MindMapNode) (a b : ref) :
  deref t (a ++ b) =
  match deref t a with
  | Some n => deref n b
  | None => None
  end.
Proof.
  revert t; induction a as [|k a IH]; intros t; simpl; [reflexivity|].
  destruct (nth_error (children t) k); auto.
Qed.

Lemma modify_ext_at (t : MindMapNode) (a : ref) (f g : MindMapNode -> MindMapNode) :
  (forall n, deref t a = Some n -> f n = g n) ->
  modify t a f = modify t a g.
Proof.
  revert t; induction a as [|k a IH]; intros t H; simpl.
  - apply H; reflexivity.
  - f_equal. apply update_nth_ext. intros c Hc. apply IH.
    intros n Hn. apply H. simpl. rewrite Hc. exact Hn.
Qed.

Lemma modify_app (t : MindMapNode) (a b : ref) (f : MindMapNode -> MindMapNode) :
  modify t (a ++ b) f = modify t a (fun n => modify n b f).
Proof.
  revert t; induction a as [|k a IH]; intros t; simpl; [reflexivity|].
  f_equal. apply update_nth_ext. intros c _. apply IH.
Qed.

Lemma modify_twice (t : MindMapNode) (a : ref) (f g : MindMapNode -> MindMapNode) :
  modify (modify t a f) a g = modify t a (fun n => g (f n)).
Proof.
  revert t; induction a as [|k a IH]; intros t; simpl; [reflexivity|].
  unfold set_children; simpl. f_equal. rewrite update_nth_twice.
  apply update_nth_ext. intros c _. apply IH.
Qed.

Lemma deref_modify_same (t : MindMapNode) (a : ref) (f : MindMapNode -> MindMapNode) :
  deref (modify t a f) a = option_map f (deref t a).
Proof.
  revert t; induction a as [|k a IH]; intros t; simpl; [reflexivity|].
  rewrite nth_error_update_nth_eq.
  destruct (nth_error (children t) k); simpl; auto.
Qed.

(** A mutation at [a] is not seen from a reference that leaves the way to
    [a] at some child index. *)
Lemma deref_modify_other (t : MindMapNode) (c a b : ref) (i j : nat)
    (f : MindMapNode -> MindMapNode) :
  i <> j ->
  deref (modify t (c ++ i :: a) f) (c ++ j :: b) = deref t (c ++ j :: b).
Proof.
  intros H. revert t; induction c as [|k c IH]; intros t; simpl.
  - rewrite nth_error_update_nth_ne by exact H. reflexivity.
  - rewrite nth_error_update_nth_eq.
    destruct (nth_error (children t) k); simpl; auto.
Qed.

Lemma children_at_modify (t : MindMapNode) (a : ref) (f : MindMapNode -> MindMapNode) :
  children_at (modify t a f) a =
  match deref t a with
  | Some n => children (f n)
  | None => []
  end.
Proof.
  unfold children_at. rewrite deref_modify_same.
  destruct (deref t a); reflexivity.
Qed.

Lemma length_prefixes (here a : ref) : length (prefixes here a) = S (length a).
Proof.
  revert here; induction a as [|k a IH]; intros here; simpl; auto.
Qed.

Lemma nth_prefixes_last (here a d : ref) :
  nth (length a) (prefixes here a) d = here ++ a.
Proof.
  revert here; induction a as [|k a IH]; intros here; simpl.
  - rewrite app_nil_r; reflexivity.
  - rewrite IH, <- app_assoc. reflexivity.
Qed.

Lemma nth_prefixes_parent (here a d : ref) (k : nat) :
  nth (length a) (prefixes here (a ++ [k])) d = here ++ a.
Proof.
  revert here; induction a as [|j a IH]; intros here; simpl.
  - rewrite app_nil_r; reflexivity.
  - rewrite IH, <- app_assoc. reflexivity.
Qed.

(** ** Ids below a node *)

Lemma in_flat_map_nth {A B} (f : A -> list B) (l : list A) (k : nat) (x : A) (y : B) :
  nth_error l k = Some x -> In y (f x) -> In y (flat_map f l).
Proof.
  intros Hk Hy. apply in_flat_map. exists x. split; [|exact Hy].
  eapply nth_error_In; eauto.
Qed.

Lemma deref_id_in (t : MindMapNode) (a : ref) (n : MindMapNode) :
  deref t a = Some n -> In (id n) (ids_of t).
Proof.
  revert t; induction a as [|k a IH]; intros t H; simpl in H.
  - inversion H; subst. rewrite ids_of_unfold. left; reflexivity.
  - destruct (nth_error (children t) k) as [c|] eqn:Ec; [|discriminate].
    rewrite ids_of_unfold. right. eapply in_flat_map_nth; eauto.
Qed.

Lemma deref_id_below (t : MindMapNode) (a : ref) (n : MindMapNode) :
  a <> [] -> deref t a = Some n -> In (id n) (flat_map ids_of (children t)).
Proof.
  destruct a as [|k a]; [congruence|]. intros _ H; simpl in H.
  destruct (nth_error (children t) k) as [c|] eqn:Ec; [|discriminate].
  eapply in_flat_map_nth; eauto. eapply deref_id_in; eauto.
Qed.

Lemma NoDup_app_disjoint {A} (l1 l2 : list A) (a : A) :
  NoDup (l1 ++ l2) -> In a l1 -> ~ In a l2.
Proof.
  induction l1 as [|x l1 IH]; simpl; [tauto|].
  intros Hnd [-> | Hin] H2; inversion Hnd; subst.
  - apply H1. apply in_or_app; right; exact H2.
  - exact (IH H3 Hin H2).
Qed.

Lemma NoDup_flat_map_nth {A B} (f : A -> list B) (l : list A) (k : nat) (x : A) :
  NoDup (flat_map f l) -> nth_error l k = Some x -> NoDup (f x).
Proof.
  revert k; induction l as [|y l IH]; intros [|k] Hnd Hk; simpl in *;
    try discriminate.
  - inversion Hk; subst. eapply NoDup_app_remove_r; eauto.
  - eapply IH; eauto. eapply NoDup_app_remove_l; eauto.
Qed.

Lemma NoDup_flat_map_before {A B} (f : A -> list B) (l : list A) (j k : nat)
    (x y : A) (b : B) :
  NoDup (flat_map f l) -> j < k ->
  nth_error l j = Some x -> nth_error l k = Some y ->
  In b (f y) -> ~ In b (f x).
Proof.
  revert j k; induction l as [|z l IH]; intros [|j] [|k] Hnd Hjk Hj Hk Hb;
    simpl in *; try discriminate; try lia.
  - inversion Hj; subst. intros Hx.
    apply (NoDup_app_disjoint _ _ b Hnd Hx). eapply in_flat_map_nth; eauto.
  - eapply (IH j k); eauto; try lia. eapply NoDup_app_remove_l; eauto.
Qed.

Lemma NoDup_deref (t : MindMapNode) (a : ref) (n : MindMapNode) :
  NoDup (ids_of t) -> deref t a = Some n -> NoDup (ids_of n).
Proof.
  revert t; induction a as [|k a IH]; intros t Hnd H; simpl in H.
  - inversion H; subst; exact Hnd.
  - destruct (nth_error (children t) k) as [c|] eqn:Ec; [|discriminate].
    apply (IH c); [|exact H].
    rewrite ids_of_unfold in Hnd. inversion Hnd; subst.
    eapply NoDup_flat_map_nth; eauto.
Qed.

(** ** [findNodePath] *)

Lemma findNodePath_unfold (t : MindMapNode) (here : ref) (X : jsstring)
    (path : list ref) :
  findNodePath t here X path =
  if str_eqb (id t) X then Some (path ++ [here])
  else findNodePath_each here X path (children t) 0.
Proof.
  destruct t as [i tx cs e]; simpl. destruct (str_eqb i X); [reflexivity|].
  generalize 0. induction cs as [|c cs IH]; intros k; simpl; [reflexivity|].
  destruct (findNodePath c (here ++ [k]) X (path ++ [here])); auto.
Qed.

Lemma findNodePath_each_none (here : ref) (X : jsstring) (path : list ref)
    (cs : list MindMapNode) (k : nat) :
  Forall (fun c => forall h p, findNodePath c h X p = None) cs ->
  findNodePath_each here X path cs k = None.
Proof.
  intros H; revert k; induction H as [|c cs Hc _ IH]; intros k; simpl; auto.
  rewrite Hc. apply IH.
Qed.

Lemma findNodePath_none (X : jsstring) (t : MindMapNode) :
  ~ In X (ids_of t) -> forall here path, findNodePath t here X path = None.
Proof.
  induction t as [i tx cs e IH] using MindMapNode_forall_ind.
  intros Hnot here path. rewrite findNodePath_unfold. simpl in *.
  destruct (str_eqb i X) eqn:E.
  - apply str_eqb_eq in E. tauto.
  - apply findNodePath_each_none.
    rewrite Forall_forall in *. intros c Hc. apply IH; [exact Hc|].
    intros Hin. apply Hnot. right. apply in_flat_map. exists c. auto.
Qed.

Lemma findNodePath_each_found (here : ref) (X : jsstring) (path : list ref)
    (cs : list MindMapNode) (k0 k : nat) (c : MindMapNode) (r : list ref) :
  nth_error cs k = Some c ->
  (forall j cj, j < k -> nth_error cs j = Some cj -> ~ In X (ids_of cj)) ->
  findNodePath c (here ++ [k0 + k]) X (path ++ [here]) = Some r ->
  findNodePath_each here X path cs k0 = Some r.
Proof.
  revert k0 k; induction cs as [|c0 cs IH]; intros k0 [|k] Hk Hbefore Hr;
    simpl in *; try discriminate.
  - inversion Hk; subst. rewrite Nat.add_0_r in Hr. rewrite Hr. reflexivity.
  - rewrite findNodePath_none by (apply (Hbefore 0 c0); [lia | reflexivity]).
    apply (IH (S k0) k); auto.
    + intros j cj Hj Hcj. apply (Hbefore (S j) cj); [lia | exact Hcj].
    + replace (S k0 + k) with (k0 + S k) by lia. exact Hr.
Qed.

(** With unique ids, [findNodePath] returns the references on the way to
    the node that carries the id. *)
Lemma findNodePath_found (X : jsstring) (t : MindMapNode) :
  forall (here : ref) (path : list ref) (a : ref) (n : MindMapNode),
    NoDup (ids_of t) -> deref t a = Some n -> id n = X ->
    findNodePath t here X path = Some (path ++ prefixes here a).
Proof.
  induction t as [i tx cs e IH] using MindMapNode_forall_ind.
  intros here path [|k a] n Hnd Hd Hid; rewrite findNodePath_unfold; simpl in *.
  - inversion Hd; subst; simpl. rewrite str_eqb_refl. reflexivity.
  - destruct (nth_error cs k) as [c|] eqn:Ec; [|discriminate].
    inversion Hnd as [|? ? Hroot Hkids]; subst.
    assert (HX : In (id n) (ids_of c)) by (eapply deref_id_in; eauto).
    destruct (str_eqb i (id n)) eqn:E.
    { apply str_eqb_eq in E; subst i. exfalso. apply Hroot.
      eapply in_flat_map_nth; eauto. }
    apply (findNodePath_each_found here (id n) path cs 0 k c); auto.
    + intros j cj Hj Hcj. eapply NoDup_flat_map_before; eauto.
    + simpl. rewrite Forall_forall in IH.
      rewrite (IH c (nth_error_In _ _ Ec) (here ++ [k]) (path ++ [here]) a n);
        auto.
      * rewrite <- app_assoc. reflexivity.
      * eapply NoDup_flat_map_nth; eauto.
Qed.

Lemma findIndex_from_first {A} (p : A -> bool) (l : list A) (i0 : Z) (i : nat) (x : A) :
  nth_error l i = Some x -> p x = true ->
  (forall j y, j < i -> nth_error l j = Some y -> p y = false) ->
  findIndex_from p l i0 = (i0 + Z.of_nat i)%Z.
Proof.
  revert i0 i; induction l as [|y l IH]; intros i0 [|i] Hi Hp Hbefore;
    simpl in *; try discriminate.
  - inversion Hi; subst. rewrite Hp. lia.
  - rewrite (Hbefore 0 y) by (lia || reflexivity).
    rewrite (IH (i0 + 1)%Z i); auto; [lia|].
    intros j z Hj Hz. apply (Hbefore (S j) z); [lia | exact Hz].
Qed.

Lemma splice_insert_after {A} (l : list A) (i : nat) (v : A) :
  i < length l ->
  splice_insert l (Z.of_nat i + 1)%Z v = firstn (S i) l ++ v :: skipn (S i) l.
Proof.
  intros H. unfold splice_insert.
  destruct (Z.ltb_spec (Z.of_nat i + 1) 0); [lia|].
  rewrite Z.min_l by lia.
  replace (Z.to_nat (Z.of_nat i + 1)) with (S i) by lia. reflexivity.
Qed.

(** ** [addSibling] and [addChild] *)

(** C4: in a tree with unique ids, let [X] be the id of the child at
    position [i] of the node at reference [p].  [addSibling] returns the
    tree in which only that node was changed: its children got one new
    node, with the text ["New Node"] and no children, at position [i + 1];
    one identifier was drawn, for the new node. *)
Theorem addSibling_inserts_after (uuid : nat -> jsstring) (T : MindMapNode)
    (X : jsstring) (p : ref) (parent x : MindMapNode) (i n : nat) :
  NoDup (ids_of T) ->
  deref T p = Some parent ->
  nth_error (children parent) i = Some x ->
  id x = X ->
  addSibling uuid X T n =
  (modify T p
     (fun par =>
        set_children par
          (firstn (S i) (children par)
           ++ mkNode (uuid n) (js "New Node") [] None
           :: skipn (S i) (children par))),
   S n).
Proof.
  intros Hnd Hp Hi Hid.
  assert (Hx : deref T (p ++ [i]) = Some x).
  { rewrite deref_app, Hp. simpl. rewrite Hi. reflexivity. }
  assert (Hroot : str_eqb X (id T) = false).
  { apply str_eqb_neq. intros E. rewrite ids_of_unfold in Hnd.
    inversion Hnd as [|? ? Hnot _]; subst. apply Hnot. rewrite <- E.
    apply (deref_id_below T (p ++ [i]) x); [|exact Hx].
    destruct p; discriminate. }
  unfold addSibling. rewrite Hroot.
  rewrite (findNodePath_found X T [] [] (p ++ [i]) x Hnd Hx Hid).
  cbn [app]. rewrite length_prefixes, length_app. cbn [length].
  replace (2 <=? S (length p + 1)) with true by (symmetry; apply Nat.leb_le; lia).
  replace (S (length p + 1) - 2) with (length p) by lia.
  rewrite nth_prefixes_parent. cbn [app].
  unfold children_at. rewrite Hp.
  assert (Hidx : findIndex (fun m => str_eqb (id m) X) (children parent)
                 = Z.of_nat i).
  { unfold findIndex. rewrite (findIndex_from_first _ _ 0%Z i x); auto.
    - subst X. apply str_eqb_refl.
    - intros j y Hj Hy. apply str_eqb_neq. intros E.
      assert (Hpn : NoDup (ids_of parent)) by (eapply NoDup_deref; eauto).
      rewrite ids_of_unfold in Hpn. inversion Hpn as [|? ? _ Hkids]; subst.
      apply (NoDup_flat_map_before ids_of (children parent) j i y x (id x)
               Hkids Hj Hy Hi).
      + rewrite ids_of_unfold. left; reflexivity.
      + rewrite <- E. rewrite ids_of_unfold. left; reflexivity. }
  rewrite Hidx. unfold bind, uuidv4, ret. f_equal.
  apply modify_ext_at. intros par Hpar. rewrite Hp in Hpar.
  inversion Hpar; subst par.
  rewrite splice_insert_after; [reflexivity|].
  apply nth_error_Some. congruence.
Qed.

Lemma addSibling_inserts_after_witness :
  addSibling sample_uuid (js "child-1") INITIAL_TREE 0 =
  (mkNode (js "root") (js "Central Topic")
     [ mkNode (js "child-1") (js "Child 1")
         [ mkNode (js "grandchild-1") (js "Grandchild 1") [] None ] None;
       mkNode (sample_uuid 0) (js "New Node") [] None;
       mkNode (js "child-2") (js "Child 2") [] None ]
     (Some true), 1).
Proof.
  apply (addSibling_inserts_after sample_uuid INITIAL_TREE (js "child-1") []
           INITIAL_TREE
           (mkNode (js "child-1") (js "Child 1")
              [ mkNode (js "grandchild-1") (js "Grandchild 1") [] None ] None)
           0 0).
  - vm_compute. repeat (constructor; [simpl; intuition discriminate|]).
    constructor.
  - reflexivity.
  - reflexivity.
  - reflexivity.
Defined.

(** C5: in a tree with unique ids, if the node at reference [p] carries
    the id, [addChild] returns the tree in which only that node was
    changed: one new node, with the text ["New Child"] and no children,
    was appended to its children, and its [isExpanded] is [true].  If no
    node carries the id, [addChild] returns the tree as it was (and draws
    no identifier). *)
Theorem addChild_appends (uuid : nat -> jsstring) (T : MindMapNode)
    (X : jsstring) (n : nat) :
  (forall (p : ref) (target : MindMapNode),
      NoDup (ids_of T) -> deref T p = Some target -> id target = X ->
      addChild uuid X T n =
      (modify T p
         (fun t =>
            mkNode (id t) (text t)
              (children t ++ [mkNode (uuid n) (js "New Child") [] None])
              (Some true)),
       S n))
  /\ (~ In X (ids_of T) -> addChild uuid X T n = (T, n)).
Proof.
  split.
  - intros p target Hnd Hp Hid. unfold addChild.
    rewrite (findNodePath_found X T [] [] p target Hnd Hp Hid).
    cbn [app]. rewrite length_prefixes.
    replace (S (length p) - 1) with (length p) by lia.
    rewrite nth_prefixes_last. reflexivity.
  - intros Hnot. unfold addChild. rewrite findNodePath_none by exact Hnot.
    reflexivity.
Qed.

Lemma addChild_appends_witness :
  addChild sample_uuid (js "child-1") INITIAL_TREE 0 =
  (mkNode (js "root") (js "Central Topic")
     [ mkNode (js "child-1") (js "Child 1")
         [ mkNode (js "grandchild-1") (js "Grandchild 1") [] None;
           mkNode (sample_uuid 0) (js "New Child") [] None ] (Some true);
       mkNode (js "child-2") (js "Child 2") [] None ]
     (Some true), 1)
  /\ addChild sample_uuid (js "nowhere") INITIAL_TREE 0 = (INITIAL_TREE, 0).
Proof.
  split.
  - apply (proj1 (addChild_appends sample_uuid INITIAL_TREE (js "child-1") 0) [0]
             (mkNode (js "child-1") (js "Child 1")
                [ mkNode (js "grandchild-1") (js "Grandchild 1") [] None ] None)).
    + vm_compute. repeat (constructor; [simpl; intuition discriminate|]).
      constructor.
    + reflexivity.
    + reflexivity.
  - apply (proj2 (addChild_appends sample_uuid INITIAL_TREE (js "nowhere") 0)).
    vm_compute. intuition discriminate.
Defined.

(** ** The delete transition of [handleKeyDown] *)

Lemma getVisibleNodes_visibleOrder (t : MindMapNode) :
  forall acc, getVisibleNodes t acc = acc ++ visibleOrder t.
Proof.
  induction t as [i tx cs e IH] using MindMapNode_forall_ind.
  intros acc. simpl.
  assert (Hloop : forall lst,
    (fix each (cs0 : list MindMapNode) (lst0 : list MindMapNode) :=
       match cs0 with
       | [] => lst0
       | c :: rest => each rest (getVisibleNodes c lst0)
       end) cs lst = lst ++ flat_map visibleOrder cs).
  { induction IH as [|c cs Hc _ IHcs]; intros lst; simpl.
    - rewrite app_nil_r; reflexivity.
    - rewrite Hc, IHcs, <- app_assoc. reflexivity. }
  destruct e as [[|]|]; rewrite ?Hloop, <- ?app_assoc; reflexivity.
Qed.

Lemma getVisibleNodes_head (t : MindMapNode) :
  nth_error (getVisibleNodes t []) 0 = Some t.
Proof.
  rewrite getVisibleNodes_visibleOrder. destruct t; reflexivity.
Qed.

Lemma findIndex_from_spec {A} (p : A -> bool) (l : list A) (i0 : Z) :
  (findIndex_from p l i0 = (-1)%Z /\ forall x, In x l -> p x = false) \/
  (exists k x, findIndex_from p l i0 = (i0 + Z.of_nat k)%Z /\
               nth_error l k = Some x /\ p x = true /\
               forall j y, j < k -> nth_error l j = Some y -> p y = false).
Proof.
  revert i0; induction l as [|a l IH]; intros i0; simpl.
  - left; split; [reflexivity | intros x []].
  - destruct (p a) eqn:Ea.
    + right. exists 0, a. repeat split; auto; [lia | intros j y Hj; lia].
    + destruct (IH (i0 + 1)%Z) as [[E Hall] | (k & x & E & Hk & Hx & Hbefore)].
      * left. split; [exact E|]. intros x [<- | Hin]; auto.
      * right. exists (S k), x. repeat split; auto; [lia|].
        intros [|j] y Hj Hy; simpl in Hy.
        -- inversion Hy; subst; exact Ea.
        -- apply (Hbefore j y); [lia | exact Hy].
Qed.

Lemma scanBack_spec (visible : list MindMapNode) (selected : JsSet) (count : nat) :
  count <= length visible ->
  match scanBack visible selected count with
  | Some safe =>
      exists j, j < count /\ nth_error (map id visible) j = Some safe /\
                ~ In safe selected /\
                forall j', j < j' < count ->
                  exists y, nth_error (map id visible) j' = Some y /\ In y selected
  | None =>
      forall j, j < count ->
        exists y, nth_error (map id visible) j = Some y /\ In y selected
  end.
Proof.
  induction count as [|i IH]; intros Hlen; simpl.
  - intros j Hj; lia.
  - destruct (nth_error visible i) as [v|] eqn:Ev.
    2:{ apply nth_error_None in Ev. lia. }
    assert (Hv : nth_error (map id visible) i = Some (id v))
      by (rewrite nth_error_map, Ev; reflexivity).
    destruct (set_has selected (id v)) eqn:Es; simpl.
    + apply set_has_In in Es. specialize (IH ltac:(lia)).
      destruct (scanBack visible selected i) as [safe|].
      * destruct IH as (j & Hj & Hnth & Hnot & Hbetween).
        exists j. repeat split; auto. intros j' Hj'.
        destruct (Nat.eq_dec j' i) as [-> | Hne]; [eauto|].
        apply Hbetween; lia.
      * intros j Hj. destruct (Nat.eq_dec j i) as [-> | Hne]; [eauto|].
        apply IH; lia.
    + apply set_has_false in Es. exists i. repeat split; auto.
      intros j' Hj'; lia.
Qed.

(** C7: on Backspace or Delete with Ctrl or Cmd held, when the selection
    is not empty and does not hold the root's id, [handleKeyDown] calls
    [removeNodes] with all the selected ids and leaves [selectedIds] equal
    to the singleton of [safeId] and [lastFocusedId] equal to [safeId],
    where [safeId] is the fallback of the specification: the first id
    before the index of [lastFocusedId] in the visible order, scanning
    backward, that is not selected, and the first visible id when there is
    none or when [lastFocusedId] is not visible or is at index 0. *)
Theorem handleKeyDown_delete (uuid : nat -> jsstring) (e : KeyboardEvent)
    (nodeId : jsstring) (st : ViewState) (n : nat) :
  key e = js "Backspace" \/ key e = js "Delete" ->
  ctrlKey e = true \/ metaKey e = true ->
  selectedIds st <> [] ->
  ~ In (id (root st)) (selectedIds st) ->
  exists safeId,
    SafeFallback (map id (getVisibleNodes (root st) [])) (selectedIds st)
                 (lastFocusedId st) safeId /\
    handleKeyDown uuid e nodeId st n =
    (mkViewState (removeNodes (Array_from (selectedIds st)) (root st))
                 [safeId] safeId, n).
Proof.
  intros Hkey Hmod Hsel Hroot.
  set (visible := getVisibleNodes (root st) []).
  assert (Hhead : nth_error (map id visible) 0 = Some (id (root st))).
  { unfold visible. rewrite nth_error_map, getVisibleNodes_head. reflexivity. }
  assert (Hlen : 0 < length visible).
  { destruct visible; [discriminate | simpl; lia]. }
  assert (Hbranch :
    handleKeyDown uuid e nodeId st n =
    (let currentIdx :=
       findIndex (fun m => str_eqb (id m) (lastFocusedId st)) visible in
     let found :=
       if (currentIdx >? 0)%Z
       then scanBack visible (selectedIds st) (Z.to_nat currentIdx) else None in
     let safeId :=
       match found with
       | Some i => i
       | None => if 0 <? length visible then id_at visible 0 (id (root st))
                 else id (root st)
       end in
     (mkViewState (removeNodes (Array_from (selectedIds st)) (root st))
                  (set_from [safeId]) safeId, n))).
  { unfold handleKeyDown.
    assert (Hdel : (str_eqb (key e) (js "Backspace")
                    || str_eqb (key e) (js "Delete")) = true).
    { destruct Hkey as [-> | ->]; reflexivity. }
    assert (Hother : str_eqb (key e) (js "ArrowDown") = false
                     /\ str_eqb (key e) (js "ArrowUp") = false
                     /\ str_eqb (key e) (js "Enter") = false
                     /\ str_eqb (key e) (js "Tab") = false).
    { destruct Hkey as [-> | ->]; repeat split; reflexivity. }
    destruct Hother as (-> & -> & -> & ->). rewrite Hdel.
    replace (ctrlKey e || metaKey e) with true
      by (destruct Hmod as [-> | ->]; [|rewrite orb_true_r]; reflexivity).
    replace (0 <? set_size (selectedIds st)) with true
      by (destruct (selectedIds st); [congruence | reflexivity]).
    replace (set_has (selectedIds st) (id (root st))) with false
      by (symmetry; apply set_has_false; exact Hroot).
    reflexivity. }
  rewrite Hbranch; clear Hbranch. cbv zeta.
  replace (0 <? length visible) with true by (symmetry; apply Nat.ltb_lt; exact Hlen).
  assert (Hfirst : id_at visible 0 (id (root st)) = id (root st)).
  { unfold id_at, visible. rewrite getVisibleNodes_head. reflexivity. }
  rewrite Hfirst.
  unfold findIndex.
  destruct (findIndex_from_spec (fun m => str_eqb (id m) (lastFocusedId st)) visible 0)
    as [[E Hall] | (k & x & E & Hk & Hx & Hbefore)]; rewrite E.
  - (* lastFocusedId is not visible *)
    exists (id (root st)). split; [|reflexivity].
    apply fallback_first; [|exact Hhead]. left.
    intros Hin. apply in_map_iff in Hin. destruct Hin as (m & Hm & Hin).
    specialize (Hall m Hin). simpl in Hall. apply str_eqb_neq in Hall. auto.
  - assert (Hidx : index_of (map id visible) (lastFocusedId st) k).
    { split.
      - rewrite nth_error_map, Hk. simpl. f_equal. apply str_eqb_eq. exact Hx.
      - intros j Hj Hnth. rewrite nth_error_map in Hnth.
        destruct (nth_error visible j) as [y|] eqn:Ey; [|discriminate].
        inversion Hnth as [Hid]. specialize (Hbefore j y Hj Ey). simpl in Hbefore.
        apply str_eqb_neq in Hbefore. auto. }
    destruct k as [|k].
    + (* lastFocusedId is at index 0 *)
      exists (id (root st)). split; [|reflexivity].
      apply fallback_first; [|exact Hhead]. right; left. exact Hidx.
    + replace (0 + Z.of_nat (S k) >? 0)%Z with true
        by (symmetry; rewrite Z.gtb_ltb; apply Z.ltb_lt; lia).
      replace (Z.to_nat (0 + Z.of_nat (S k))) with (S k) by lia.
      assert (Hcount : S k <= length visible).
      { apply Nat.lt_le_incl. apply nth_error_Some. congruence. }
      pose proof (scanBack_spec visible (selectedIds st) (S k) Hcount) as Hscan.
      destruct (scanBack visible (selectedIds st) (S k)) as [safe|].
      * destruct Hscan as (j & Hj & Hnth & Hnot & Hbetween).
        exists safe. split; [|reflexivity].
        eapply fallback_scanned; eauto.
      * exists (id (root st)). split; [|reflexivity].
        apply fallback_first; [|exact Hhead]. right; right.
        exists (S k). split; [exact Hidx | exact Hscan].
Qed.

Lemma handleKeyDown_delete_witness :
  exists safeId,
    SafeFallback (map id (getVisibleNodes INITIAL_TREE []))
                 [js "grandchild-1"; js "child-2"] (js "child-2") safeId /\
    handleKeyDown sample_uuid
      (mkKeyboardEvent (js "Backspace") false true false false)
      (js "child-2")
      (mkViewState INITIAL_TREE [js "grandchild-1"; js "child-2"] (js "child-2")) 0 =
    (mkViewState (removeNodes [js "grandchild-1"; js "child-2"] INITIAL_TREE)
                 [safeId] safeId, 0).
Proof.
  apply (handleKeyDown_delete sample_uuid
           (mkKeyboardEvent (js "Backspace") false true false false)
           (js "child-2")
           (mkViewState INITIAL_TREE [js "grandchild-1"; js "child-2"] (js "child-2"))
           0).
  - left; reflexivity.
  - left; reflexivity.
  - discriminate.
  - vm_compute. intuition discriminate.
Defined.

(** On that state the fallback is ["child-1"]: the scan goes backward
    from ["child-2"], skips the selected ["grandchild-1"] and stops on
    ["child-1"]. *)
Example delete_transition_sample :
  run (handleKeyDown sample_uuid
         (mkKeyboardEvent (js "Backspace") false true false false)
         (js "child-2")
         (mkViewState INITIAL_TREE [js "grandchild-1"; js "child-2"] (js "child-2")))
      0 =
  mkViewState
    (mkNode (js "root") (js "Central Topic")
       [ mkNode (js "child-1") (js "Child 1") [] None ] (Some true))
    [js "child-1"] (js "child-1").
Proof. vm_compute. reflexivity. Qed.

(** ** The parser's loop: every line is attached *)

Lemma popWhile_suffix (d : Z) (stack : list StackEntry) :
  exists popped, stack = popped ++ popWhile d stack.
Proof.
  induction stack as [|e stack [popped IH]]; simpl.
  - exists []; reflexivity.
  - destruct (depth e >=? d)%Z.
    + exists (e :: popped). simpl. rewrite <- IH. reflexivity.
    + exists []. reflexivity.
Qed.

Lemma popWhile_keeps_bottom (d : Z) (above : list StackEntry) (bottom : StackEntry) :
  (depth bottom < d)%Z ->
  exists above', popWhile d (above ++ [bottom]) = above' ++ [bottom].
Proof.
  intros Hb. induction above as [|e above IH]; simpl.
  - destruct (Z.geb_spec (depth bottom) d); [lia|]. exists []; reflexivity.
  - destruct (depth e >=? d)%Z; [exact IH|]. exists (e :: above); reflexivity.
Qed.

Lemma is_prefix_refl (a : ref) : is_prefix a a.
Proof. exists []. rewrite app_nil_r; reflexivity. Qed.

Lemma is_prefix_trans (a b c : ref) : is_prefix a b -> is_prefix b c -> is_prefix a c.
Proof.
  intros [x ->] [y ->]. exists (x ++ y). rewrite app_assoc; reflexivity.
Qed.

Lemma is_prefix_app (a b : ref) : is_prefix a (a ++ b).
Proof. exists b; reflexivity. Qed.

Lemma chain_weaken (upper upper' : ref) (stack : list StackEntry) :
  is_prefix upper upper' -> chain upper stack -> chain upper' stack.
Proof.
  destruct stack as [|e below]; simpl; [tauto|].
  destruct (node e); [|tauto]. intros H [H1 H2]. split; [|exact H2].
  eapply is_prefix_trans; eauto.
Qed.

Lemma chain_suffix (upper : ref) (popped stack : list StackEntry) :
  chain upper (popped ++ stack) -> chain upper stack.
Proof.
  revert upper; induction popped as [|e popped IH]; intros upper; simpl; [tauto|].
  destruct (node e) as [a|]; [|tauto]. intros [H1 H2].
  apply (chain_weaken a upper); [exact H1|]. apply IH; exact H2.
Qed.

Lemma rightmost_prefix (t : MindMapNode) (a b : ref) :
  rightmost t (a ++ b) -> rightmost t a.
Proof.
  revert t; induction a as [|k a IH]; intros t; simpl; [tauto|].
  destruct (nth_error (children t) k); [|tauto]. intros [H1 H2]. split; auto.
Qed.

Lemma last_child_split {A} (cs : list A) (k : nat) (c : A) :
  nth_error cs k = Some c -> S k = length cs ->
  exists pre, cs = pre ++ [c] /\ length pre = k.
Proof.
  intros Hk Hlen. destruct (nth_error_split cs k Hk) as (pre & post & -> & Hpre).
  rewrite length_app in Hlen; simpl in Hlen.
  destruct post; [|simpl in Hlen; lia]. exists pre; auto.
Qed.

Lemma rightmost_deref (t : MindMapNode) (a : ref) :
  rightmost t a -> exists n, deref t a = Some n.
Proof.
  revert t; induction a as [|k a IH]; intros t; simpl; [eauto|].
  destruct (nth_error (children t) k); [|tauto]. intros [_ H]. auto.
Qed.

Lemma texts_push_child (t : MindMapNode) (a : ref) (leafNode : MindMapNode) :
  rightmost t a ->
  texts (modify t a (push_child leafNode)) = texts t ++ texts leafNode.
Proof.
  remember (texts leafNode) as added eqn:Hadded.
  revert t; induction a as [|k a IH]; intros t Hr; simpl in *.
  - change (texts (push_child leafNode t))
      with (text t :: flat_map texts (children t ++ [leafNode])).
    rewrite (texts_unfold t), flat_map_app. simpl.
    rewrite app_nil_r, Hadded. reflexivity.
  - destruct (nth_error (children t) k) as [c|] eqn:Ec; [|tauto].
    destruct Hr as [Hlen Hr].
    destruct (last_child_split _ _ _ Ec Hlen) as (pre & Hcs & Hpre).
    rewrite (texts_unfold t).
    rewrite Hcs, <- Hpre, update_nth_at, !flat_map_app. simpl.
    rewrite !app_nil_r, (IH c Hr), app_assoc. reflexivity.
Qed.

Lemma rightmost_push_child (t : MindMapNode) (a : ref) (leafNode : MindMapNode) :
  rightmost t a ->
  rightmost (modify t a (push_child leafNode))
            (a ++ [length (children_at t a)]).
Proof.
  revert t; induction a as [|k a IH]; intros t Hr; simpl in *.
  - unfold children_at; simpl. rewrite nth_error_app2 by lia.
    rewrite Nat.sub_diag, length_app. simpl. split; [lia | exact I].
  - destruct (nth_error (children t) k) as [c|] eqn:Ec; [|tauto].
    destruct Hr as [Hlen Hr].
    rewrite nth_error_update_nth_eq, Ec. simpl. split.
    + rewrite length_update_nth. exact Hlen.
    + unfold children_at in *. simpl. rewrite Ec. apply IH. exact Hr.
Qed.

Lemma parseLoop_texts (uuid : nat -> jsstring) (lines : list ParsedLine) :
  forall (t : MindMapNode) (stack : list StackEntry) (n : nat),
    stack_ok t stack ->
    texts (run (parseLoop uuid lines t stack) n) = texts t ++ map pl_text lines.
Proof.
  induction lines as [|l lines IH]; intros t stack n Hok.
  - simpl. unfold run, ret. simpl. rewrite app_nil_r. reflexivity.
  - destruct Hok as [(upper & Hright & Hchain) (above & bottom & Hstack & Hbottom)].
    simpl. unfold run, bind, uuidv4. simpl.
    set (d := Z.of_nat (pl_depth l)).
    destruct (popWhile_keeps_bottom d above bottom ltac:(lia)) as [above' Hpop].
    destruct (popWhile_suffix d stack) as [popped Hsuffix].
    rewrite Hsuffix in Hchain. apply chain_suffix in Hchain.
    rewrite <- Hstack in Hpop.
    destruct (popWhile d stack) as [|e below] eqn:Epop.
    { destruct above'; discriminate. }
    simpl in Hchain. destruct (node e) as [a|] eqn:Ea; [|tauto].
    destruct Hchain as [[rest Hupper] Hbelow].
    assert (Ha : rightmost t a) by (subst upper; eapply rightmost_prefix; eauto).
    fold (run (parseLoop uuid lines
                 (modify t a (push_child (mkNode (uuid n) (pl_text l) [] None)))
                 (mkStackEntry (Some (a ++ [length (children_at t a)])) d :: e :: below))
              (S n)).
    rewrite IH.
    + rewrite texts_push_child by exact Ha. simpl. rewrite <- app_assoc.
      reflexivity.
    + split.
      * exists (a ++ [length (children_at t a)]). split.
        -- apply rightmost_push_child; exact Ha.
        -- simpl. split; [apply is_prefix_refl|]. rewrite Ea.
           split; [apply is_prefix_app | exact Hbelow].
      * exists (mkStackEntry (Some (a ++ [length (children_at t a)])) d :: above'),
               bottom.
        split; [|exact Hbottom]. simpl. rewrite Hpop. reflexivity.
Qed.

(** Every surviving line becomes a node: the texts of the returned tree,
    in pre-order, are the texts of the surviving lines, after the text
    ["Root"] when the first line is indented.  No line is dropped. *)
Lemma parseMindMap_texts (uuid : nat -> jsstring) (input : jsstring)
    (n : nat) (first : ParsedLine) (rest : list ParsedLine) :
  survivingLines input = first :: rest ->
  texts (run (parseMindMap uuid input) n) =
  if pl_depth first =? 0 then map pl_text (first :: rest)
  else js "Root" :: map pl_text (first :: rest).
Proof.
  unfold survivingLines, parseMindMap. intros Hlines.
  destruct (filter (fun line => negb (str_eqb (trim line) [])) (split input))
    as [|line0 lines]; [discriminate|].
  simpl in Hlines. injection Hlines as Hfirst Hrest. subst first rest.
  assert (Hok : forall r, stack_ok (mkNode (uuid n) r [] None)
                                   [mkStackEntry (Some []) (-1)%Z]).
  { intros r. split.
    - exists []. simpl. split; [exact I|]. split; [apply is_prefix_refl | exact I].
    - exists [], (mkStackEntry (Some []) (-1)%Z). split; reflexivity. }
  destruct (pl_depth (parseLine line0) =? 0) eqn:Hdepth;
    simpl; unfold run, bind, uuidv4, ret; simpl.
  - apply (parseLoop_texts uuid (map parseLine lines)
             (mkNode (uuid n) (pl_text (parseLine line0)) [] None)
             [mkStackEntry (Some []) (-1)%Z] (S n) (Hok _)).
  - apply (parseLoop_texts uuid (parseLine line0 :: map parseLine lines)
             (mkNode (uuid n) (js "Root") [] None)
             [mkStackEntry (Some []) (-1)%Z] (S n) (Hok _)).
Qed.

(** C6: on an input with a non-blank line, let [first :: rest] be its
    surviving lines as measured.  If [first] has depth 0 the returned root
    carries the text of [first], and the nodes below the root are, in
    pre-order, the lines of [rest]: [first] is not added again.  Otherwise
    the returned root has the text ["Root"], and the nodes below it are, in
    pre-order, all the surviving lines, [first] and depth-0 lines
    included. *)
Theorem parseMindMap_root_inference (uuid : nat -> jsstring) (input : jsstring)
    (n : nat) (first : ParsedLine) (rest : list ParsedLine) :
  survivingLines input = first :: rest ->
  (pl_depth first = 0 ->
   text (run (parseMindMap uuid input) n) = pl_text first /\
   flat_map texts (children (run (parseMindMap uuid input) n)) = map pl_text rest)
  /\
  (pl_depth first <> 0 ->
   text (run (parseMindMap uuid input) n) = js "Root" /\
   flat_map texts (children (run (parseMindMap uuid input) n))
   = map pl_text (first :: rest)).
Proof.
  intros Hlines.
  pose proof (parseMindMap_texts uuid input n first rest Hlines) as H.
  rewrite texts_unfold in H.
  split; intros Hdepth.
  - rewrite Hdepth in H. simpl in H. injection H as Htext Hkids.
    split; assumption.
  - apply Nat.eqb_neq in Hdepth. rewrite Hdepth in H.
    injection H as Htext Hkids. split; assumption.
Qed.

Lemma parseMindMap_root_inference_witness :
  (text (run (parseMindMap sample_uuid (js "- A" ++ [LF] ++ js "- B")) 0) = js "A" /\
   flat_map texts
     (children (run (parseMindMap sample_uuid (js "- A" ++ [LF] ++ js "- B")) 0))
   = [js "B"])
  /\
  (text (run (parseMindMap sample_uuid (js "  A" ++ [LF] ++ js "B")) 0) = js "Root" /\
   flat_map texts
     (children (run (parseMindMap sample_uuid (js "  A" ++ [LF] ++ js "B")) 0))
   = [js "A"; js "B"]).
Proof.
  split.
  - apply (proj1 (parseMindMap_root_inference sample_uuid
                    (js "- A" ++ [LF] ++ js "- B") 0
                    (mkParsedLine 0 (js "A")) [mkParsedLine 0 (js "B")] eq_refl)).
    reflexivity.
  - apply (proj2 (parseMindMap_root_inference sample_uuid
                    (js "  A" ++ [LF] ++ js "B") 0
                    (mkParsedLine 1 (js "A")) [mkParsedLine 0 (js "B")] eq_refl)).
    discriminate.
Defined.

(** ** The outline of a tree, line by line *)

Lemma exportMindMap_unfold (t : MindMapNode) (d : nat) :
  exportMindMap t d =
  let childrenLines :=
    join [LF] (map (fun child => exportMindMap child (d + 1)) (children t)) in
  match childrenLines with
  | [] => render (mkParsedLine d (text t))
  | _ => render (mkParsedLine d (text t)) ++ [LF] ++ childrenLines
  end.
Proof. destruct t; reflexivity. Qed.

Lemma flatten_unfold (t : MindMapNode) (d : nat) :
  flatten t d =
  mkParsedLine d (text t) :: flat_map (fun c => flatten c (S d)) (children t).
Proof. destruct t; reflexivity. Qed.

Lemma join_cons_cons (sep x y : jsstring) (r : list jsstring) :
  join sep (x :: y :: r) = x ++ sep ++ join sep (y :: r).
Proof. reflexivity. Qed.

Lemma join_app (sep : jsstring) (l1 l2 : list jsstring) :
  l1 <> [] -> l2 <> [] ->
  join sep (l1 ++ l2) = join sep l1 ++ sep ++ join sep l2.
Proof.
  intros H1 H2. induction l1 as [|x l1 IH]; [congruence|].
  destruct l1 as [|y l1].
  - destruct l2 as [|z l2]; [congruence|]. reflexivity.
  - change ((x :: y :: l1) ++ l2) with (x :: y :: (l1 ++ l2)).
    rewrite !join_cons_cons. change (y :: l1 ++ l2) with ((y :: l1) ++ l2).
    rewrite IH by discriminate. rewrite <- !app_assoc. reflexivity.
Qed.

Lemma render_not_nil (l : ParsedLine) : render l <> [].
Proof.
  unfold render. intros H. apply app_eq_nil in H as [_ H]. discriminate.
Qed.

Lemma join_not_nil (sep x : jsstring) (r : list jsstring) :
  x <> [] -> join sep (x :: r) <> [].
Proof.
  intros Hx H. destruct r as [|y r]; simpl in H; [congruence|].
  apply app_eq_nil in H as [H _]. congruence.
Qed.

Lemma flatten_not_nil (t : MindMapNode) (d : nat) : flatten t d <> [].
Proof. rewrite flatten_unfold. discriminate. Qed.

Lemma join_children_lines (cs : list MindMapNode) (d : nat) :
  join [LF] (map (fun c => join [LF] (map render (flatten c d))) cs) =
  join [LF] (map render (flat_map (fun c => flatten c d) cs)).
Proof.
  induction cs as [|c cs IH]; [reflexivity|].
  destruct cs as [|c' cs].
  - simpl. rewrite app_nil_r. reflexivity.
  - change (flat_map (fun c0 => flatten c0 d) (c :: c' :: cs))
      with (flatten c d ++ flat_map (fun c0 => flatten c0 d) (c' :: cs)).
    rewrite map_app, join_app.
    + rewrite <- IH. reflexivity.
    + rewrite flatten_unfold. discriminate.
    + simpl. rewrite (flatten_unfold c'). discriminate.
Qed.

Lemma exportMindMap_lines (t : MindMapNode) :
  forall d, exportMindMap t d = join [LF] (map render (flatten t d)).
Proof.
  induction t as [i tx cs e IH] using MindMapNode_forall_ind.
  intros d. rewrite exportMindMap_unfold, flatten_unfold. cbv zeta.
  simpl children. simpl text.
  replace (map (fun child => exportMindMap child (d + 1)) cs)
    with (map (fun c => join [LF] (map render (flatten c (S d)))) cs).
  2:{ apply map_ext_Forall. eapply Forall_impl; [|exact IH].
      intros c Hc; simpl. rewrite Nat.add_1_r. symmetry; apply Hc. }
  rewrite join_children_lines.
  destruct cs as [|c cs]; [reflexivity|].
  remember (flat_map (fun c0 => flatten c0 (S d)) (c :: cs)) as below eqn:Hb.
  assert (Hne : below <> []).
  { subst below. simpl. rewrite flatten_unfold. discriminate. }
  destruct below as [|l below]; [congruence|].
  assert (Hj : join [LF] (map render (l :: below)) <> [])
    by (apply join_not_nil, render_not_nil).
  destruct (join [LF] (map render (l :: below))) as [|ch chs] eqn:Ej;
    [congruence|].
  rewrite <- Ej. reflexivity.
Qed.

(** ** Reading the lines back *)

Lemma split_no_LF (x : jsstring) :
  forallb (fun c => negb (c =? LF)%N) x = true -> split x = [x].
Proof.
  induction x as [|c x IH]; simpl; [reflexivity|].
  intros H. apply andb_true_iff in H as [Hc Hx].
  apply negb_true_iff in Hc. rewrite Hc, (IH Hx). reflexivity.
Qed.

Lemma split_app_LF (x r : jsstring) :
  forallb (fun c => negb (c =? LF)%N) x = true ->
  split (x ++ LF :: r) = x :: split r.
Proof.
  induction x as [|c x IH]; simpl; [reflexivity|].
  intros H. apply andb_true_iff in H as [Hc Hx].
  apply negb_true_iff in Hc. rewrite Hc, (IH Hx). reflexivity.
Qed.

Lemma split_join (ls : list jsstring) :
  ls <> [] ->
  Forall (fun x => forallb (fun c => negb (c =? LF)%N) x = true) ls ->
  split (join [LF] ls) = ls.
Proof.
  induction ls as [|x ls IH]; intros Hne H; [congruence|].
  inversion H as [|? ? Hx Hls]; subst.
  destruct ls as [|y ls].
  - simpl. apply split_no_LF; exact Hx.
  - rewrite join_cons_cons.
    change (x ++ [LF] ++ join [LF] (y :: ls)) with (x ++ LF :: join [LF] (y :: ls)).
    rewrite split_app_LF by exact Hx.
    rewrite IH by (discriminate || assumption). reflexivity.
Qed.

Lemma takeWhile_app_all {A} (p : A -> bool) (l1 l2 : list A) :
  forallb p l1 = true -> takeWhile p (l1 ++ l2) = l1 ++ takeWhile p l2.
Proof.
  induction l1 as [|x l1 IH]; simpl; [reflexivity|].
  intros H. apply andb_true_iff in H as [Hx H]. rewrite Hx, (IH H). reflexivity.
Qed.

Lemma dropWhile_app_all {A} (p : A -> bool) (l1 l2 : list A) :
  forallb p l1 = true -> dropWhile p (l1 ++ l2) = dropWhile p l2.
Proof.
  induction l1 as [|x l1 IH]; simpl; [reflexivity|].
  intros H. apply andb_true_iff in H as [Hx H]. rewrite Hx. exact (IH H).
Qed.

Lemma takeWhile_all {A} (p : A -> bool) (l : list A) :
  forallb p l = true -> takeWhile p l = l.
Proof.
  induction l as [|x l IH]; simpl; [reflexivity|].
  intros H. apply andb_true_iff in H as [Hx H]. rewrite Hx, (IH H). reflexivity.
Qed.

Lemma dropWhile_keeps {A} (p : A -> bool) (l : list A) (c : A) :
  In c l -> p c = false -> In c (dropWhile p l).
Proof.
  induction l as [|x l IH]; simpl; [tauto|].
  intros [-> | Hin] Hc.
  - rewrite Hc. left; reflexivity.
  - destruct (p x); [auto | right; exact Hin].
Qed.

Lemma trim_not_blank (line : jsstring) (c : jschar) :
  In c line -> isSpace c = false -> trim line <> [].
Proof.
  intros Hin Hc. unfold trim.
  assert (H : In c (rev (dropWhile isSpace (rev (dropWhile isSpace line))))).
  { rewrite <- in_rev. apply dropWhile_keeps; [|exact Hc].
    rewrite <- in_rev. apply dropWhile_keeps; assumption. }
  intros E. rewrite E in H. exact H.
Qed.

Lemma indent_spaces (d : nat) (p : jschar -> bool) :
  p SPACE = true -> forallb p (str_repeat (js "  ") d) = true.
Proof.
  intros Hp. induction d as [|d IH]; simpl; [reflexivity|].
  change (p SPACE && (p SPACE && forallb p (str_repeat (js "  ") d)) = true).
  rewrite Hp, IH. reflexivity.
Qed.

Lemma indent_replaceTabs (d : nat) :
  length (replaceTabs (str_repeat (js "  ") d)) = d * 2.
Proof.
  induction d as [|d IH]; simpl; [reflexivity|].
  change (S (S (length (replaceTabs (str_repeat (js "  ") d)))) = S (S (d * 2))).
  rewrite IH. reflexivity.
Qed.

Lemma render_no_LF (l : ParsedLine) :
  exportable (pl_text l) = true ->
  forallb (fun c => negb (c =? LF)%N) (render l) = true.
Proof.
  intros H. apply andb_true_iff in H as [H _].
  unfold render. rewrite !forallb_app. rewrite indent_spaces by reflexivity.
  simpl. rewrite forallb_forall in *. intros c Hc. specialize (H c Hc).
  apply negb_true_iff in H. apply negb_true_iff.
  unfold isLineTerminator in H. apply orb_false_iff in H as [H _].
  apply orb_false_iff in H as [H _]. apply orb_false_iff in H as [H _].
  exact H.
Qed.

Lemma render_not_blank (l : ParsedLine) :
  negb (str_eqb (trim (render l)) []) = true.
Proof.
  apply negb_true_iff, str_eqb_neq.
  apply (trim_not_blank _ 45%N); [|reflexivity].
  unfold render. apply in_or_app. right. left. reflexivity.
Qed.

Lemma parseLine_render (l : ParsedLine) :
  exportable (pl_text l) = true -> parseLine (render l) = l.
Proof.
  destruct l as [d s]. simpl. intros H. apply andb_true_iff in H as [Hlt Hstart].
  unfold parseLine, matchLine, render. simpl pl_depth. simpl pl_text.
  rewrite takeWhile_app_all, dropWhile_app_all by (apply indent_spaces; reflexivity).
  change (js "- " ++ s) with (45%N :: 32%N :: s).
  assert (Hdrop : dropWhile isSpace s = s).
  { destruct s as [|c s]; [reflexivity|].
    apply negb_true_iff in Hstart. simpl. rewrite Hstart. reflexivity. }
  assert (T1 : takeWhile isSpace (45%N :: 32%N :: s) = []) by reflexivity.
  assert (D1 : dropWhile isSpace (45%N :: 32%N :: s) = 45%N :: 32%N :: s)
    by reflexivity.
  assert (T2 : takeWhile isSpace (32%N :: s) = 32%N :: takeWhile isSpace s)
    by reflexivity.
  assert (D2 : dropWhile isSpace (32%N :: s) = dropWhile isSpace s)
    by reflexivity.
  rewrite T1, D1. cbv beta iota. change (isBullet 45%N) with true. cbv beta iota.
  rewrite T2, D2, Hdrop.
  rewrite app_nil_r, indent_replaceTabs, Nat.div_mul by lia.
  f_equal. apply takeWhile_all. exact Hlt.
Qed.

(** ** The parser's loop on the lines of a tree *)

Lemma relabel_unfold (uuid : nat -> jsstring) (n : nat) (t : MindMapNode) :
  relabel uuid n t =
  mkNode (uuid n) (text t) (relabel_forest uuid (S n) (children t)) None.
Proof.
  destruct t as [i tx cs e]; simpl. f_equal.
  generalize (S n). induction cs as [|c cs IH]; intros m; simpl; [reflexivity|].
  rewrite IH. reflexivity.
Qed.

Lemma size_unfold (t : MindMapNode) : size t = S (list_sum (map size (children t))).
Proof. destruct t; reflexivity. Qed.

Lemma shape_unfold (t : MindMapNode) :
  shape t = outline (text t) (map shape (children t)).
Proof. destruct t; reflexivity. Qed.

Lemma shape_relabel (uuid : nat -> jsstring) (t : MindMapNode) :
  forall n, shape (relabel uuid n t) = shape t.
Proof.
  induction t as [i tx cs e IH] using MindMapNode_forall_ind.
  intros n. rewrite relabel_unfold, !shape_unfold. simpl. f_equal.
  generalize (S n). induction IH as [|c cs Hc _ IHcs]; intros m; simpl;
    [reflexivity|].
  rewrite Hc, IHcs. reflexivity.
Qed.

Lemma texts_flatten (t : MindMapNode) :
  forall d, map pl_text (flatten t d) = texts t.
Proof.
  induction t as [i tx cs e IH] using MindMapNode_forall_ind.
  intros d. rewrite flatten_unfold, texts_unfold. simpl. f_equal.
  induction IH as [|c cs Hc _ IHcs]; simpl; [reflexivity|].
  rewrite map_app, Hc, IHcs. reflexivity.
Qed.

Lemma update_nth_id {A} (k : nat) (f : A -> A) (l : list A) :
  (forall x, nth_error l k = Some x -> f x = x) -> update_nth k f l = l.
Proof.
  revert k; induction l as [|x l IH]; intros [|k] H; simpl; auto.
  - rewrite (H x); reflexivity.
  - rewrite (IH k); auto.
Qed.

Lemma modify_id (t : MindMapNode) (a : ref) (f : MindMapNode -> MindMapNode) :
  (forall n, f n = n) -> modify t a f = t.
Proof.
  intros Hf. revert t; induction a as [|k a IH]; intros t; simpl; [apply Hf|].
  rewrite update_nth_id by (intros; apply IH). destruct t; reflexivity.
Qed.

Lemma popWhile_extra (d : Z) (extra : list StackEntry) (top : StackEntry)
    (below : list StackEntry) :
  Forall (fun e => (d <= depth e)%Z) extra -> (depth top < d)%Z ->
  popWhile d (extra ++ top :: below) = top :: below.
Proof.
  intros H Htop. induction H as [|e extra He _ IH]; simpl.
  - destruct (Z.geb_spec (depth top) d); [lia | reflexivity].
  - destruct (Z.geb_spec (depth e) d); [exact IH | lia].
Qed.

Section ParseLoopOnTree.

Variable uuid : nat -> jsstring.

Lemma parseLoop_step_attach (l : ParsedLine) (rest : list ParsedLine)
    (rootT : MindMapNode) (stack below : list StackEntry) (a : ref) (dp : Z)
    (n : nat) :
  popWhile (Z.of_nat (pl_depth l)) stack = mkStackEntry (Some a) dp :: below ->
  parseLoop uuid (l :: rest) rootT stack n =
  parseLoop uuid rest
    (modify rootT a (push_child (mkNode (uuid n) (pl_text l) [] None)))
    (mkStackEntry (Some (a ++ [length (children_at rootT a)]))
                  (Z.of_nat (pl_depth l))
     :: mkStackEntry (Some a) dp :: below)
    (S n).
Proof.
  intros H. simpl. unfold bind, uuidv4. rewrite H. reflexivity.
Qed.

(** Reading the lines of the subtree [t], at depth [d], below a parent
    that is on the stack with a depth under [d]: the relabelled [t] becomes
    the last child of the parent, and the parent is back on top of the
    stack for every later line not deeper than [d]. *)
Let attaches (t : MindMapNode) : Prop :=
  forall (d : nat) (rootT : MindMapNode) (extra : list StackEntry) (a : ref)
         (dp : Z) (below : list StackEntry) (after : list ParsedLine) (n : nat)
         (pnode : MindMapNode),
    Forall (fun e => (Z.of_nat d <= depth e)%Z) extra ->
    (dp < Z.of_nat d)%Z ->
    deref rootT a = Some pnode ->
    exists extra',
      Forall (fun e => (Z.of_nat d <= depth e)%Z) extra' /\
      parseLoop uuid (flatten t d ++ after) rootT
                (extra ++ mkStackEntry (Some a) dp :: below) n =
      parseLoop uuid after
                (modify rootT a (push_child (relabel uuid n t)))
                (extra' ++ mkStackEntry (Some a) dp :: below) (n + size t).

Lemma parseLoop_forest (cs : list MindMapNode) :
  Forall attaches cs ->
  forall (d : nat) (rootX : MindMapNode) (extra : list StackEntry) (a : ref)
         (dp : Z) (below : list StackEntry) (after : list ParsedLine) (m : nat)
         (pn : MindMapNode),
    Forall (fun e => (Z.of_nat d <= depth e)%Z) extra ->
    (dp < Z.of_nat d)%Z ->
    deref rootX a = Some pn ->
    exists extra',
      Forall (fun e => (Z.of_nat d <= depth e)%Z) extra' /\
      parseLoop uuid (flat_map (fun c => flatten c d) cs ++ after) rootX
                (extra ++ mkStackEntry (Some a) dp :: below) m =
      parseLoop uuid after
                (modify rootX a
                   (fun p => set_children p (children p ++ relabel_forest uuid m cs)))
                (extra' ++ mkStackEntry (Some a) dp :: below)
                (m + list_sum (map size cs)).
Proof.
  induction 1 as [|c cs Hc _ IH];
    intros d rootX extra a dp below after m pn Hextra Hdp Hpn.
  - exists extra. split; [exact Hextra|]. simpl.
    rewrite Nat.add_0_r, modify_id; [reflexivity|].
    intros p. rewrite app_nil_r. destruct p; reflexivity.
  - simpl flat_map. rewrite <- app_assoc.
    destruct (Hc d rootX extra a dp below
                 (flat_map (fun c0 => flatten c0 d) cs ++ after) m pn
                 Hextra Hdp Hpn) as (extra1 & Hextra1 & E1).
    destruct (IH d (modify rootX a (push_child (relabel uuid m c))) extra1 a dp
                 below after (m + size c)
                 (push_child (relabel uuid m c) pn) Hextra1 Hdp)
      as (extra2 & Hextra2 & E2).
    { rewrite deref_modify_same, Hpn. reflexivity. }
    exists extra2. split; [exact Hextra2|].
    rewrite E1, E2, modify_twice. simpl.
    replace (m + size c + list_sum (map size cs))
      with (m + (size c + list_sum (map size cs))) by lia.
    f_equal. apply modify_ext_at. intros p _.
    unfold push_child, set_children. simpl. rewrite <- app_assoc. reflexivity.
Qed.

Lemma parseLoop_subtree (t : MindMapNode) : attaches t.
Proof.
  induction t as [i tx cs e IH] using MindMapNode_forall_ind.
  intros d rootT extra a dp below after n pnode Hextra Hdp Hpnode.
  rewrite flatten_unfold. simpl text. simpl children.
  change ((mkParsedLine d tx :: flat_map (fun c => flatten c (S d)) cs) ++ after)
    with (mkParsedLine d tx :: (flat_map (fun c => flatten c (S d)) cs ++ after)).
  rewrite (parseLoop_step_attach _ _ _ _ below a dp)
    by (apply popWhile_extra; assumption).
  simpl pl_depth. simpl pl_text.
  set (leafNode := mkNode (uuid n) tx [] None).
  set (k := length (children_at rootT a)).
  assert (Hk : k = length (children pnode)).
  { unfold k, children_at. rewrite Hpnode. reflexivity. }
  assert (Hleaf : deref (modify rootT a (push_child leafNode)) (a ++ [k])
                  = Some leafNode).
  { rewrite deref_app, deref_modify_same, Hpnode. simpl.
    rewrite Hk, nth_error_app2, Nat.sub_diag by lia. reflexivity. }
  destruct (parseLoop_forest cs IH (S d)
              (modify rootT a (push_child leafNode)) [] (a ++ [k])
              (Z.of_nat d) (mkStackEntry (Some a) dp :: below) after (S n)
              leafNode (Forall_nil _) ltac:(lia) Hleaf)
    as (extra1 & Hextra1 & E1).
  simpl app in E1.
  exists (extra1 ++ [mkStackEntry (Some (a ++ [k])) (Z.of_nat d)]). split.
  - apply Forall_app. split.
    + eapply Forall_impl; [|exact Hextra1]. intros x Hx; simpl in *. lia.
    + constructor; [simpl; lia | constructor].
  - etransitivity; [exact E1|]. rewrite <- app_assoc. simpl app.
    replace (S n + list_sum (map size cs)) with (n + size (mkNode i tx cs e))
      by (rewrite size_unfold; simpl; lia).
    f_equal. rewrite modify_app, modify_twice.
    apply modify_ext_at. intros p Hp. rewrite Hpnode in Hp.
    injection Hp as <-.
    rewrite relabel_unfold. simpl text. simpl children.
    subst leafNode. cbn [modify]. unfold push_child, set_children.
    cbn [children id text isExpanded]. rewrite Hk, update_nth_at.
    reflexivity.
Qed.

End ParseLoopOnTree.

(** ** Round trip *)

Lemma filter_all {A} (f : A -> bool) (l : list A) :
  Forall (fun x => f x = true) l -> filter f l = l.
Proof.
  induction 1 as [|x l Hx _ IH]; simpl; [reflexivity|]. rewrite Hx, IH.
  reflexivity.
Qed.

Lemma flatten_exportable (t : MindMapNode) (d : nat) :
  forallb exportable (texts t) = true ->
  Forall (fun l => exportable (pl_text l) = true) (flatten t d).
Proof.
  intros H. rewrite <- (texts_flatten t d) in H.
  rewrite forallb_forall in H. apply Forall_forall. intros l Hl.
  apply H. apply in_map. exact Hl.
Qed.

(** The lines [parseMindMap] measures on the outline of [t] are the nodes
    of [t] with their depths. *)
Lemma survivingLines_exportMindMap (t : MindMapNode) :
  forallb exportable (texts t) = true ->
  filter (fun line => negb (str_eqb (trim line) [])) (split (exportMindMap t 0))
  = map render (flatten t 0)
  /\ map parseLine (map render (flatten t 0)) = flatten t 0.
Proof.
  intros H. pose proof (flatten_exportable t 0 H) as Hl. split.
  - rewrite exportMindMap_lines, split_join.
    + apply filter_all. apply Forall_forall. intros x Hx.
      apply in_map_iff in Hx as (l & <- & _). apply render_not_blank.
    + rewrite flatten_unfold. discriminate.
    + apply Forall_forall. intros x Hx.
      apply in_map_iff in Hx as (l & <- & Hin). apply render_no_LF.
      rewrite Forall_forall in Hl. auto.
  - rewrite map_map. rewrite <- (map_id (flatten t 0)) at 2.
    apply map_ext_Forall. eapply Forall_impl; [|exact Hl].
    intros l Hx. apply parseLine_render; exact Hx.
Qed.

Lemma parseMindMap_exportMindMap (uuid : nat -> jsstring) (t : MindMapNode) (n : nat) :
  forallb exportable (texts t) = true ->
  run (parseMindMap uuid (exportMindMap t 0)) n = relabel uuid n t.
Proof.
  intros H. destruct (survivingLines_exportMindMap t H) as [Hlines Hparsed].
  unfold parseMindMap. rewrite Hlines.
  assert (Hfirst : parseLine (render (mkParsedLine 0 (text t)))
                   = mkParsedLine 0 (text t)).
  { rewrite flatten_unfold in Hparsed. simpl in Hparsed. congruence. }
  assert (Hrest : map parseLine
                    (map render (flat_map (fun c => flatten c 1) (children t)))
                  = flat_map (fun c => flatten c 1) (children t)).
  { rewrite flatten_unfold in Hparsed. simpl in Hparsed. congruence. }
  rewrite flatten_unfold. cbn [map]. cbv beta iota zeta.
  rewrite Hfirst, Hrest. cbn [pl_depth pl_text Nat.eqb skipn].
  unfold run, bind, uuidv4, ret. cbn [fst snd strict_eq_object_string].
  destruct (parseLoop_forest uuid (children t)
              (proj2 (Forall_forall _ _) (fun c _ => parseLoop_subtree uuid c))
              1 (mkNode (uuid n) (text t) [] None) [] [] (-1)%Z [] [] (S n)
              (mkNode (uuid n) (text t) [] None)
              (Forall_nil _) ltac:(lia) eq_refl)
    as (extra & _ & E).
  rewrite app_nil_r in E. simpl app in E.
  etransitivity; [apply (f_equal fst); exact E|].
  rewrite relabel_unfold. reflexivity.
Qed.

(** C3, as the code has it: for every tree in which no text holds a line
    terminator (LF, CR, U+2028, U+2029) and no text starts with a
    whitespace character, parsing the exported outline gives a tree
    structurally equal to the tree: same shape, same texts, same order of
    children, the root of the tree being the root of the result. *)
Theorem export_parse_roundtrip (uuid : nat -> jsstring) (t : MindMapNode) (n : nat) :
  forallb exportable (texts t) = true ->
  shape (run (parseMindMap uuid (exportMindMap t 0)) n) = shape t.
Proof.
  intros H. rewrite parseMindMap_exportMindMap by exact H. apply shape_relabel.
Qed.

Lemma export_parse_roundtrip_witness :
  shape (run (parseMindMap sample_uuid (exportMindMap INITIAL_TREE 0)) 0)
  = shape INITIAL_TREE.
Proof.
  apply (export_parse_roundtrip sample_uuid INITIAL_TREE 0). reflexivity.
Defined.

(** C3 as stated fails: a single node whose text is a space followed by
    ["x"] has a non-empty text, and comes back with the text ["x"]. *)
Lemma export_parse_roundtrip_counterexample :
  Forall (fun s => s <> []) (texts (mkNode (js "r") (js " x") [] None)) /\
  shape (run (parseMindMap sample_uuid
                (exportMindMap (mkNode (js "r") (js " x") [] None) 0)) 0)
  <> shape (mkNode (js "r") (js " x") [] None).
Proof.
  split.
  - repeat constructor. discriminate.
  - vm_compute. discriminate.
Qed.

(** A text with a line feed does not come back either: its second line
    becomes a child. *)
Example export_parse_line_feed :
  shape (run (parseMindMap sample_uuid
                (exportMindMap (mkNode (js "r") (js "a" ++ [LF] ++ js "b") [] None) 0)) 0)
  = outline (js "a") [outline (js "b") []].
Proof. vm_compute. reflexivity. Qed.

(** The empty string is such an input. *)
Example parseMindMap_empty_string (uuid : nat -> jsstring) (n : nat) :
  run (parseMindMap uuid []) n = mkNode (uuid n) (js "Root") [] None.
Proof. reflexivity. Qed.

(** ** [insertParent] on a root with the children [A], [B] and [C] *)

Ltac insertParent_guards E1 E2 A :=
  cbv zeta; cbn [includes existsb id];
  rewrite E1, E2; cbn [orb];
  rewrite findNodePath_unfold; cbn [id children]; rewrite E1;
  cbn [findNodePath_each]; rewrite (findNodePath_unfold A), str_eqb_refl;
  cbn [app length Nat.ltb Nat.leb Nat.sub nth];
  unfold children_at; cbn [deref children filter existsb];
  rewrite !str_eqb_refl; cbn [orb];
  rewrite !orb_true_r; cbn [length Nat.eqb].

(** C1, what the hook does: on a root [R] with the children [A], [B] and
    [C] (the ids of [A] and [C] differ from the ids of [R] and of [B]),
    [insertParent(T, [A.id, C.id], "G")] returns [R] with the only child
    [B]: the moved children [A] and [C] are gone and the new node is not
    inserted.  (The positional contract asks for the root children
    [G, B] with [G.children = [A, C]].) *)
Theorem insertParent_hook_loses_targets (uuid : nat -> jsstring) (n : nat)
    (rid rtext : jsstring) (e : option bool) (A B C : MindMapNode) (G : jsstring) :
  id A <> rid -> id C <> rid -> id B <> id A -> id B <> id C ->
  run (insertParent uuid [id A; id C] G (mkNode rid rtext [A; B; C] e)) n =
  mkNode rid rtext [B] e.
Proof.
  intros HA HC HBA HBC.
  assert (E1 : str_eqb rid (id A) = false) by (apply str_eqb_neq; congruence).
  assert (E2 : str_eqb rid (id C) = false) by (apply str_eqb_neq; congruence).
  assert (E3 : str_eqb (id B) (id A) = false) by (apply str_eqb_neq; congruence).
  assert (E4 : str_eqb (id B) (id C) = false) by (apply str_eqb_neq; congruence).
  unfold insertParent, run. insertParent_guards E1 E2 A.
  unfold bind, uuidv4, ret.
  cbn [modify set_children children filter id text isExpanded].
  rewrite !set_has_from. cbn [includes existsb].
  rewrite !str_eqb_refl, E3, E4, ?orb_true_r. cbn [orb negb].
  cbn [regroup id]. rewrite set_has_from. cbn [includes existsb].
  rewrite E3, E4. cbn [orb app resolve map fst]. reflexivity.
Qed.

Lemma insertParent_hook_RABC :
  run (insertParent sample_uuid [js "A"; js "C"] (js "G") tree_RABC) 0 =
  mkNode (js "R") (js "R") [leaf "B"] (Some true).
Proof.
  apply (insertParent_hook_loses_targets sample_uuid 0 (js "R") (js "R")
           (Some true) (leaf "A") (leaf "B") (leaf "C") (js "G"));
    discriminate.
Defined.

(** The check script's [insertParent] meets the positional contract on
    the same trees: the new node takes the place of [A] and holds [A] and
    [C] in their order. *)
Lemma insertParent_script_positional (rid rtext : jsstring) (e : option bool)
    (A B C : MindMapNode) (G : jsstring) :
  id A <> rid -> id C <> rid -> id B <> id A -> id B <> id C ->
  insertParent_script [id A; id C] G (mkNode rid rtext [A; B; C] e) =
  mkNode rid rtext [mkNode (js "new-parent-uuid") G [A; C] (Some true); B] e.
Proof.
  intros HA HC HBA HBC.
  assert (E1 : str_eqb rid (id A) = false) by (apply str_eqb_neq; congruence).
  assert (E2 : str_eqb rid (id C) = false) by (apply str_eqb_neq; congruence).
  assert (E3 : str_eqb (id B) (id A) = false) by (apply str_eqb_neq; congruence).
  assert (E4 : str_eqb (id B) (id C) = false) by (apply str_eqb_neq; congruence).
  unfold insertParent_script. insertParent_guards E1 E2 A.
  cbn [regroup].
  rewrite !set_has_from. cbn [includes existsb].
  rewrite !str_eqb_refl, E3, E4, ?orb_true_r. cbn [orb negb app].
  cbn [modify set_children children id text isExpanded resolve map].
  reflexivity.
Qed.

Example insertParent_script_RABC :
  insertParent_script [js "A"; js "C"] (js "G") tree_RABC =
  mkNode (js "R") (js "R")
    [ mkNode (js "new-parent-uuid") (js "G") [leaf "A"; leaf "C"] (Some true);
      leaf "B" ] (Some true).
Proof. vm_compute. reflexivity. Qed.

(** The hook on the sample tree of its check script: ["Grandchild 1"] is
    lost and no parent is inserted, where the script prints the new parent
    with ["Grandchild 1"] below it. *)
Example insertParent_hook_sample (uuid : nat -> jsstring) (n : nat) :
  run (insertParent uuid [js "grandchild-1"] (js "New Parent") INITIAL_TREE) n =
  mkNode (js "root") (js "Central Topic")
    [ mkNode (js "child-1") (js "Child 1") [] None;
      mkNode (js "child-2") (js "Child 2") [] None ]
    (Some true).
Proof. vm_compute. reflexivity. Qed.

Example insertParent_script_sample :
  insertParent_script [js "grandchild-1"] (js "New Parent") INITIAL_TREE =
  mkNode (js "root") (js "Central Topic")
    [ mkNode (js "child-1") (js "Child 1")
        [ mkNode (js "new-parent-uuid") (js "New Parent")
            [ mkNode (js "grandchild-1") (js "Grandchild 1") [] None ]
            (Some true) ] None;
      mkNode (js "child-2") (js "Child 2") [] None ]
    (Some true).
Proof. vm_compute. reflexivity. Qed.

(* ================================================================== *)
(** * Part III: further properties of the code                         *)
(* ================================================================== *)

(** ** [updateNodeText] *)

(** X1: in a tree with unique ids, [updateNodeText] changes only the node
    that carries the id, and only its text; if no node carries the id it
    returns the tree as it was. *)
Theorem updateNodeText_renames (T : MindMapNode) (X newText : jsstring) :
  (forall (p : ref) (target : MindMapNode),
      NoDup (ids_of T) -> deref T p = Some target -> id target = X ->
      updateNodeText X newText T =
      modify T p (fun t => mkNode (id t) newText (children t) (isExpanded t)))
  /\ (~ In X (ids_of T) -> updateNodeText X newText T = T).
Proof.
  split.
  - intros p target Hnd Hp Hid. unfold updateNodeText.
    rewrite (findNodePath_found X T [] [] p target Hnd Hp Hid).
    cbn [app]. rewrite length_prefixes.
    replace (S (length p) - 1) with (length p) by lia.
    rewrite nth_prefixes_last. reflexivity.
  - intros Hnot. unfold updateNodeText.
    rewrite findNodePath_none by exact Hnot. reflexivity.
Qed.

Lemma updateNodeText_renames_witness :
  updateNodeText (js "child-2") (js "Renamed") INITIAL_TREE =
  mkNode (js "root") (js "Central Topic")
    [ mkNode (js "child-1") (js "Child 1")
        [ mkNode (js "grandchild-1") (js "Grandchild 1") [] None ] None;
      mkNode (js "child-2") (js "Renamed") [] None ]
    (Some true)
  /\ updateNodeText (js "nowhere") (js "Renamed") INITIAL_TREE = INITIAL_TREE.
Proof.
  split.
  - apply (proj1 (updateNodeText_renames INITIAL_TREE (js "child-2") (js "Renamed"))
             [1] (mkNode (js "child-2") (js "Child 2") [] None)).
    + vm_compute. repeat (constructor; [simpl; intuition discriminate|]).
      constructor.
    + reflexivity.
    + reflexivity.
  - apply (proj2 (updateNodeText_renames INITIAL_TREE (js "nowhere") (js "Renamed"))).
    vm_compute. intuition discriminate.
Defined.

(** ** [removeNodes] *)

Lemma removeRecursive_twice (idsSet : JsSet) (t : MindMapNode) :
  removeRecursive idsSet (removeRecursive idsSet t) = removeRecursive idsSet t.
Proof.
  induction t as [i tx cs e IH] using MindMapNode_forall_ind.
  rewrite (removeRecursive_unfold idsSet (mkNode i tx cs e)).
  rewrite removeRecursive_unfold. unfold set_children; simpl. f_equal.
  induction IH as [|c cs Hc _ IHcs]; simpl; [reflexivity|].
  destruct (set_has idsSet (id c)) eqn:E; simpl; [exact IHcs|].
  rewrite removeRecursive_id, E. simpl. rewrite Hc, IHcs. reflexivity.
Qed.

(** X2: [removeNodes] is idempotent: removing the same ids a second time
    changes nothing. *)
Theorem removeNodes_idempotent (ids : list jsstring) (t : MindMapNode) :
  removeNodes ids (removeNodes ids t) = removeNodes ids t.
Proof.
  unfold removeNodes.
  destruct (set_has (set_from ids) (id t)) eqn:E.
  - rewrite E. reflexivity.
  - rewrite removeRecursive_id, E. apply removeRecursive_twice.
Qed.

(** X3: when the root's id is not listed, no node of the result carries a
    listed id: every listed node is gone, wherever it was. *)
Theorem removeNodes_removes_listed (ids : list jsstring) (t : MindMapNode)
    (x : jsstring) :
  ~ In (id t) ids -> In x ids -> ~ In x (ids_of (removeNodes ids t)).
Proof.
  intros Hroot Hx. unfold removeNodes.
  replace (set_has (set_from ids) (id t)) with false
    by (symmetry; apply set_has_false; rewrite set_from_In; exact Hroot).
  rewrite ids_of_unfold, removeRecursive_id. intros [E | Hin].
  - subst x. exact (Hroot Hx).
  - revert Hin. apply removeRecursive_removes. apply set_from_In. exact Hx.
Qed.

Lemma removeNodes_removes_listed_witness :
  ~ In (js "child-1") (ids_of (removeNodes [js "child-1"] INITIAL_TREE)) /\
  ~ In (js "grandchild-1") (ids_of (removeNodes [js "child-1"] INITIAL_TREE)).
Proof.
  split.
  - apply (removeNodes_removes_listed [js "child-1"] INITIAL_TREE (js "child-1")).
    + simpl. intuition discriminate.
    + left; reflexivity.
  - vm_compute. intuition discriminate.
Defined.

Lemma removeRecursive_text (idsSet : JsSet) (n : MindMapNode) :
  text (removeRecursive idsSet n) = text n.
Proof. destruct n; reflexivity. Qed.

Lemma nth_error_map_filter {A B} (g : A -> B) (keep : A -> bool) (cs : list A)
    (k : nat) (c : A) :
  nth_error cs k = Some c -> keep c = true ->
  exists k', nth_error (map g (filter keep cs)) k' = Some (g c).
Proof.
  revert k; induction cs as [|x cs IH]; intros [|k] Hk Hc; simpl in *;
    try discriminate.
  - injection Hk as ->. rewrite Hc. exists 0. reflexivity.
  - destruct (IH k Hk Hc) as [k' Hk'].
    destruct (keep x); [exists (S k') | exists k']; exact Hk'.
Qed.

Lemma removeRecursive_keeps (idsSet : JsSet) (t : MindMapNode) (p : ref) :
  forall n,
    deref t p = Some n ->
    Forall (fun x => ~ In x idsSet) (tl (path_ids t p)) ->
    exists p', deref (removeRecursive idsSet t) p' = Some (removeRecursive idsSet n)
               /\ length p' = length p.
Proof.
  revert t; induction p as [|k p IH]; intros t n Hd Hpath; simpl in Hd.
  - injection Hd as <-. exists []. split; reflexivity.
  - destruct (nth_error (children t) k) as [c|] eqn:Ec; [|discriminate].
    destruct t as [i tx cs e]. simpl in Ec, Hpath. rewrite Ec in Hpath.
    assert (Hci : ~ In (id c) idsSet /\
                  Forall (fun x => ~ In x idsSet) (tl (path_ids c p))).
    { destruct p; simpl in Hpath; inversion Hpath; auto. }
    destruct Hci as [Hci Hrest].
    destruct (IH c n Hd Hrest) as (p' & Hp' & Hlen).
    destruct (nth_error_map_filter (removeRecursive idsSet)
                (fun child => negb (set_has idsSet (id child))) cs k c Ec)
      as [k' Hk'].
    { apply negb_true_iff, set_has_false. exact Hci. }
    exists (k' :: p'). split; [|simpl; congruence].
    rewrite removeRecursive_unfold. simpl. rewrite Hk'. exact Hp'.
Qed.

(** X4: [removeNodes] keeps every node that is outside the listed
    subtrees: a node none of whose ancestors, nor itself, carries a listed
    id is still in the result, at the same depth, with its id and text. *)
Theorem removeNodes_keeps_unlisted (ids : list jsstring) (t : MindMapNode)
    (p : ref) (n : MindMapNode) :
  deref t p = Some n ->
  Forall (fun x => ~ In x ids) (path_ids t p) ->
  exists p' n',
    deref (removeNodes ids t) p' = Some n' /\ length p' = length p /\
    id n' = id n /\ text n' = text n.
Proof.
  intros Hd Hpath. unfold removeNodes.
  assert (Hroot : ~ In (id t) ids).
  { destruct p; simpl in Hpath; inversion Hpath; assumption. }
  replace (set_has (set_from ids) (id t)) with false
    by (symmetry; apply set_has_false; rewrite set_from_In; exact Hroot).
  destruct (removeRecursive_keeps (set_from ids) t p n Hd) as (p' & Hp' & Hlen).
  { assert (H : Forall (fun x => ~ In x ids) (tl (path_ids t p))).
    { destruct p; simpl in *; inversion Hpath; assumption. }
    eapply Forall_impl; [|exact H]. intros x Hx. rewrite set_from_In. exact Hx. }
  exists p', (removeRecursive (set_from ids) n).
  rewrite removeRecursive_id, removeRecursive_text. auto.
Qed.

Lemma removeNodes_keeps_unlisted_witness :
  exists p' n',
    deref (removeNodes [js "child-1"] INITIAL_TREE) p' = Some n' /\
    length p' = 1 /\ id n' = js "child-2" /\ text n' = js "Child 2".
Proof.
  apply (removeNodes_keeps_unlisted [js "child-1"] INITIAL_TREE [1]
           (mkNode (js "child-2") (js "Child 2") [] None)).
  - reflexivity.
  - vm_compute. repeat (constructor; [simpl; intuition discriminate|]).
    constructor.
Defined.

Lemma removeRecursive_ids (idsSet : JsSet) (t : MindMapNode) :
  incl (ids_of (removeRecursive idsSet t)) (ids_of t) /\
  (NoDup (ids_of t) -> NoDup (ids_of (removeRecursive idsSet t))).
Proof.
  induction t as [i tx cs e IH] using MindMapNode_forall_ind.
  rewrite removeRecursive_unfold. simpl.
  assert (Hkids :
    incl (flat_map ids_of
            (map (removeRecursive idsSet)
                 (filter (fun child => negb (set_has idsSet (id child))) cs)))
         (flat_map ids_of cs) /\
    (NoDup (flat_map ids_of cs) ->
     NoDup (flat_map ids_of
              (map (removeRecursive idsSet)
                   (filter (fun child => negb (set_has idsSet (id child))) cs))))).
  { induction IH as [|c cs [Hincl Hnd] _ [IHincl IHnd]]; simpl.
    - split; [apply incl_refl | auto].
    - destruct (negb (set_has idsSet (id c))); simpl.
      + split.
        * apply incl_app; [apply incl_appl, Hincl | apply incl_appr, IHincl].
        * intros H. apply NoDup_app.
          -- apply Hnd. eapply NoDup_app_remove_r; eauto.
          -- apply IHnd. eapply NoDup_app_remove_l; eauto.
          -- intros a Ha Hb. apply (NoDup_app_disjoint _ _ a H); auto.
      + split.
        * apply incl_appr, IHincl.
        * intros H. apply IHnd. eapply NoDup_app_remove_l; eauto. }
  destruct Hkids as [Hincl Hnd]. split.
  - intros a [<- | Ha]; [left; reflexivity | right; apply Hincl, Ha].
  - intros H. inversion H as [|? ? Hroot Hrest]; subst. constructor.
    + intros Hin. apply Hroot, Hincl, Hin.
    + apply Hnd, Hrest.
Qed.

(** X5: [removeNodes] adds nothing: every id of the result is an id of
    the tree, and a tree with unique ids stays one. *)
Theorem removeNodes_keeps_unique (ids : list jsstring) (t : MindMapNode) :
  incl (ids_of (removeNodes ids t)) (ids_of t) /\
  (NoDup (ids_of t) -> NoDup (ids_of (removeNodes ids t))).
Proof.
  unfold removeNodes. destruct (set_has (set_from ids) (id t)).
  - split; [apply incl_refl | auto].
  - apply removeRecursive_ids.
Qed.

Lemma removeNodes_keeps_unique_witness :
  NoDup (ids_of (removeNodes [js "child-1"] INITIAL_TREE)).
Proof.
  apply (proj2 (removeNodes_keeps_unique [js "child-1"] INITIAL_TREE)).
  vm_compute. repeat (constructor; [simpl; intuition discriminate|]).
  constructor.
Defined.

(** ** [findNodePath] without the uniqueness of ids *)

Lemma findNodePath_each_sound (here : ref) (X : jsstring) (path : list ref)
    (cs : list MindMapNode) :
  Forall (fun c => forall h p r, findNodePath c h X p = Some r ->
            exists a n, r = p ++ prefixes h a /\ deref c a = Some n /\ id n = X) cs ->
  forall k0 r,
    findNodePath_each here X path cs k0 = Some r ->
    exists k c a n,
      nth_error cs k = Some c /\
      r = (path ++ [here]) ++ prefixes (here ++ [k0 + k]) a /\
      deref c a = Some n /\ id n = X.
Proof.
  induction 1 as [|c cs Hc _ IH]; intros k0 r Hr; simpl in Hr; [discriminate|].
  destruct (findNodePath c (here ++ [k0]) X (path ++ [here])) as [r0|] eqn:E.
  - injection Hr as <-. destruct (Hc _ _ _ E) as (a & n & Hr0 & Hd & Hid).
    exists 0, c, a, n. rewrite Nat.add_0_r. auto.
  - destruct (IH (S k0) r Hr) as (k & c' & a & n & Hk & Hr' & Hd & Hid).
    exists (S k), c', a, n. replace (k0 + S k) with (S k0 + k) by lia. auto.
Qed.

(** Whatever the ids, a path that [findNodePath] returns leads to a node
    that carries the id. *)
Lemma findNodePath_sound (X : jsstring) (t : MindMapNode) :
  forall here path r,
    findNodePath t here X path = Some r ->
    exists a n, r = path ++ prefixes here a /\ deref t a = Some n /\ id n = X.
Proof.
  induction t as [i tx cs e IH] using MindMapNode_forall_ind.
  intros here path r Hr. rewrite findNodePath_unfold in Hr. simpl in Hr.
  destruct (str_eqb i X) eqn:E.
  - injection Hr as <-. apply str_eqb_eq in E. exists [], (mkNode i tx cs e).
    auto.
  - destruct (findNodePath_each_sound here X path cs IH 0 r Hr)
      as (k & c & a & n & Hk & Hr' & Hd & Hid).
    exists (k :: a), n. simpl. rewrite Hk. rewrite <- app_assoc in Hr'. auto.
Qed.

Lemma findNodePath_each_complete (here : ref) (X : jsstring) (path : list ref)
    (cs : list MindMapNode) :
  Forall (fun c => forall h p, findNodePath c h X p = None -> ~ In X (ids_of c)) cs ->
  forall k0, findNodePath_each here X path cs k0 = None ->
             ~ In X (flat_map ids_of cs).
Proof.
  induction 1 as [|c cs Hc _ IH]; intros k0 Hr; simpl in *; [tauto|].
  destruct (findNodePath c (here ++ [k0]) X (path ++ [here])) eqn:E;
    [discriminate|].
  rewrite in_app_iff. intros [Hin | Hin].
  - exact (Hc _ _ E Hin).
  - exact (IH _ Hr Hin).
Qed.

(** [findNodePath] returns null only when no node carries the id. *)
Lemma findNodePath_complete (X : jsstring) (t : MindMapNode) :
  forall here path, findNodePath t here X path = None -> ~ In X (ids_of t).
Proof.
  induction t as [i tx cs e IH] using MindMapNode_forall_ind.
  intros here path Hr. rewrite findNodePath_unfold in Hr. simpl in *.
  destruct (str_eqb i X) eqn:E; [discriminate|].
  apply str_eqb_neq in E. intros [Hi | Hin]; [exact (E Hi)|].
  exact (findNodePath_each_complete here X path cs IH 0 Hr Hin).
Qed.

(** ** How the ids change under a mutation *)

Lemma ids_of_modify_insert (x : jsstring) (f : MindMapNode -> MindMapNode)
    (p : ref) :
  forall (t par : MindMapNode),
    deref t p = Some par ->
    Permutation (ids_of (f par)) (x :: ids_of par) ->
    Permutation (ids_of (modify t p f)) (x :: ids_of t).
Proof.
  induction p as [|k p IH]; intros t par Hd Hperm; simpl in Hd.
  - injection Hd as <-. exact Hperm.
  - destruct (nth_error (children t) k) as [c|] eqn:Ec; [|discriminate].
    destruct (nth_error_split _ _ Ec) as (pre & post & Hcs & Hlen).
    simpl. rewrite (ids_of_unfold t), Hcs, <- Hlen, update_nth_at.
    rewrite !flat_map_app. simpl.
    etransitivity; [|apply perm_swap]. apply perm_skip.
    etransitivity; [|apply Permutation_sym, Permutation_middle].
    etransitivity.
    + apply Permutation_app_head, Permutation_app_tail. exact (IH c par Hd Hperm).
    + simpl. reflexivity.
Qed.

Lemma ids_of_leaf_inserted (par leafNode : MindMapNode) (j : nat) :
  children leafNode = [] ->
  Permutation
    (ids_of (set_children par
               (firstn j (children par) ++ leafNode :: skipn j (children par))))
    (id leafNode :: ids_of par).
Proof.
  intros Hleaf. rewrite (ids_of_unfold par). simpl.
  rewrite flat_map_app. simpl. rewrite (ids_of_unfold leafNode), Hleaf. simpl.
  etransitivity; [|apply perm_swap]. apply perm_skip.
  rewrite <- (firstn_skipn j (children par)) at 3. rewrite flat_map_app.
  apply Permutation_sym, Permutation_middle.
Qed.

(** ** [addSibling] and [addChild], whatever the ids *)

(** X6: [addSibling] does nothing, and draws no identifier, when the
    reference is the root or is the id of no node. *)
Theorem addSibling_noop (uuid : nat -> jsstring) (X : jsstring) (T : MindMapNode)
    (n : nat) :
  X = id T \/ ~ In X (ids_of T) -> addSibling uuid X T n = (T, n).
Proof.
  intros [-> | Hnot]; unfold addSibling.
  - rewrite str_eqb_refl. reflexivity.
  - destruct (str_eqb X (id T)); [reflexivity|].
    rewrite findNodePath_none by exact Hnot. reflexivity.
Qed.

Lemma addSibling_noop_witness :
  addSibling sample_uuid (js "root") INITIAL_TREE 0 = (INITIAL_TREE, 0) /\
  addSibling sample_uuid (js "nowhere") INITIAL_TREE 0 = (INITIAL_TREE, 0).
Proof.
  split.
  - apply (addSibling_noop sample_uuid (js "root") INITIAL_TREE 0).
    left; reflexivity.
  - apply (addSibling_noop sample_uuid (js "nowhere") INITIAL_TREE 0).
    right. vm_compute. intuition discriminate.
Defined.

(** X7: for the id of a node other than the root, [addSibling] draws one
    identifier and adds exactly one node, which carries it: the ids of the
    result are the ids of the tree and the new one.  So a tree with unique
    ids stays one when the identifier is fresh. *)
Theorem addSibling_adds_one (uuid : nat -> jsstring) (X : jsstring)
    (T : MindMapNode) (n : nat) :
  X <> id T -> In X (ids_of T) ->
  snd (addSibling uuid X T n) = S n /\
  Permutation (ids_of (fst (addSibling uuid X T n))) (uuid n :: ids_of T) /\
  (NoDup (ids_of T) -> ~ In (uuid n) (ids_of T) ->
   NoDup (ids_of (fst (addSibling uuid X T n)))).
Proof.
  intros Hroot Hin.
  assert (Hperm : snd (addSibling uuid X T n) = S n /\
                  Permutation (ids_of (fst (addSibling uuid X T n)))
                              (uuid n :: ids_of T)).
  { unfold addSibling.
    replace (str_eqb X (id T)) with false by (symmetry; apply str_eqb_neq; exact Hroot).
    destruct (findNodePath T [] X []) as [r|] eqn:Er.
    2:{ exfalso. exact (findNodePath_complete X T [] [] Er Hin). }
    destruct (findNodePath_sound X T [] [] r Er) as (a & node & -> & Hd & Hid).
    cbn [app].
    destruct a as [|k0 a0] using rev_ind.
    { simpl in Hd. injection Hd as <-. congruence. }
    clear IHa0. rename a0 into p.
    rewrite length_prefixes, length_app. cbn [length].
    replace (2 <=? S (length p + 1)) with true by (symmetry; apply Nat.leb_le; lia).
    replace (S (length p + 1) - 2) with (length p) by lia.
    rewrite nth_prefixes_parent. cbn [app].
    rewrite deref_app in Hd. destruct (deref T p) as [par|] eqn:Hp; [|discriminate].
    unfold bind, uuidv4, ret. cbn [fst snd]. split; [reflexivity|].
    apply (ids_of_modify_insert (uuid n) _ p T par Hp).
    unfold splice_insert.
    apply (ids_of_leaf_inserted par (mkNode (uuid n) (js "New Node") [] None)).
    reflexivity. }
  destruct Hperm as [Hsnd Hperm]. repeat split; auto.
  intros Hnd Hfresh. eapply Permutation_NoDup; [apply Permutation_sym, Hperm|].
  constructor; assumption.
Qed.

Lemma addSibling_adds_one_witness :
  NoDup (ids_of (fst (addSibling sample_uuid (js "grandchild-1") INITIAL_TREE 0))).
Proof.
  apply (proj2 (proj2 (addSibling_adds_one sample_uuid (js "grandchild-1")
                         INITIAL_TREE 0 ltac:(discriminate)
                         ltac:(vm_compute; intuition)))).
  - vm_compute. repeat (constructor; [simpl; intuition discriminate|]).
    constructor.
  - vm_compute. intuition discriminate.
Defined.

(** X8: for the id of a node, [addChild] draws one identifier and adds
    exactly one node, which carries it; a tree with unique ids stays one
    when the identifier is fresh. *)
Theorem addChild_adds_one (uuid : nat -> jsstring) (X : jsstring)
    (T : MindMapNode) (n : nat) :
  In X (ids_of T) ->
  snd (addChild uuid X T n) = S n /\
  Permutation (ids_of (fst (addChild uuid X T n))) (uuid n :: ids_of T) /\
  (NoDup (ids_of T) -> ~ In (uuid n) (ids_of T) ->
   NoDup (ids_of (fst (addChild uuid X T n)))).
Proof.
  intros Hin.
  assert (Hperm : snd (addChild uuid X T n) = S n /\
                  Permutation (ids_of (fst (addChild uuid X T n)))
                              (uuid n :: ids_of T)).
  { unfold addChild.
    destruct (findNodePath T [] X []) as [r|] eqn:Er.
    2:{ exfalso. exact (findNodePath_complete X T [] [] Er Hin). }
    destruct (findNodePath_sound X T [] [] r Er) as (a & node & -> & Hd & Hid).
    cbn [app]. rewrite length_prefixes.
    replace (S (length a) - 1) with (length a) by lia.
    rewrite nth_prefixes_last. cbn [app].
    unfold bind, uuidv4, ret. cbn [fst snd]. split; [reflexivity|].
    apply (ids_of_modify_insert (uuid n) _ a T node Hd).
    pose proof (ids_of_leaf_inserted node (mkNode (uuid n) (js "New Child") [] None)
                  (length (children node)) eq_refl) as H.
    rewrite firstn_all, skipn_all in H. exact H. }
  destruct Hperm as [Hsnd Hperm]. repeat split; auto.
  intros Hnd Hfresh. eapply Permutation_NoDup; [apply Permutation_sym, Hperm|].
  constructor; assumption.
Qed.

Lemma addChild_adds_one_witness :
  NoDup (ids_of (fst (addChild sample_uuid (js "root") INITIAL_TREE 0))).
Proof.
  apply (proj2 (proj2 (addChild_adds_one sample_uuid (js "root")
                         INITIAL_TREE 0 ltac:(vm_compute; intuition)))).
  - vm_compute. repeat (constructor; [simpl; intuition discriminate|]).
    constructor.
  - vm_compute. intuition discriminate.
Defined.

(** ** [insertParent], on every tree *)

(** X9: [insertParent] of the hook returns the tree as it was, and draws
    no identifier, when the root's id is among the targets, when there is
    no target, and when the first target is the id of no node. *)
Theorem insertParent_noop (uuid : nat -> jsstring) (targetIds : list jsstring)
    (newText : jsstring) (T : MindMapNode) (n : nat) :
  In (id T) targetIds \/
  (forall first, hd_error targetIds = Some first -> ~ In first (ids_of T)) ->
  insertParent uuid targetIds newText T n = (T, n).
Proof.
  intros H. unfold insertParent.
  destruct (includes targetIds (id T)) eqn:Einc; [reflexivity|].
  destruct H as [Hin | Hfirst].
  - exfalso. apply (set_has_false targetIds (id T)) in Einc. exact (Einc Hin).
  - destruct targetIds as [|first rest]; [reflexivity|].
    rewrite findNodePath_none by (apply Hfirst; reflexivity). reflexivity.
Qed.

Lemma insertParent_noop_witness :
  insertParent sample_uuid [js "child-1"; js "root"] (js "G") INITIAL_TREE 0
  = (INITIAL_TREE, 0)
  /\ insertParent sample_uuid [js "nowhere"; js "child-1"] (js "G") INITIAL_TREE 0
     = (INITIAL_TREE, 0).
Proof.
  split.
  - apply (insertParent_noop sample_uuid [js "child-1"; js "root"] (js "G")
             INITIAL_TREE 0).
    left. right. left. reflexivity.
  - apply (insertParent_noop sample_uuid [js "nowhere"; js "child-1"] (js "G")
             INITIAL_TREE 0).
    right. intros first Hf. injection Hf as <-. vm_compute. intuition discriminate.
Defined.

Lemma regroup_inserted (targets : JsSet) (l : list MindMapNode) :
  forall acc pc,
    regroup targets l acc pc true =
    (acc ++ map Existing (filter (fun c => negb (set_has targets (id c))) l),
     pc ++ filter (fun c => set_has targets (id c)) l, true).
Proof.
  induction l as [|c l IH]; intros acc pc; simpl.
  - rewrite !app_nil_r. reflexivity.
  - destruct (set_has targets (id c)); simpl; rewrite IH, <- !app_assoc;
      reflexivity.
Qed.

(** The walk of [insertParent]: the children before the first target stay
    in place, the new parent takes the place of the first target, the
    other children that are no targets follow, and the targets are
    collected in their order.  Without a target nothing is inserted. *)
Lemma regroup_walk (targets : JsSet) (l : list MindMapNode) :
  forall acc pc,
    regroup targets l acc pc false =
    if existsb (fun c => set_has targets (id c)) l
    then (acc ++ map Existing (takeWhile (fun c => negb (set_has targets (id c))) l)
              ++ NewParentRef
              :: map Existing
                   (filter (fun c => negb (set_has targets (id c)))
                           (dropWhile (fun c => negb (set_has targets (id c))) l)),
          pc ++ filter (fun c => set_has targets (id c)) l, true)
    else (acc ++ map Existing l, pc, false).
Proof.
  induction l as [|c l IH]; intros acc pc; simpl.
  - rewrite app_nil_r. reflexivity.
  - destruct (set_has targets (id c)) eqn:E; simpl.
    + rewrite regroup_inserted, E, <- !app_assoc. simpl. reflexivity.
    + rewrite IH. destruct (existsb (fun c0 => set_has targets (id c0)) l);
        rewrite <- !app_assoc; reflexivity.
Qed.

Lemma existsb_filter_none {A} (p : A -> bool) (l : list A) :
  existsb p (filter (fun c => negb (p c)) l) = false.
Proof.
  induction l as [|x l IH]; simpl; [reflexivity|].
  destruct (p x) eqn:E; simpl; [exact IH|]. rewrite E. exact IH.
Qed.

Section InsertParentOnTrees.

Variable uuid : nat -> jsstring.
Variables (T : MindMapNode) (targetIds : list jsstring) (newText : jsstring).
Variables (first : jsstring) (rest : list jsstring).
Variables (p : ref) (par x : MindMapNode) (i : nat).

Hypothesis unique_ids : NoDup (ids_of T).
Hypothesis root_not_target : ~ In (id T) targetIds.
Hypothesis first_target : targetIds = first :: rest.
Hypothesis parent_at : deref T p = Some par.
Hypothesis child_at : nth_error (children par) i = Some x.
Hypothesis child_id : id x = first.

Lemma insertParent_common_parent :
  includes targetIds (id T) = false /\
  findNodePath T [] first [] = Some (prefixes [] (p ++ [i])) /\
  (length (prefixes [] (p ++ [i])) <? 2) = false /\
  nth (length (prefixes [] (p ++ [i])) - 2) (prefixes [] (p ++ [i])) [] = p /\
  children_at T p = children par /\
  (length (filter (fun t => existsb (fun c => str_eqb (id c) t) (children par))
                  targetIds) =? 0) = false.
Proof.
  assert (Hx : deref T (p ++ [i]) = Some x).
  { rewrite deref_app, parent_at. simpl. rewrite child_at. reflexivity. }
  repeat split.
  - apply (set_has_false targetIds (id T)). exact root_not_target.
  - exact (findNodePath_found first T [] [] (p ++ [i]) x unique_ids Hx child_id).
  - rewrite length_prefixes, length_app. simpl. apply Nat.ltb_ge. lia.
  - rewrite length_prefixes, length_app. cbn [length].
    replace (S (length p + 1) - 2) with (length p) by lia.
    apply (nth_prefixes_parent [] p [] i).
  - unfold children_at. rewrite parent_at. reflexivity.
  - rewrite first_target. simpl.
    replace (existsb (fun c => str_eqb (id c) first) (children par)) with true;
      [reflexivity|].
    symmetry. apply existsb_exists. exists x. split.
    + eapply nth_error_In; eauto.
    + rewrite child_id. apply str_eqb_refl.
Qed.

(** X10: what the hook's [insertParent] does on a tree with unique ids,
    when the first target is a child of the node at [p] and the root is no
    target: it draws one identifier and returns the tree in which the
    children of that node that are targets were removed.  The node it
    creates is not in the result. *)
Theorem insertParent_hook_removes_targets (n : nat) :
  insertParent uuid targetIds newText T n =
  (modify T p
     (fun q => set_children q
                 (filter (fun c => negb (includes targetIds (id c))) (children q))),
   S n).
Proof.
  destruct insertParent_common_parent as (Hinc & Hpath & Hlen & Hnth & Hkids & Hvalid).
  unfold insertParent. rewrite Hinc, first_target.
  rewrite Hpath, Hlen, Hnth. rewrite <- first_target.
  rewrite Hkids, Hvalid.
  unfold bind, uuidv4, ret. rewrite children_at_modify, parent_at.
  cbn [children set_children].
  rewrite regroup_walk, existsb_filter_none. cbn [app].
  rewrite modify_twice. f_equal. apply modify_ext_at.
  intros q Hq. rewrite parent_at in Hq. injection Hq as <-.
  unfold set_children, resolve. cbn [id text isExpanded children].
  rewrite map_map, map_id. f_equal.
  apply filter_ext. intros c. rewrite set_has_from. reflexivity.
Qed.

(** X11: what the check script's [insertParent] does in the same
    situation: in the children of the node at [p], the children before
    the first target stay, the new node (text [newText], expanded) takes
    the place of the first target and holds all the targets in their
    order, and the remaining children that are no targets follow in their
    order. *)
Theorem insertParent_script_positions :
  insertParent_script targetIds newText T =
  modify T p
    (fun q =>
       set_children q
         (takeWhile (fun c => negb (includes targetIds (id c))) (children q)
          ++ mkNode (js "new-parent-uuid") newText
               (filter (fun c => includes targetIds (id c)) (children q))
               (Some true)
          :: filter (fun c => negb (includes targetIds (id c)))
               (dropWhile (fun c => negb (includes targetIds (id c))) (children q)))).
Proof.
  destruct insertParent_common_parent as (Hinc & Hpath & Hlen & Hnth & Hkids & Hvalid).
  unfold insertParent_script. rewrite Hinc, first_target.
  rewrite Hpath, Hlen, Hnth. rewrite <- first_target.
  rewrite Hkids, Hvalid.
  rewrite regroup_walk.
  replace (existsb (fun c => set_has (set_from targetIds) (id c)) (children par))
    with true.
  2:{ symmetry. apply existsb_exists. exists x. split.
      - eapply nth_error_In; eauto.
      - rewrite set_has_from. apply (set_has_In targetIds).
        rewrite child_id, first_target. left; reflexivity. }
  cbn [app]. apply modify_ext_at.
  intros q Hq. rewrite parent_at in Hq. injection Hq as <-.
  unfold resolve. rewrite map_app. cbn [map]. rewrite !map_map, !map_id.
  assert (Hnt : forall c, negb (set_has (set_from targetIds) (id c))
                          = negb (includes targetIds (id c)))
    by (intros c; rewrite set_has_from; reflexivity).
  assert (Ht : forall c, set_has (set_from targetIds) (id c)
                         = includes targetIds (id c))
    by (intros c; apply set_has_from).
  f_equal. f_equal.
  - clear - Hnt. induction (children par) as [|c l IH]; simpl; [reflexivity|].
    rewrite Hnt. destruct (negb (includes targetIds (id c))); [|reflexivity].
    rewrite IH. reflexivity.
  - f_equal.
    + f_equal. apply filter_ext. exact Ht.
    + rewrite (filter_ext _ _ Hnt). f_equal.
      clear - Hnt. induction (children par) as [|c l IH]; simpl; [reflexivity|].
      rewrite Hnt. destruct (negb (includes targetIds (id c))); [|reflexivity].
      exact IH.
Qed.

End InsertParentOnTrees.

Lemma insertParent_hook_removes_targets_witness :
  insertParent sample_uuid [js "grandchild-1"] (js "New Parent") INITIAL_TREE 0 =
  (mkNode (js "root") (js "Central Topic")
     [ mkNode (js "child-1") (js "Child 1") [] None;
       mkNode (js "child-2") (js "Child 2") [] None ]
     (Some true), 1).
Proof.
  apply (insertParent_hook_removes_targets sample_uuid INITIAL_TREE
           [js "grandchild-1"] (js "New Parent") (js "grandchild-1") [] [0]
           (mkNode (js "child-1") (js "Child 1")
              [ mkNode (js "grandchild-1") (js "Grandchild 1") [] None ] None)
           (mkNode (js "grandchild-1") (js "Grandchild 1") [] None) 0).
  - vm_compute. repeat (constructor; [simpl; intuition discriminate|]).
    constructor.
  - vm_compute. intuition discriminate.
  - reflexivity.
  - reflexivity.
  - reflexivity.
  - reflexivity.
Defined.

Lemma insertParent_script_positions_witness :
  insertParent_script [js "child-2"] (js "G") INITIAL_TREE =
  mkNode (js "root") (js "Central Topic")
    [ mkNode (js "child-1") (js "Child 1")
        [ mkNode (js "grandchild-1") (js "Grandchild 1") [] None ] None;
      mkNode (js "new-parent-uuid") (js "G")
        [ mkNode (js "child-2") (js "Child 2") [] None ] (Some true) ]
    (Some true).
Proof.
  apply (insertParent_script_positions INITIAL_TREE
           [js "child-2"] (js "G") (js "child-2") [] []
           INITIAL_TREE (mkNode (js "child-2") (js "Child 2") [] None) 1).
  - vm_compute. repeat (constructor; [simpl; intuition discriminate|]).
    constructor.
  - vm_compute. intuition discriminate.
  - reflexivity.
  - reflexivity.
  - reflexivity.
  - reflexivity.
Defined.

(** ** The visible order *)

(** X12: when no node is collapsed, the visible order lists every node of
    the tree, in depth-first pre-order; and a collapsed node hides all the
    nodes below it. *)
Theorem getVisibleNodes_all_expanded (t : MindMapNode) :
  (all_expanded t = true -> map id (getVisibleNodes t []) = ids_of t) /\
  (isExpanded t = Some false -> getVisibleNodes t [] = [t]).
Proof.
  split.
  - rewrite getVisibleNodes_visibleOrder. cbn [app].
    induction t as [i tx cs e IH] using MindMapNode_forall_ind.
    intros H. simpl in *.
    assert (Hall : forallb all_expanded cs = true)
      by (destruct e as [[|]|]; [exact H | discriminate | exact H]).
    assert (Hkids : map id (flat_map visibleOrder cs) = flat_map ids_of cs).
    { clear H. induction IH as [|c cs Hc _ IHcs]; simpl; [reflexivity|].
      simpl in Hall. apply andb_true_iff in Hall as [H1 H2].
      rewrite map_app, (Hc H1), (IHcs H2). reflexivity. }
    destruct e as [[|]|]; try discriminate; rewrite Hkids; reflexivity.
  - intros H. rewrite getVisibleNodes_visibleOrder. destruct t as [i tx cs e].
    simpl in *. rewrite H. reflexivity.
Qed.

Lemma getVisibleNodes_all_expanded_witness :
  map id (getVisibleNodes INITIAL_TREE []) =
  [js "root"; js "child-1"; js "grandchild-1"; js "child-2"].
Proof.
  apply (proj1 (getVisibleNodes_all_expanded INITIAL_TREE)). reflexivity.
Defined.

(** ** Arrow keys *)

Lemma id_at_nth (visible : list MindMapNode) (i : nat) (d : jsstring) :
  id_at visible i d = nth i (map id visible) d.
Proof.
  unfold id_at. revert i; induction visible as [|v vs IH]; intros [|i]; simpl;
    auto.
Qed.

Lemma findIndex_index_of (visible : list MindMapNode) (x : jsstring) (k : nat) :
  index_of (map id visible) x k ->
  findIndex (fun m => str_eqb (id m) x) visible = Z.of_nat k.
Proof.
  intros [Hk Hbefore]. rewrite nth_error_map in Hk.
  destruct (nth_error visible k) as [v|] eqn:Ev; [|discriminate].
  injection Hk as Hid. unfold findIndex.
  rewrite (findIndex_from_first _ visible 0%Z k v Ev).
  - lia.
  - apply str_eqb_eq. exact Hid.
  - intros j y Hj Hy. apply str_eqb_neq. intros E.
    apply (Hbefore j Hj). rewrite nth_error_map, Hy. simpl. congruence.
Qed.

Lemma findIndex_not_found (visible : list MindMapNode) (x : jsstring) :
  ~ In x (map id visible) ->
  findIndex (fun m => str_eqb (id m) x) visible = (-1)%Z.
Proof.
  intros Hnot. unfold findIndex.
  destruct (findIndex_from_spec (fun m => str_eqb (id m) x) visible 0)
    as [[E _] | (k & v & _ & Hk & Hv & _)]; [exact E|].
  exfalso. apply Hnot. apply in_map_iff. exists v. split.
  - apply str_eqb_eq. exact Hv.
  - eapply nth_error_In; eauto.
Qed.

(** X13: ArrowDown and ArrowUp.  If the node that has the key focus is not
    in the visible order, nothing changes.  Otherwise the target is the
    next (ArrowDown) or the previous (ArrowUp) id of the visible order,
    and the node itself at the end of the order; without Shift the
    selection becomes the target alone, with Shift the target is added to
    the selection; the focus goes to the target, and the tree is left as
    it is. *)
Theorem handleKeyDown_arrow (uuid : nat -> jsstring) (e : KeyboardEvent)
    (nodeId : jsstring) (st : ViewState) (n : nat) (down : bool) :
  key e = (if down then js "ArrowDown" else js "ArrowUp") ->
  (~ In nodeId (map id (getVisibleNodes (root st) [])) ->
   handleKeyDown uuid e nodeId st n = (st, n))
  /\
  (forall k,
      index_of (map id (getVisibleNodes (root st) [])) nodeId k ->
      handleKeyDown uuid e nodeId st n =
      (let v := map id (getVisibleNodes (root st) []) in
       let nextId :=
         if down then nth (S k) v nodeId
         else if k =? 0 then nodeId else nth (k - 1) v nodeId in
       (mkViewState (root st)
          (if shiftKey e then set_add (selectedIds st) nextId else [nextId])
          nextId, n))).
Proof.
  intros Hkey. split.
  - intros Hnot. unfold handleKeyDown.
    replace (str_eqb (key e) (js "ArrowDown") || str_eqb (key e) (js "ArrowUp"))
      with true by (rewrite Hkey; destruct down; reflexivity).
    rewrite findIndex_not_found by exact Hnot. destruct st; reflexivity.
  - intros k Hk. pose proof (findIndex_index_of _ _ _ Hk) as Hidx.
    assert (Hlt : k < length (getVisibleNodes (root st) [])).
    { destruct Hk as [Hk _]. rewrite <- (length_map id).
      apply nth_error_Some. congruence. }
    unfold handleKeyDown.
    replace (str_eqb (key e) (js "ArrowDown") || str_eqb (key e) (js "ArrowUp"))
      with true by (rewrite Hkey; destruct down; reflexivity).
    rewrite Hidx.
    replace (Z.of_nat k =? -1)%Z with false by (symmetry; apply Z.eqb_neq; lia).
    cbv zeta. rewrite !id_at_nth.
    replace (Z.to_nat (Z.of_nat k + 1)) with (S k) by lia.
    replace (Z.to_nat (Z.of_nat k - 1)) with (k - 1) by lia.
    destruct down; rewrite Hkey.
    + replace (str_eqb (js "ArrowDown") (js "ArrowDown")) with true by reflexivity.
      replace (str_eqb (js "ArrowDown") (js "ArrowUp")) with false by reflexivity.
      cbn [andb].
      destruct (Z.ltb_spec (Z.of_nat k)
                  (Z.of_nat (length (getVisibleNodes (root st) [])) - 1)).
      * destruct (shiftKey e); reflexivity.
      * rewrite (nth_overflow (map id (getVisibleNodes (root st) [])))
          by (rewrite length_map; lia).
        destruct (shiftKey e); reflexivity.
    + replace (str_eqb (js "ArrowUp") (js "ArrowDown")) with false by reflexivity.
      replace (str_eqb (js "ArrowUp") (js "ArrowUp")) with true by reflexivity.
      cbn [andb].
      destruct k as [|k].
      * replace (Z.of_nat 0 >? 0)%Z with false by reflexivity.
        destruct (shiftKey e); reflexivity.
      * replace (Z.of_nat (S k) >? 0)%Z with true
          by (symmetry; rewrite Z.gtb_ltb; apply Z.ltb_lt; lia).
        cbn [Nat.eqb]. destruct (shiftKey e); reflexivity.
Qed.

Lemma handleKeyDown_arrow_witness :
  handleKeyDown sample_uuid
    (mkKeyboardEvent (js "ArrowDown") false false false false) (js "child-1")
    (mkViewState INITIAL_TREE [js "child-1"] (js "child-1")) 0 =
  (mkViewState INITIAL_TREE [js "grandchild-1"] (js "grandchild-1"), 0).
Proof.
  apply (proj2 (handleKeyDown_arrow sample_uuid
                  (mkKeyboardEvent (js "ArrowDown") false false false false)
                  (js "child-1")
                  (mkViewState INITIAL_TREE [js "child-1"] (js "child-1")) 0
                  true eq_refl) 1).
  split; [reflexivity|]. intros j Hj. destruct j as [|j]; [|lia].
  vm_compute. discriminate.
Defined.

(** ** The selection state *)

Lemma set_delete_In (s : JsSet) (x y : jsstring) :
  In y (set_delete s x) <-> In y s /\ y <> x.
Proof.
  unfold set_delete. rewrite filter_In, negb_true_iff, str_eqb_neq.
  split; intros [H1 H2]; split; auto.
Qed.

(** X14: [handleKeyDown] keeps the focus inside the selection: if
    [lastFocusedId] is selected before a key event, it is selected after
    it, whatever the key and the modifiers. *)
Theorem handleKeyDown_focus_selected (uuid : nat -> jsstring) (e : KeyboardEvent)
    (nodeId : jsstring) (st : ViewState) (n : nat) :
  In (lastFocusedId st) (selectedIds st) ->
  In (lastFocusedId (fst (handleKeyDown uuid e nodeId st n)))
     (selectedIds (fst (handleKeyDown uuid e nodeId st n))).
Proof.
  intros H. unfold handleKeyDown, bind, ret.
  repeat match goal with
         | |- context [if ?c then _ else _] => destruct c
         | |- context [let (_, _) := ?m in _] => destruct m
         | |- context [match ?m with Some _ => _ | None => _ end] => destruct m
         end;
    cbn [fst lastFocusedId selectedIds set_from fold_left];
    try exact H;
    try (apply set_add_In; right; reflexivity).
Qed.

Lemma handleKeyDown_focus_selected_witness :
  In (lastFocusedId
        (fst (handleKeyDown sample_uuid
                (mkKeyboardEvent (js "ArrowUp") true false false false)
                (js "child-2")
                (mkViewState INITIAL_TREE [js "child-2"] (js "child-2")) 0)))
     (selectedIds
        (fst (handleKeyDown sample_uuid
                (mkKeyboardEvent (js "ArrowUp") true false false false)
                (js "child-2")
                (mkViewState INITIAL_TREE [js "child-2"] (js "child-2")) 0))).
Proof.
  apply (handleKeyDown_focus_selected sample_uuid
           (mkKeyboardEvent (js "ArrowUp") true false false false) (js "child-2")
           (mkViewState INITIAL_TREE [js "child-2"] (js "child-2")) 0).
  left; reflexivity.
Defined.

(** X15: Backspace and Delete remove nothing, and leave the selection and
    the focus as they are, when neither Ctrl nor Cmd is held, when nothing
    is selected, and when the root is among the selected ids. *)
Theorem handleKeyDown_delete_ignored (uuid : nat -> jsstring) (e : KeyboardEvent)
    (nodeId : jsstring) (st : ViewState) (n : nat) :
  key e = js "Backspace" \/ key e = js "Delete" ->
  (ctrlKey e = false /\ metaKey e = false) \/
  selectedIds st = [] \/
  In (id (root st)) (selectedIds st) ->
  handleKeyDown uuid e nodeId st n = (st, n).
Proof.
  intros Hkey Hcase. unfold handleKeyDown.
  assert (Hdel : (str_eqb (key e) (js "Backspace")
                  || str_eqb (key e) (js "Delete")) = true)
    by (destruct Hkey as [-> | ->]; reflexivity).
  assert (Hother : str_eqb (key e) (js "ArrowDown") = false
                   /\ str_eqb (key e) (js "ArrowUp") = false
                   /\ str_eqb (key e) (js "Enter") = false
                   /\ str_eqb (key e) (js "Tab") = false
                   /\ str_eqb (key e) (js "p") = false
                   /\ str_eqb (key e) (js "P") = false)
    by (destruct Hkey as [-> | ->]; repeat split; reflexivity).
  destruct Hother as (-> & -> & -> & -> & -> & ->). rewrite Hdel.
  cbn [orb andb]. rewrite andb_false_r.
  destruct Hcase as [[-> ->] | [Hempty | Hroot]].
  - reflexivity.
  - rewrite Hempty. destruct (ctrlKey e || metaKey e); reflexivity.
  - apply set_has_In in Hroot. rewrite Hroot. rewrite andb_false_r.
    destruct (ctrlKey e || metaKey e); reflexivity.
Qed.

Lemma handleKeyDown_delete_ignored_witness :
  handleKeyDown sample_uuid
    (mkKeyboardEvent (js "Delete") false true false false) (js "root")
    (mkViewState INITIAL_TREE [js "child-1"; js "root"] (js "root")) 0 =
  (mkViewState INITIAL_TREE [js "child-1"; js "root"] (js "root"), 0).
Proof.
  apply (handleKeyDown_delete_ignored sample_uuid
           (mkKeyboardEvent (js "Delete") false true false false) (js "root")
           (mkViewState INITIAL_TREE [js "child-1"; js "root"] (js "root")) 0).
  - right; reflexivity.
  - right. right. right. left. reflexivity.
Defined.

(** X16: a click.  Without Shift the clicked id becomes the whole
    selection.  With Shift the membership of the clicked id is toggled and
    the membership of every other id is kept.  In both cases the focus
    goes to the clicked id and the tree is left as it is. *)
Theorem handleNodeClick_selection (shift : bool) (nodeId : jsstring)
    (st : ViewState) :
  root (handleNodeClick shift nodeId st) = root st /\
  lastFocusedId (handleNodeClick shift nodeId st) = nodeId /\
  (shift = false -> selectedIds (handleNodeClick shift nodeId st) = [nodeId]) /\
  (shift = true ->
   (In nodeId (selectedIds (handleNodeClick shift nodeId st))
    <-> ~ In nodeId (selectedIds st)) /\
   (forall y, y <> nodeId ->
      (In y (selectedIds (handleNodeClick shift nodeId st))
       <-> In y (selectedIds st)))).
Proof.
  unfold handleNodeClick. destruct shift; cbn [root lastFocusedId selectedIds];
    (split; [reflexivity|]); (split; [reflexivity|]); split;
    try discriminate; intros _.
  - destruct (set_has (selectedIds st) nodeId) eqn:E.
    + apply set_has_In in E. split.
      * rewrite set_delete_In. tauto.
      * intros y Hy. rewrite set_delete_In. tauto.
    + apply set_has_false in E. split.
      * rewrite set_add_In. tauto.
      * intros y Hy. rewrite set_add_In. tauto.
  - reflexivity.
Qed.

Lemma handleNodeClick_selection_witness :
  selectedIds (handleNodeClick false (js "child-2")
                 (mkViewState INITIAL_TREE [js "root"; js "child-1"] (js "root")))
  = [js "child-2"]
  /\ (In (js "child-1")
         (selectedIds (handleNodeClick true (js "child-1")
                         (mkViewState INITIAL_TREE [js "root"; js "child-1"]
                                      (js "root"))))
      <-> ~ In (js "child-1") [js "root"; js "child-1"]).
Proof.
  pose proof (handleNodeClick_selection false (js "child-2")
                (mkViewState INITIAL_TREE [js "root"; js "child-1"] (js "root")))
    as (_ & _ & Hplain & _).
  pose proof (handleNodeClick_selection true (js "child-1")
                (mkViewState INITIAL_TREE [js "root"; js "child-1"] (js "root")))
    as (_ & _ & _ & Hshift).
  split.
  - apply Hplain. reflexivity.
  - apply (proj1 (Hshift eq_refl)).
Defined.

(** X17: a node is offered as a text input only when it is the only
    selected id and has the focus; with two or more ids selected no node
    is. *)
Theorem isFocused_single (n : MindMapNode) (selected : JsSet)
    (lastFocused : jsstring) :
  isFocused n selected lastFocused = true ->
  selected = [id n] /\ lastFocused = id n.
Proof.
  unfold isFocused, set_size. intros H.
  apply andb_true_iff in H as [H Hlast]. apply andb_true_iff in H as [Hsel Hone].
  apply str_eqb_eq in Hlast. apply set_has_In in Hsel.
  apply negb_true_iff, Nat.ltb_ge in Hone.
  split; [|exact Hlast].
  destruct selected as [|a [|b l]].
  - destruct Hsel.
  - destruct Hsel as [-> | []]. reflexivity.
  - simpl in Hone. lia.
Qed.

Lemma isFocused_single_witness :
  [js "child-1"] = [js "child-1"] /\ js "child-1" = js "child-1".
Proof.
  apply (isFocused_single (mkNode (js "child-1") (js "Child 1") [] None)
           [js "child-1"] (js "child-1")).
  reflexivity.
Defined.

(** ** The identifiers [parseMindMap] gives *)

Lemma ids_push_child (t : MindMapNode) (a : ref) (leafNode : MindMapNode) :
  rightmost t a ->
  ids_of (modify t a (push_child leafNode)) = ids_of t ++ ids_of leafNode.
Proof.
  remember (ids_of leafNode) as added eqn:Hadded.
  revert t; induction a as [|k a IH]; intros t Hr; simpl in *.
  - change (ids_of (push_child leafNode t))
      with (id t :: flat_map ids_of (children t ++ [leafNode])).
    rewrite (ids_of_unfold t), flat_map_app. simpl.
    rewrite app_nil_r, Hadded. reflexivity.
  - destruct (nth_error (children t) k) as [c|] eqn:Ec; [|tauto].
    destruct Hr as [Hlen Hr].
    destruct (last_child_split _ _ _ Ec Hlen) as (pre & Hcs & Hpre).
    rewrite (ids_of_unfold t).
    rewrite Hcs, <- Hpre, update_nth_at, !flat_map_app. simpl.
    rewrite !app_nil_r, (IH c Hr), app_assoc. reflexivity.
Qed.

Lemma parseLoop_ids (uuid : nat -> jsstring) (lines : list ParsedLine) :
  forall (t : MindMapNode) (stack : list StackEntry) (n : nat),
    stack_ok t stack ->
    ids_of (fst (parseLoop uuid lines t stack n))
    = ids_of t ++ map uuid (seq n (length lines))
    /\ snd (parseLoop uuid lines t stack n) = n + length lines.
Proof.
  induction lines as [|l lines IH]; intros t stack n Hok.
  - simpl. unfold ret. simpl. rewrite app_nil_r. split; [reflexivity | lia].
  - destruct Hok as [(upper & Hright & Hchain) (above & bottom & Hstack & Hbottom)].
    simpl. unfold bind, uuidv4. simpl.
    set (d := Z.of_nat (pl_depth l)).
    destruct (popWhile_keeps_bottom d above bottom ltac:(lia)) as [above' Hpop].
    destruct (popWhile_suffix d stack) as [popped Hsuffix].
    rewrite Hsuffix in Hchain. apply chain_suffix in Hchain.
    rewrite <- Hstack in Hpop.
    destruct (popWhile d stack) as [|e below] eqn:Epop.
    { destruct above'; discriminate. }
    simpl in Hchain. destruct (node e) as [a|] eqn:Ea; [|tauto].
    destruct Hchain as [[rest Hupper] Hbelow].
    assert (Ha : rightmost t a) by (subst upper; eapply rightmost_prefix; eauto).
    destruct (IH (modify t a (push_child (mkNode (uuid n) (pl_text l) [] None)))
                 (mkStackEntry (Some (a ++ [length (children_at t a)])) d
                  :: e :: below) (S n)) as [Hids Hsnd].
    + split.
      * exists (a ++ [length (children_at t a)]). split.
        -- apply rightmost_push_child; exact Ha.
        -- simpl. split; [apply is_prefix_refl|]. rewrite Ea.
           split; [apply is_prefix_app | exact Hbelow].
      * exists (mkStackEntry (Some (a ++ [length (children_at t a)])) d :: above'),
               bottom.
        split; [|exact Hbottom]. simpl. rewrite Hpop. reflexivity.
    + rewrite Hids, Hsnd, ids_push_child by exact Ha. simpl.
      rewrite <- app_assoc. split; [reflexivity | lia].
Qed.

Lemma NoDup_map_seq {A} (f : nat -> A) (n k : nat) :
  (forall i j, f i = f j -> i = j) -> NoDup (map f (seq n k)).
Proof.
  intros Hinj. revert n; induction k as [|k IH]; intros n; simpl; constructor.
  - intros Hin. apply in_map_iff in Hin as (j & Hj & Hin).
    apply Hinj in Hj. subst j. apply in_seq in Hin. lia.
  - apply IH.
Qed.

(** X18: [parseMindMap] draws one identifier per node of the tree it
    returns, and gives them in pre-order, the root first: the [k]-th node
    has the [k]-th identifier drawn.  So the ids of an imported tree are
    unique as long as [uuidv4] does not repeat itself. *)
Theorem parseMindMap_fresh_ids (uuid : nat -> jsstring) (input : jsstring) (n : nat) :
  ids_of (fst (parseMindMap uuid input n))
  = map uuid (seq n (length (ids_of (fst (parseMindMap uuid input n)))))
  /\ snd (parseMindMap uuid input n)
     = n + length (ids_of (fst (parseMindMap uuid input n)))
  /\ ((forall i j, uuid i = uuid j -> i = j) ->
      NoDup (ids_of (fst (parseMindMap uuid input n)))).
Proof.
  assert (H : exists k,
             ids_of (fst (parseMindMap uuid input n)) = map uuid (seq n (S k))
             /\ snd (parseMindMap uuid input n) = n + S k).
  { unfold parseMindMap.
    destruct (filter (fun line => negb (str_eqb (trim line) [])) (split input))
      as [|line0 lines].
    - exists 0. split; [reflexivity | simpl; lia].
    - assert (Hok : forall r, stack_ok (mkNode (uuid n) r [] None)
                                       [mkStackEntry (Some []) (-1)%Z]).
      { intros r. split.
        - exists []. simpl. split; [exact I|].
          split; [apply is_prefix_refl | exact I].
        - exists [], (mkStackEntry (Some []) (-1)%Z). split; reflexivity. }
      destruct (pl_depth (parseLine line0) =? 0) eqn:Hdepth;
        cbn [map];
        cbv beta iota zeta delta [bind uuidv4 ret strict_eq_object_string skipn node].
      + destruct (parseLoop_ids uuid (map parseLine lines) _ _ (S n)
                    (Hok (pl_text (parseLine line0)))) as [Hids Hsnd].
        exists (length (map parseLine lines)). rewrite Hids, Hsnd.
        split; [reflexivity | lia].
      + destruct (parseLoop_ids uuid (parseLine line0 :: map parseLine lines)
                    _ _ (S n) (Hok (js "Root"))) as [Hids Hsnd].
        exists (length (parseLine line0 :: map parseLine lines)).
        rewrite Hids, Hsnd. split; [reflexivity | lia]. }
  destruct H as (k & Hids & Hsnd). rewrite Hids, Hsnd, length_map, length_seq.
  repeat split. intros Hinj. apply NoDup_map_seq. exact Hinj.
Qed.

Lemma parseMindMap_fresh_ids_witness :
  NoDup (ids_of (fst (parseMindMap (fun k => [N.of_nat k])
                        (js "- A" ++ [LF] ++ js "  - B") 0))).
Proof.
  apply (proj2 (proj2 (parseMindMap_fresh_ids (fun k => [N.of_nat k])
                         (js "- A" ++ [LF] ++ js "  - B") 0))).
  intros i j H. injection H as H. lia.
Defined.

(** ** How a line is measured *)

Lemma parseLine_depth (line : jsstring) :
  pl_depth (parseLine line) = length (replaceTabs (takeWhile isSpace line)) / 2.
Proof.
  unfold parseLine, matchLine.
  destruct (dropWhile isSpace line) as [|b r]; [reflexivity|].
  destruct (isBullet b); [|reflexivity].
  destruct (takeWhile isSpace r); reflexivity.
Qed.

Lemma replaceTabs_length (indent : jsstring) :
  Forall (fun c => c = SPACE \/ c = TAB) indent ->
  length (replaceTabs indent)
  = count_occ N.eq_dec indent SPACE + 2 * count_occ N.eq_dec indent TAB.
Proof.
  induction 1 as [|c indent Hc _ IH]; [reflexivity|].
  change (replaceTabs (c :: indent))
    with ((if (c =? TAB)%N then [SPACE; SPACE] else [c]) ++ replaceTabs indent).
  rewrite length_app, IH.
  destruct Hc as [-> | ->]; simpl; lia.
Qed.

(** X19: the depth of a line indented with spaces and tabs, in any order,
    is half the number of its spaces plus the number of its tabs, rounded
    down: a tab counts as two spaces, and an odd space is dropped. *)
Theorem parseLine_indentation (indent body : jsstring) :
  Forall (fun c => c = SPACE \/ c = TAB) indent ->
  (forall c rest, body = c :: rest -> isSpace c = false) ->
  pl_depth (parseLine (indent ++ body))
  = (count_occ N.eq_dec indent SPACE + 2 * count_occ N.eq_dec indent TAB) / 2.
Proof.
  intros Hindent Hbody. rewrite parseLine_depth.
  assert (Hall : forallb isSpace indent = true).
  { apply forallb_forall. intros c Hc. rewrite Forall_forall in Hindent.
    destruct (Hindent c Hc) as [-> | ->]; reflexivity. }
  rewrite takeWhile_app_all by exact Hall.
  replace (takeWhile isSpace body) with (@nil jschar).
  2:{ destruct body as [|c rest]; [reflexivity|]. simpl.
      rewrite (Hbody c rest eq_refl). reflexivity. }
  rewrite app_nil_r, replaceTabs_length by exact Hindent. reflexivity.
Qed.

Lemma parseLine_indentation_witness :
  pl_depth (parseLine ([TAB; SPACE; SPACE; SPACE] ++ js "- x")) = 2.
Proof.
  apply (parseLine_indentation [TAB; SPACE; SPACE; SPACE] (js "- x")).
  - repeat (constructor; [first [left; reflexivity | right; reflexivity]|]).
    constructor.
  - intros c rest H. injection H as <- _. reflexivity.
Defined.

(** X20: the bullet is optional.  After an indentation of whitespace, a
    line with a bullet ([-], [+] or [*]) followed by whitespace and a line
    without bullet are read the same: the same depth, and as text the
    body up to its first line terminator.  (The body starts neither with
    whitespace nor, for the line without bullet, with a bullet
    character.) *)
Theorem parseLine_bullet_optional (indent gap body : jsstring) (b : jschar) :
  forallb isSpace indent = true ->
  isBullet b = true ->
  gap <> [] -> forallb isSpace gap = true ->
  (forall c rest, body = c :: rest -> isSpace c = false) ->
  parseLine (indent ++ b :: gap ++ body)
  = mkParsedLine (length (replaceTabs indent) / 2)
                 (takeWhile (fun c => negb (isLineTerminator c)) body)
  /\ ((forall c rest, body = c :: rest -> isBullet c = false) ->
      parseLine (indent ++ body) = parseLine (indent ++ b :: gap ++ body)).
Proof.
  intros Hindent Hb Hgap Hgapsp Hbody.
  assert (Hnb : isSpace b = false).
  { unfold isBullet in Hb.
    apply orb_true_iff in Hb as [Hb | Hb];
      [apply orb_true_iff in Hb as [Hb | Hb]|];
      apply N.eqb_eq in Hb; subst b; reflexivity. }
  assert (Htake : takeWhile isSpace body = [] /\ dropWhile isSpace body = body).
  { destruct body as [|c rest]; [split; reflexivity|]. simpl.
    rewrite (Hbody c rest eq_refl). split; reflexivity. }
  destruct Htake as [Htake Hdrop].
  assert (Hleft : parseLine (indent ++ b :: gap ++ body)
                  = mkParsedLine (length (replaceTabs indent) / 2)
                      (takeWhile (fun c => negb (isLineTerminator c)) body)).
  { unfold parseLine, matchLine.
    rewrite takeWhile_app_all, dropWhile_app_all by exact Hindent.
    cbn [takeWhile dropWhile]. rewrite Hnb, Hb.
    rewrite takeWhile_app_all, dropWhile_app_all by exact Hgapsp.
    rewrite Htake, Hdrop, !app_nil_r.
    destruct gap as [|g gap']; [congruence|]. reflexivity. }
  split; [exact Hleft|].
  intros Hnobullet. rewrite Hleft. unfold parseLine, matchLine.
  rewrite takeWhile_app_all, dropWhile_app_all by exact Hindent.
  rewrite Htake, Hdrop, app_nil_r.
  destruct body as [|c rest]; [reflexivity|].
  rewrite (Hnobullet c rest eq_refl). reflexivity.
Qed.

Lemma parseLine_bullet_optional_witness :
  parseLine (js "  " ++ 42%N :: js " " ++ js "Child 1")
  = mkParsedLine 1 (js "Child 1")
  /\ parseLine (js "  " ++ js "Child 1")
     = parseLine (js "  " ++ 42%N :: js " " ++ js "Child 1").
Proof.
  pose proof (parseLine_bullet_optional (js "  ") (js " ") (js "Child 1") 42%N
                eq_refl eq_refl ltac:(discriminate) eq_refl) as H.
  destruct H as [H1 H2].
  - intros c rest E. injection E as <- _. reflexivity.
  - split; [exact H1|]. apply H2.
    intros c rest E. injection E as <- _. reflexivity.
Defined.

(** ** The lines of an outline *)

Lemma render_keeps_no_LF (l : ParsedLine) :
  forallb (fun c => negb (c =? LF)%N) (pl_text l) = true ->
  forallb (fun c => negb (c =? LF)%N) (render l) = true.
Proof.
  intros H. unfold render. rewrite !forallb_app.
  rewrite indent_spaces by reflexivity. simpl. exact H.
Qed.

(** X21: when no text holds a line feed, [exportMindMap] writes one line
    per node, in pre-order: two spaces per level of depth, then ["- "],
    then the text of the node; there is no empty line and no line feed at
    the end. *)
Theorem exportMindMap_one_line_per_node (t : MindMapNode) (d : nat) :
  Forall (fun s => forallb (fun c => negb (c =? LF)%N) s = true) (texts t) ->
  split (exportMindMap t d) = map render (flatten t d) /\
  length (split (exportMindMap t d)) = size t.
Proof.
  intros H.
  assert (Hlines : split (exportMindMap t d) = map render (flatten t d)).
  { rewrite exportMindMap_lines. apply split_join.
    - rewrite flatten_unfold. discriminate.
    - rewrite <- (texts_flatten t d) in H. rewrite Forall_map in H.
      rewrite Forall_map. eapply Forall_impl; [|exact H].
      intros l Hl. apply render_keeps_no_LF. exact Hl. }
  split; [exact Hlines|]. rewrite Hlines, length_map. clear.
  revert d. induction t as [i tx cs e IH] using MindMapNode_forall_ind.
  intros d. rewrite flatten_unfold, size_unfold. simpl. f_equal.
  induction IH as [|c cs Hc _ IHcs]; simpl; [reflexivity|].
  rewrite length_app, Hc, IHcs. reflexivity.
Qed.

Lemma exportMindMap_one_line_per_node_witness :
  split (exportMindMap INITIAL_TREE 0) =
  [js "- Central Topic"; js "  - Child 1"; js "    - Grandchild 1";
   js "  - Child 2"]
  /\ length (split (exportMindMap INITIAL_TREE 0)) = 4.
Proof.
  apply (exportMindMap_one_line_per_node INITIAL_TREE 0).
  repeat (constructor; [reflexivity|]). constructor.
Defined.

(** ** Arrow keys on the mandala board *)

Ltac enum_index H :=
  repeat (destruct H as [H | H]; [subst | ]); subst.

(** X22: the arrow keys of the mandala view walk the chart as one board of
    9 by 9 cells.  From cell [c] of grid [g] (both from 0 to 8), an arrow
    moves the focus by one column or one row of the board, also across
    the border of a grid; at the edge of the board the focus stays where
    it was.  Other keys change nothing. *)
Theorem mandala_arrows_walk_board (key : jsstring) (g c : Z)
    (st : MandalaView.NavState) :
  (0 <= g <= 8)%Z -> (0 <= c <= 8)%Z ->
  match MandalaView.arrow_step key with
  | Some (dx, dy) =>
      let x := (MandalaView.board_x g c + dx)%Z in
      let y := (MandalaView.board_y g c + dy)%Z in
      MandalaView.focused (MandalaView.handleKeyDown key g c st) =
      if ((0 <=? x) && (x <=? 8) && (0 <=? y) && (y <=? 8))%Z
      then Some (MandalaView.board_cell x y)
      else MandalaView.focused st
  | None => MandalaView.handleKeyDown key g c st = st
  end.
Proof.
  intros Hg Hc.
  assert (Hg' : (g = 0 \/ g = 1 \/ g = 2 \/ g = 3 \/ g = 4 \/ g = 5 \/ g = 6
                 \/ g = 7 \/ g = 8)%Z) by lia.
  assert (Hc' : (c = 0 \/ c = 1 \/ c = 2 \/ c = 3 \/ c = 4 \/ c = 5 \/ c = 6
                 \/ c = 7 \/ c = 8)%Z) by lia.
  clear Hg Hc.
  unfold MandalaView.arrow_step, MandalaView.handleKeyDown.
  destruct (str_eqb key (js "ArrowRight"));
    [|destruct (str_eqb key (js "ArrowLeft"));
      [|destruct (str_eqb key (js "ArrowDown"));
        [|destruct (str_eqb key (js "ArrowUp")); [|reflexivity]]]];
    enum_index Hg'; enum_index Hc'; reflexivity.
Qed.

Lemma mandala_arrows_walk_board_witness :
  MandalaView.focused
    (MandalaView.handleKeyDown (js "ArrowRight") 3 5
       (MandalaView.mkNav None false 4))
  = Some (4, 3)%Z.
Proof.
  apply (mandala_arrows_walk_board (js "ArrowRight") 3 5
           (MandalaView.mkNav None false 4)); lia.
Defined.

(** X23: on a phone, a move with an arrow key brings the grid of the new
    focus on screen: after a move, [mobileActiveGrid] is the grid of the
    focused cell; and when the key moves nothing, or the view is not in
    its phone layout, [mobileActiveGrid] is left as it is. *)
Theorem mandala_arrows_follow_focus (key : jsstring) (g c : Z)
    (st : MandalaView.NavState) :
  let st' := MandalaView.handleKeyDown key g c st in
  MandalaView.isMobile st' = MandalaView.isMobile st /\
  (MandalaView.isMobile st = false ->
   MandalaView.mobileActiveGrid st' = MandalaView.mobileActiveGrid st) /\
  (st' = st \/
   exists g' c',
     MandalaView.focused st' = Some (g', c') /\
     (MandalaView.isMobile st = true -> MandalaView.mobileActiveGrid st' = g')).
Proof.
  unfold MandalaView.handleKeyDown. cbv zeta.
  repeat match goal with
         | |- context [if ?b then _ else _] =>
             lazymatch b with
             | context [MandalaView.isMobile] => fail
             | _ => destruct b
             end
         end;
    cbn [MandalaView.isMobile MandalaView.mobileActiveGrid MandalaView.focused];
    first
      [ split; [reflexivity | split; [reflexivity | left; reflexivity]]
      | split; [reflexivity|]; split;
        [ intros ->; reflexivity
        | right; eexists; eexists; split; [reflexivity|];
          intros ->; cbn [andb];
          match goal with
          | |- (if negb (?a =? ?b)%Z then _ else _) = _ =>
              destruct (Z.eqb_spec a b); cbn [negb]; congruence
          end ] ].
Qed.

Lemma mandala_arrows_follow_focus_witness :
  MandalaView.mobileActiveGrid
    (MandalaView.handleKeyDown (js "ArrowRight") 3 5
       (MandalaView.mkNav None true 3))
  = 4%Z.
Proof.
  pose proof (mandala_arrows_follow_focus (js "ArrowRight") 3 5
                (MandalaView.mkNav None true 3)) as (_ & _ & [H | H]).
  - discriminate H.
  - destruct H as (g' & c' & Hf & Hm). rewrite (Hm eq_refl).
    injection Hf as <- _. reflexivity.
Defined.

(** ** [updateCell] on a whole chart *)

Lemma array_set_inside {A} (a : Mandala.array A) (i : nat) (v : A) :
  i < length a ->
  length (Mandala.set a i v) = length a /\
  (forall (P : option A -> Prop), Forall P a -> P (Some v) ->
     Forall P (Mandala.set a i v)).
Proof.
  revert a; induction i as [|i IH]; intros [|x a] H; simpl in *; try lia.
  - split; [reflexivity|]. intros P HP Hv. inversion HP; subst.
    constructor; assumption.
  - destruct (IH a ltac:(lia)) as [Hlen Hall]. split; [lia|].
    intros P HP Hv. inversion HP; subst. constructor; auto.
Qed.

Lemma array_get_inside {A} (a : Mandala.array A) (i : nat) (P : option A -> Prop) :
  i < length a -> Forall P a -> P (nth i a None).
Proof.
  intros Hi H. rewrite Forall_forall in H. apply H. apply nth_In. exact Hi.
Qed.

Lemma grid_ok_set (g : Mandala.MandalaGridData) (i : nat) (c : Mandala.MandalaCell) :
  grid_ok g -> i < 9 ->
  grid_ok (Mandala.mkGrid (Mandala.grid_id g) (Mandala.title g)
             (Mandala.set (Mandala.cells g) i c)).
Proof.
  intros [Hlen Hall] Hi. unfold grid_ok. simpl.
  destruct (array_set_inside (Mandala.cells g) i c ltac:(lia)) as [Hl Hf].
  split; [lia|]. apply Hf; [exact Hall | discriminate].
Qed.

Lemma chart_ok_grid (chart : Mandala.MandalaChartData) (i : nat) :
  chart_ok chart -> i < 9 ->
  exists g, Mandala.get (Mandala.surroundingGrids chart) i = Some g /\ grid_ok g.
Proof.
  intros (_ & Hlen & Hall) Hi. unfold Mandala.get.
  destruct (nth_error (Mandala.surroundingGrids chart) i) as [o|] eqn:E.
  - rewrite Forall_forall in Hall.
    destruct (Hall o (nth_error_In _ _ E)) as (g & -> & Hg). eauto.
  - apply nth_error_None in E. lia.
Qed.

Lemma chart_ok_set (chart : Mandala.MandalaChartData) (i : nat)
    (g : Mandala.MandalaGridData) :
  chart_ok chart -> i < 9 -> grid_ok g ->
  chart_ok (Mandala.mkChart (Mandala.centerGrid chart)
              (Mandala.set (Mandala.surroundingGrids chart) i g)).
Proof.
  intros (Hc & Hlen & Hall) Hi Hg. unfold chart_ok. simpl.
  destruct (array_set_inside (Mandala.surroundingGrids chart) i g ltac:(lia))
    as [Hl Hf].
  repeat split; [apply Hc | apply Hc | lia |].
  apply Hf; [exact Hall | eauto].
Qed.

(** X24: on a chart of nine grids of nine cells, every edit of a cell
    index below 9 (in the center grid, or in a surrounding grid of index
    below 9) succeeds, and the chart it returns is again a chart of nine
    grids of nine cells. *)
Theorem updateCell_keeps_chart (gridType : Mandala.GridType)
    (gridIndex cellIndex : nat) (newText : jsstring)
    (prev : Mandala.MandalaChartData) :
  chart_ok prev -> cellIndex < 9 ->
  (gridType = Mandala.surrounding -> gridIndex < 9) ->
  exists next,
    Mandala.updateCell gridType gridIndex cellIndex newText prev = Some next /\
    chart_ok next.
Proof.
  intros Hok Hc Hg. unfold Mandala.updateCell. destruct gridType.
  - assert (Hcenter : chart_ok
              (Mandala.mkChart
                 (Mandala.mkGrid (Mandala.grid_id (Mandala.centerGrid prev))
                    (Mandala.title (Mandala.centerGrid prev))
                    (Mandala.set (Mandala.cells (Mandala.centerGrid prev)) cellIndex
                       (Mandala.with_text
                          (Mandala.get (Mandala.cells (Mandala.centerGrid prev))
                             cellIndex) newText)))
                 (Mandala.surroundingGrids prev))).
    { destruct Hok as (Hcg & Hrest). split; [|exact Hrest].
      apply grid_ok_set; assumption. }
    destruct (Nat.eqb_spec cellIndex 4) as [E | N]; cbn [negb].
    + eexists; split; [reflexivity | exact Hcenter].
    + cbn [Mandala.surroundingGrids Mandala.centerGrid].
      destruct (chart_ok_grid prev cellIndex Hok Hc) as (g & Eg & Hgok).
      rewrite Eg. eexists; split; [reflexivity|].
      apply (chart_ok_set _ cellIndex _ Hcenter Hc).
      apply grid_ok_set; [exact Hgok | lia].
  - specialize (Hg eq_refl).
    destruct (chart_ok_grid prev gridIndex Hok Hg) as (g & Eg & Hgok).
    rewrite Eg.
    assert (Hsur : chart_ok
              (Mandala.mkChart (Mandala.centerGrid prev)
                 (Mandala.set (Mandala.surroundingGrids prev) gridIndex
                    (Mandala.mkGrid (Mandala.grid_id g) (Mandala.title g)
                       (Mandala.set (Mandala.cells g) cellIndex
                          (Mandala.with_text (Mandala.get (Mandala.cells g) cellIndex)
                             newText)))))).
    { apply chart_ok_set; auto. apply grid_ok_set; assumption. }
    destruct (Nat.eqb_spec cellIndex 4) as [E | N].
    + eexists; split; [reflexivity|].
      cbn [Mandala.surroundingGrids Mandala.centerGrid].
      destruct Hsur as (Hcg & Hrest). split; [|exact Hrest].
      apply grid_ok_set; assumption.
    + eexists; split; [reflexivity | exact Hsur].
Qed.

Lemma initialData_ok : chart_ok Mandala.initialData.
Proof.
  unfold chart_ok, grid_ok. simpl.
  repeat split;
    repeat (constructor;
            [first [discriminate
                   | eexists; split; [reflexivity|]; split;
                     [reflexivity | repeat (constructor; [discriminate|]); constructor]]
            |]);
    constructor.
Qed.

Lemma updateCell_keeps_chart_witness :
  exists next,
    Mandala.updateCell Mandala.surrounding 2 4 (js "goal") Mandala.initialData
    = Some next /\ chart_ok next.
Proof.
  apply (updateCell_keeps_chart Mandala.surrounding 2 4 (js "goal")
           Mandala.initialData initialData_ok); lia.
Defined.

Ltac cell_reads :=
  unfold read_cell;
  cbn [Mandala.centerGrid Mandala.surroundingGrids Mandala.cells];
  repeat (first [ rewrite array_get_set_eq
                | rewrite array_get_set_ne by congruence ];
          cbn [Mandala.centerGrid Mandala.surroundingGrids Mandala.cells]).

(** X25: an [updateCell] call that returns changes the cell it names and
    the cell synced with it, and no other cell of the chart.  Both cells
    get the new text and keep their ids; every other cell, in the center
    grid and in the surrounding grids, is as it was. *)
Theorem updateCell_changes_only (gridType : Mandala.GridType)
    (gridIndex cellIndex : nat) (newText : jsstring)
    (prev next : Mandala.MandalaChartData) :
  Mandala.updateCell gridType gridIndex cellIndex newText prev = Some next ->
  read_cell next (edited_cell gridType gridIndex cellIndex)
  = Some (Mandala.with_text
            (read_cell prev (edited_cell gridType gridIndex cellIndex)) newText)
  /\ (forall m, synced_cell (edited_cell gridType gridIndex cellIndex) = Some m ->
        read_cell next m = Some (Mandala.with_text (read_cell prev m) newText))
  /\ (forall a, a <> edited_cell gridType gridIndex cellIndex ->
        synced_cell (edited_cell gridType gridIndex cellIndex) <> Some a ->
        read_cell next a = read_cell prev a).
Proof.
  intros Hupd. unfold Mandala.updateCell in Hupd.
  destruct gridType; cbn [edited_cell synced_cell].
  - destruct (Nat.eqb_spec cellIndex 4) as [E4 | N4];
      cbn [negb Mandala.centerGrid Mandala.surroundingGrids] in Hupd.
    + injection Hupd as <-. split; [cell_reads; reflexivity|].
      split; [discriminate|].
      intros [c' | g' c'] Ha _; cell_reads; reflexivity.
    + destruct (Mandala.get (Mandala.surroundingGrids prev) cellIndex)
        as [g|] eqn:Eg; [|discriminate].
      injection Hupd as <-. split; [cell_reads; reflexivity|]. split.
      * intros m Hm. injection Hm as <-. cell_reads. rewrite Eg. reflexivity.
      * intros [c' | g' c'] Ha Hm; [cell_reads; reflexivity|].
        destruct (Nat.eq_dec cellIndex g') as [<- | Hne];
          cell_reads; rewrite ?Eg; cell_reads; reflexivity.
  - destruct (Mandala.get (Mandala.surroundingGrids prev) gridIndex)
      as [g|] eqn:Eg; [|discriminate].
    destruct (Nat.eqb_spec cellIndex 4) as [E4 | N4];
      cbn [negb Mandala.centerGrid Mandala.surroundingGrids] in Hupd;
      injection Hupd as <-.
    + subst cellIndex. split; [cell_reads; rewrite Eg; reflexivity|]. split.
      * intros m Hm. injection Hm as <-. cell_reads. reflexivity.
      * intros [c' | g' c'] Ha Hm; [cell_reads; reflexivity|].
        destruct (Nat.eq_dec gridIndex g') as [<- | Hne];
          cell_reads; rewrite ?Eg; cell_reads; reflexivity.
    + split; [cell_reads; rewrite Eg; reflexivity|]. split; [discriminate|].
      intros [c' | g' c'] Ha _; [cell_reads; reflexivity|].
      destruct (Nat.eq_dec gridIndex g') as [<- | Hne];
        cell_reads; rewrite ?Eg; cell_reads; reflexivity.
Qed.

Lemma updateCell_changes_only_witness :
  exists next,
    Mandala.updateCell Mandala.center 4 2 (js "goal") Mandala.initialData
    = Some next /\
    read_cell next (SurroundingCell 2 4)
    = Some (Mandala.with_text
              (read_cell Mandala.initialData (SurroundingCell 2 4)) (js "goal")) /\
    read_cell next (SurroundingCell 2 3)
    = read_cell Mandala.initialData (SurroundingCell 2 3).
Proof.
  eexists. split; [reflexivity|].
  pose proof (updateCell_changes_only Mandala.center 4 2 (js "goal")
                Mandala.initialData _ eq_refl) as (_ & Hsync & Hother).
  split.
  - apply Hsync. reflexivity.
  - apply Hother; discriminate.
Defined.

(* ------------------------------------------------------------------ *)
(** ** [parseMandala]: what the loop can change *)

Lemma parseStep_data (toLowerCase : jsstring -> jsstring)
    (st : MandalaImport.ParseState) (line : jsstring) :
  MandalaImport.data (MandalaImport.parseStep toLowerCase st line)
  = MandalaImport.data st \/
  exists r idx content,
    MandalaImport.gridTarget st = Some r /\
    MandalaImport.data (MandalaImport.parseStep toLowerCase st line)
    = MandalaImport.write_cell (MandalaImport.data st) r idx content.
Proof.
  unfold MandalaImport.parseStep. cbv zeta.
  repeat match goal with
         | |- context [match ?x with _ => _ end] => destruct x eqn:?
         end;
    first [ left; reflexivity
          | right; eexists _, _, _; split; reflexivity ].
Qed.

Lemma parseStep_target (toLowerCase : jsstring -> jsstring)
    (st : MandalaImport.ParseState) (line : jsstring) :
  MandalaImport.gridTarget st <> Some (MandalaImport.surroundingRef 4) ->
  MandalaImport.gridTarget (MandalaImport.parseStep toLowerCase st line)
  <> Some (MandalaImport.surroundingRef 4).
Proof.
  intros H. unfold MandalaImport.parseStep. cbv zeta.
  repeat match goal with
         | |- context [match ?x with _ => _ end] => destruct x eqn:?
         end;
    cbn [MandalaImport.gridTarget]; try congruence; try discriminate.
  all: intros E; injection E as ->; discriminate.
Qed.

Lemma map_update_nth_same {A B} (g : A -> B) (f : A -> A) (k : nat) (l : list A) :
  (forall x, g (f x) = g x) -> map g (update_nth k f l) = map g l.
Proof.
  intros H. revert k; induction l as [|x l IH]; intros [|k]; simpl;
    rewrite ?H, ?IH; reflexivity.
Qed.

Lemma blank_chart_write_cell (d : Mandala.MandalaChartData)
    (r : MandalaImport.GridRef) (idx : nat) (content : jsstring) :
  blank_chart (MandalaImport.write_cell d r idx content) = blank_chart d.
Proof.
  assert (Hc : forall cs,
             blank_cells (MandalaImport.set_cell_text cs idx content)
             = blank_cells cs).
  { intros cs. apply map_update_nth_same. intros [c|]; reflexivity. }
  destruct r as [|i]; unfold blank_chart, MandalaImport.write_cell;
    cbn [Mandala.centerGrid Mandala.surroundingGrids].
  - unfold blank_grid at 1 3.
    cbn [Mandala.cells Mandala.grid_id Mandala.title]. rewrite Hc. reflexivity.
  - f_equal. apply map_update_nth_same. intros [g|]; [|reflexivity].
    unfold blank_grid. cbn [option_map Mandala.cells Mandala.grid_id Mandala.title].
    rewrite Hc. reflexivity.
Qed.

Lemma fold_parseStep_blank (toLowerCase : jsstring -> jsstring)
    (lines : list jsstring) (st : MandalaImport.ParseState) :
  blank_chart (MandalaImport.data
                 (fold_left (MandalaImport.parseStep toLowerCase) lines st))
  = blank_chart (MandalaImport.data st).
Proof.
  revert st; induction lines as [|line lines IH]; intros st; [reflexivity|].
  cbn [fold_left]. rewrite IH.
  destruct (parseStep_data toLowerCase st line) as [E | (r & idx & c & _ & E)];
    rewrite E; [reflexivity | apply blank_chart_write_cell].
Qed.

Lemma grid_ok_blank (g : Mandala.MandalaGridData) :
  grid_ok (blank_grid g) -> grid_ok g.
Proof.
  unfold grid_ok, blank_grid, blank_cells. cbn [Mandala.cells].
  rewrite length_map. intros [Hlen Hall]. split; [exact Hlen|].
  rewrite Forall_forall in Hall. apply Forall_forall. intros c Hin.
  specialize (Hall _ (in_map _ _ _ Hin)).
  destruct c; [discriminate | exact Hall].
Qed.

Lemma chart_ok_blank (d : Mandala.MandalaChartData) :
  chart_ok (blank_chart d) -> chart_ok d.
Proof.
  unfold chart_ok, blank_chart. cbn [Mandala.centerGrid Mandala.surroundingGrids].
  rewrite length_map. intros (Hc & Hlen & Hall).
  split; [apply grid_ok_blank; exact Hc|]. split; [exact Hlen|].
  rewrite Forall_forall in Hall. apply Forall_forall. intros g Hin.
  destruct (Hall _ (in_map _ _ _ Hin)) as (g' & E & Hg).
  destruct g as [g|]; [|discriminate].
  exists g; split; [reflexivity|]. apply grid_ok_blank.
  injection E as <-. exact Hg.
Qed.

Lemma empty_chart_ok (uuid : nat -> jsstring) (n : nat) :
  chart_ok (empty_chart uuid n).
Proof.
  unfold chart_ok, grid_ok. cbn.
  repeat split;
    repeat (constructor;
            [first [discriminate
                   | eexists; split; [reflexivity|]; split;
                     [reflexivity | repeat (constructor; [discriminate|]); constructor]]
            |]);
    constructor.
Qed.

Lemma parseMandala_unfold (uuid : nat -> jsstring)
    (toLowerCase : jsstring -> jsstring) (text : jsstring) (n : nat) :
  MandalaImport.parseMandala uuid toLowerCase text n
  = (MandalaImport.data
       (fold_left (MandalaImport.parseStep toLowerCase) (split text)
          (MandalaImport.mkState (empty_chart uuid n) None false)),
     100 + n).
Proof. reflexivity. Qed.

(** X26: whatever the input, [parseMandala] draws 100 identifiers and
    returns the chart of nine grids of nine cells that [createEmptyGrid]
    made, ids and titles untouched: the lines of the input can only change
    the texts of cells. *)
Theorem parseMandala_writes_texts_only (uuid : nat -> jsstring)
    (toLowerCase : jsstring -> jsstring) (text : jsstring) (n : nat) :
  blank_chart (run (MandalaImport.parseMandala uuid toLowerCase text) n)
  = empty_chart uuid n /\
  chart_ok (run (MandalaImport.parseMandala uuid toLowerCase text) n) /\
  snd (MandalaImport.parseMandala uuid toLowerCase text n) = 100 + n.
Proof.
  unfold run. rewrite parseMandala_unfold. cbn [fst snd].
  assert (E : blank_chart
                (MandalaImport.data
                   (fold_left (MandalaImport.parseStep toLowerCase) (split text)
                      (MandalaImport.mkState (empty_chart uuid n) None false)))
              = empty_chart uuid n).
  { rewrite fold_parseStep_blank. reflexivity. }
  split; [exact E|]. split; [|reflexivity].
  apply chart_ok_blank. rewrite E. apply empty_chart_ok.
Qed.

Lemma fold_parseStep_placeholder (toLowerCase : jsstring -> jsstring)
    (lines : list jsstring) (st : MandalaImport.ParseState) :
  MandalaImport.gridTarget st <> Some (MandalaImport.surroundingRef 4) ->
  Mandala.get (Mandala.surroundingGrids
                 (MandalaImport.data
                    (fold_left (MandalaImport.parseStep toLowerCase) lines st))) 4
  = Mandala.get (Mandala.surroundingGrids (MandalaImport.data st)) 4.
Proof.
  revert st; induction lines as [|line lines IH]; intros st H; [reflexivity|].
  cbn [fold_left]. rewrite IH by (apply parseStep_target; exact H).
  destruct (parseStep_data toLowerCase st line) as [E | (r & idx & c & Hr & E)];
    rewrite E; [reflexivity|].
  destruct r as [|i]; [reflexivity|].
  unfold MandalaImport.write_cell, Mandala.get.
  cbn [Mandala.surroundingGrids].
  rewrite nth_error_update_nth_ne; [reflexivity|].
  intros ->. apply H. exact Hr.
Qed.

(** X27: whatever the input (a section named "Center", a section with the
    name "Center" inside a longer header, any index), [parseMandala] never
    writes into [surroundingGrids[4]]: it is returned as [createEmptyGrid]
    made it, all nine texts empty. *)
Theorem parseMandala_center_placeholder (uuid : nat -> jsstring)
    (toLowerCase : jsstring -> jsstring) (text : jsstring) (n : nat) :
  Mandala.get (Mandala.surroundingGrids
                 (run (MandalaImport.parseMandala uuid toLowerCase text) n)) 4
  = Some (empty_grid uuid (50 + n)).
Proof.
  unfold run. rewrite parseMandala_unfold. cbn [fst].
  rewrite fold_parseStep_placeholder by discriminate. reflexivity.
Qed.

(* ------------------------------------------------------------------ *)
(** ** Reading a chart after the parser wrote into it *)

Lemma get_update_nth_eq {A} (k : nat) (f : A -> A) (l : Mandala.array A) :
  Mandala.get (update_nth k (option_map f) l) k = option_map f (Mandala.get l k).
Proof.
  unfold Mandala.get. rewrite nth_error_update_nth_eq.
  destruct (nth_error l k) as [[x|]|]; reflexivity.
Qed.

Lemma get_update_nth_ne {A} (k j : nat) (f : option A -> option A)
    (l : Mandala.array A) :
  k <> j -> Mandala.get (update_nth k f l) j = Mandala.get l j.
Proof.
  intros H. unfold Mandala.get. rewrite nth_error_update_nth_ne by exact H.
  reflexivity.
Qed.

Lemma cell_addr_inj (r : MandalaImport.GridRef) (i j : nat) :
  cell_addr r i = cell_addr r j -> i = j.
Proof. destruct r; simpl; congruence. Qed.

Lemma read_write_same (d : Mandala.MandalaChartData) (r : MandalaImport.GridRef)
    (idx : nat) (content : jsstring) (c : Mandala.MandalaCell) :
  read_cell d (cell_addr r idx) = Some c ->
  read_cell (MandalaImport.write_cell d r idx content) (cell_addr r idx)
  = Some (Mandala.mkCell (Mandala.id c) content).
Proof.
  destruct r as [|g]; unfold read_cell, cell_addr, MandalaImport.write_cell,
    MandalaImport.set_cell_text;
    cbn [Mandala.centerGrid Mandala.surroundingGrids Mandala.cells]; intros H.
  - rewrite get_update_nth_eq, H. reflexivity.
  - rewrite get_update_nth_eq.
    destruct (Mandala.get (Mandala.surroundingGrids d) g) as [grid|];
      [|discriminate].
    cbn [option_map Mandala.cells]. rewrite get_update_nth_eq, H. reflexivity.
Qed.

Lemma read_write_other (d : Mandala.MandalaChartData) (r : MandalaImport.GridRef)
    (idx : nat) (content : jsstring) (a : CellAddr) :
  a <> cell_addr r idx ->
  read_cell (MandalaImport.write_cell d r idx content) a = read_cell d a.
Proof.
  intros Hne.
  destruct r as [|g], a as [c | g' c];
    unfold read_cell, MandalaImport.write_cell, MandalaImport.set_cell_text;
    cbn [Mandala.centerGrid Mandala.surroundingGrids Mandala.cells];
    try reflexivity.
  - apply get_update_nth_ne. intros ->. apply Hne. reflexivity.
  - destruct (Nat.eq_dec g g') as [<- | Hg].
    + rewrite get_update_nth_eq.
      destruct (Mandala.get (Mandala.surroundingGrids d) g) as [grid|];
        [|reflexivity].
      cbn [option_map Mandala.cells]. apply get_update_nth_ne.
      intros ->. apply Hne. reflexivity.
    + rewrite get_update_nth_ne by exact Hg. reflexivity.
Qed.

Lemma full_write_cell (d : Mandala.MandalaChartData) (r : MandalaImport.GridRef)
    (idx : nat) (content : jsstring) :
  full d -> full (MandalaImport.write_cell d r idx content).
Proof.
  intros Hd a Ha.
  destruct (read_cell d a) as [c|] eqn:E; [|exact (False_ind _ (Hd a Ha E))].
  assert (Hcases : a = cell_addr r idx \/ a <> cell_addr r idx).
  { destruct r as [|g], a as [c' | g' c']; simpl;
      try (right; discriminate).
    - destruct (Nat.eq_dec c' idx) as [-> | N]; [left; reflexivity|].
      right; congruence.
    - destruct (Nat.eq_dec g' g) as [-> | N]; [|right; congruence].
      destruct (Nat.eq_dec c' idx) as [-> | N]; [left; reflexivity|].
      right; congruence. }
  destruct Hcases as [-> | Hne].
  - rewrite (read_write_same _ _ _ _ _ E). discriminate.
  - rewrite read_write_other by exact Hne. rewrite E. discriminate.
Qed.

Lemma read_write_cells_out (cs : Mandala.array Mandala.MandalaCell)
    (d : Mandala.MandalaChartData) (r : MandalaImport.GridRef) (index : nat)
    (a : CellAddr) :
  (forall j, index <= j -> a <> cell_addr r j) ->
  read_cell (write_cells d r index cs) a = read_cell d a.
Proof.
  revert d index; induction cs as [|[c|] cs IH]; intros d index H;
    cbn [write_cells]; try reflexivity.
  rewrite IH by (intros j Hj; apply H; lia).
  apply read_write_other. apply H. lia.
Qed.

Lemma full_write_cells (cs : Mandala.array Mandala.MandalaCell)
    (d : Mandala.MandalaChartData) (r : MandalaImport.GridRef) (index : nat) :
  full d -> full (write_cells d r index cs).
Proof.
  revert d index; induction cs as [|[c|] cs IH]; intros d index H;
    cbn [write_cells]; try exact H.
  apply IH. apply full_write_cell. exact H.
Qed.

Lemma read_write_cells_in (cs : Mandala.array Mandala.MandalaCell)
    (d : Mandala.MandalaChartData) (r : MandalaImport.GridRef) (index j : nat) :
  Forall (fun c => c <> None) cs ->
  (forall k, index <= k < index + length cs -> read_cell d (cell_addr r k) <> None) ->
  index <= j < index + length cs ->
  read_text (write_cells d r index cs) (cell_addr r j)
  = option_map Mandala.text (Mandala.get cs (j - index)).
Proof.
  revert d index; induction cs as [|c cs IH]; intros d index Hall Hd Hj;
    [simpl in Hj; lia|].
  inversion Hall as [|? ? Hc Hcs]; subst.
  destruct c as [c|]; [|congruence]. cbn [write_cells].
  destruct (Nat.eq_dec j index) as [-> | Hne].
  - unfold read_text. rewrite read_write_cells_out.
    + destruct (read_cell d (cell_addr r index)) as [c0|] eqn:E;
        [|exfalso; apply (Hd index); [simpl; lia | exact E]].
      rewrite (read_write_same _ _ _ _ _ E). rewrite Nat.sub_diag. reflexivity.
    + intros k Hk E. apply cell_addr_inj in E. lia.
  - rewrite IH.
    + replace (j - index) with (S (j - S index)) by lia. reflexivity.
    + exact Hcs.
    + intros k Hk. rewrite read_write_other.
      * apply Hd. simpl. lia.
      * intros E. apply cell_addr_inj in E. lia.
    + simpl in Hj. lia.
Qed.

Lemma read_write_grids_out (gs : Mandala.array Mandala.MandalaGridData)
    (d : Mandala.MandalaChartData) (index : nat) (a : CellAddr) :
  (forall g c, index <= g -> g <> 4 -> a <> SurroundingCell g c) ->
  read_cell (write_grids d index gs) a = read_cell d a.
Proof.
  revert d index; induction gs as [|g gs IH]; intros d index H;
    cbn [write_grids]; [reflexivity|].
  rewrite IH by (intros g' c Hg; apply H; lia).
  destruct (Nat.eqb_spec index 4) as [E | N]; [reflexivity|].
  destruct g as [g|]; [|reflexivity].
  apply read_write_cells_out. intros j _. apply H; [lia | exact N].
Qed.

Lemma full_write_grids (gs : Mandala.array Mandala.MandalaGridData)
    (d : Mandala.MandalaChartData) (index : nat) :
  full d -> full (write_grids d index gs).
Proof.
  revert d index; induction gs as [|g gs IH]; intros d index H;
    cbn [write_grids]; [exact H|].
  apply IH. destruct (index =? 4); [exact H|].
  destruct g as [g|]; [|exact H]. apply full_write_cells. exact H.
Qed.

Lemma read_write_grids_in (gs : Mandala.array Mandala.MandalaGridData)
    (d : Mandala.MandalaChartData) (index g c : nat) (grid : Mandala.MandalaGridData) :
  full d ->
  index + length gs <= 9 ->
  index <= g -> g <> 4 -> c < 9 ->
  Mandala.get gs (g - index) = Some grid ->
  grid_ok grid ->
  read_text (write_grids d index gs) (SurroundingCell g c)
  = option_map Mandala.text (Mandala.get (Mandala.cells grid) c).
Proof.
  revert d index; induction gs as [|g0 gs IH];
    intros d index Hd Hlen Hg Hg4 Hc Hget Hok.
  { destruct (g - index); discriminate. }
  cbn [write_grids].
  destruct (Nat.eq_dec g index) as [-> | Hne].
  - rewrite Nat.sub_diag in Hget. cbn in Hget. subst g0.
    destruct (Nat.eqb_spec index 4) as [E | _]; [congruence|].
    unfold read_text.
    rewrite read_write_grids_out by (intros g' c' Hg' _ E; injection E; lia).
    destruct Hok as [Hl Hall].
    pose proof (read_write_cells_in (Mandala.cells grid) d
                  (MandalaImport.surroundingRef index) 0 c Hall) as H.
    unfold read_text in H. cbn [cell_addr] in H.
    rewrite H; [rewrite Nat.sub_0_r; reflexivity | | lia].
    intros k Hk. apply Hd. simpl in *. lia.
  - replace (g - index) with (S (g - S index)) in Hget by lia.
    apply IH; try assumption; simpl in Hlen; try lia.
    destruct (index =? 4); [exact Hd|].
    destruct g0 as [g0|]; [|exact Hd]. apply full_write_cells. exact Hd.
Qed.

(* ------------------------------------------------------------------ *)
(** ** The lines of [exportMandala] under [parseStep] *)

Lemma dropWhile_length {A} (p : A -> bool) (l : list A) :
  length (dropWhile p l) <= length l.
Proof.
  induction l as [|x l IH]; simpl; [lia|]. destruct (p x); simpl; lia.
Qed.

Lemma dropWhile_same_length {A} (p : A -> bool) (l : list A) :
  length (dropWhile p l) = length l -> dropWhile p l = l.
Proof.
  destruct l as [|x l]; simpl; [reflexivity|].
  destruct (p x); [|reflexivity].
  pose proof (dropWhile_length p l). simpl. lia.
Qed.

Lemma trim_fixed (t : jsstring) :
  trim t = t ->
  dropWhile isSpace t = t /\ dropWhile isSpace (rev t) = rev t.
Proof.
  unfold trim. intros H.
  assert (E : dropWhile isSpace t = t).
  { apply dropWhile_same_length.
    pose proof (dropWhile_length isSpace t) as L1.
    pose proof (dropWhile_length isSpace (rev (dropWhile isSpace t))) as L2.
    rewrite length_rev in L2.
    apply (f_equal (@length _)) in H. rewrite length_rev in H. lia. }
  split; [exact E|]. rewrite E in H.
  apply (f_equal (@rev _)) in H. rewrite rev_involutive in H. exact H.
Qed.

Lemma trim_app_clean (x : jschar) (p t : jsstring) :
  isSpace x = false -> t <> [] -> trim t = t ->
  trim ((x :: p) ++ t) = (x :: p) ++ t.
Proof.
  intros Hx Hne Ht. apply trim_fixed in Ht as [_ Hr].
  unfold trim. cbn [app dropWhile]. rewrite Hx.
  change (x :: p ++ t) with ((x :: p) ++ t). rewrite rev_app_distr.
  destruct (rev t) as [|c u] eqn:E.
  { apply (f_equal (@rev _)) in E. rewrite rev_involutive in E. contradiction. }
  assert (Hc : isSpace c = false).
  { cbn [dropWhile] in Hr. destruct (isSpace c); [|reflexivity].
    pose proof (dropWhile_length isSpace u) as L.
    apply (f_equal (@length _)) in Hr. simpl in Hr. lia. }
  cbn [app dropWhile]. rewrite Hc.
  change (c :: u ++ rev (x :: p)) with ((c :: u) ++ rev (x :: p)).
  rewrite <- E, <- rev_app_distr, rev_involutive. reflexivity.
Qed.

Lemma clean_text_no_terminator (t : jsstring) :
  clean_text t -> forallb (fun c => negb (isLineTerminator c)) t = true.
Proof.
  intros [H _]. apply forallb_forall. intros c Hin.
  rewrite Forall_forall in H. rewrite (H c Hin). reflexivity.
Qed.

Lemma clean_text_no_LF (t : jsstring) :
  clean_text t -> forallb (fun c => negb (c =? LF)%N) t = true.
Proof.
  intros [H _]. apply forallb_forall. intros c Hin.
  rewrite Forall_forall in H. specialize (H c Hin).
  unfold isLineTerminator in H. unfold LF.
  destruct (c =? 10)%N; [discriminate | reflexivity].
Qed.

Section ParseStepOnLines.

Variable toLowerCase : jsstring -> jsstring.

Hypothesis toLowerCase_ascii :
  forall s, forallb MandalaImport.isAscii s = true ->
            toLowerCase s = map MandalaImport.asciiLower s.

Local Abbreviation parseStep := (MandalaImport.parseStep toLowerCase).

Lemma parseStep_blank_line (st : MandalaImport.ParseState) :
  parseStep st [] = st.
Proof. reflexivity. Qed.

Lemma parseStep_title (st : MandalaImport.ParseState) (title : jsstring) :
  title <> [] -> clean_text title ->
  parseStep st (js "# " ++ title) = st.
Proof.
  intros Hne [_ Ht]. unfold MandalaImport.parseStep. cbv zeta.
  change (js "# " ++ title) with ((35%N :: [32%N]) ++ title).
  rewrite trim_app_clean by (reflexivity || assumption).
  reflexivity.
Qed.

Lemma parseStep_center_header (st : MandalaImport.ParseState) :
  MandalaImport.processedCenterGrid st = false ->
  parseStep st (js "## Center Grid")
  = MandalaImport.mkState (MandalaImport.data st)
      (Some MandalaImport.centerRef) true.
Proof.
  intros Hp. unfold MandalaImport.parseStep. cbv zeta.
  change (trim (js "## Center Grid")) with (js "## Center Grid").
  change (MandalaImport.stripHeader (js "## Center Grid")) with (js "Center Grid").
  rewrite toLowerCase_ascii by reflexivity. rewrite Hp. reflexivity.
Qed.

Lemma parseStep_surrounding_header (st : MandalaImport.ParseState)
    (index : nat) (g : Mandala.MandalaGridData) :
  index < 9 -> index <> 4 ->
  Mandala.get (Mandala.surroundingGrids (MandalaImport.data st)) index = Some g ->
  parseStep st (js "## " ++ MandalaExport.getPositionName index ++ js " Grid")
  = MandalaImport.mkState (MandalaImport.data st)
      (Some (MandalaImport.surroundingRef index))
      (MandalaImport.processedCenterGrid st).
Proof.
  intros Hlt Hne Hg.
  do 9 (destruct index as [|index];
        [ try congruence;
          unfold MandalaImport.parseStep; cbv zeta;
          match goal with
          | |- context [trim ?l] =>
              let l' := eval vm_compute in l in
              change (trim l) with l';
              let h := eval vm_compute in (MandalaImport.stripHeader l') in
              change (MandalaImport.stripHeader l') with h
          end;
          rewrite toLowerCase_ascii by reflexivity;
          match goal with
          | |- context [MandalaImport.findPosition ?h ?k] =>
              let v := eval vm_compute in (MandalaImport.findPosition h k) in
              change (MandalaImport.findPosition h k) with v
          end;
          cbn [Nat.eqb]; rewrite Hg; reflexivity
        |]).
  lia.
Qed.

End ParseStepOnLines.

Lemma matchItem_indexed (index : nat) (tail : jsstring) :
  index < 9 ->
  MandalaImport.matchItem (js "- [" ++ decimal index ++ js "]" ++ tail)
  = Some (Some (decimal index), None,
          takeWhile (fun c => negb (isLineTerminator c)) (dropWhile isSpace tail)).
Proof.
  intros H. do 9 (destruct index as [|index]; [reflexivity|]). lia.
Qed.

Lemma decimal_index (index : nat) :
  index < 9 ->
  (parseInt (decimal index) <? 9)%N = true /\
  N.to_nat (parseInt (decimal index)) = index /\
  forallb (fun c => negb (c =? LF)%N) (decimal index) = true.
Proof.
  intros H. do 9 (destruct index as [|index]; [repeat split|]). lia.
Qed.

Section ParseStepOnCells.

Variable toLowerCase : jsstring -> jsstring.

Local Abbreviation parseStep := (MandalaImport.parseStep toLowerCase).

Lemma parseStep_item (st : MandalaImport.ParseState) (line trimmed : jsstring)
    (r : MandalaImport.GridRef) (digits content : jsstring) :
  trim line = trimmed ->
  trimmed <> [] ->
  startsWith trimmed (js "# ") = false ->
  startsWith trimmed (js "## ") = false ->
  MandalaImport.gridTarget st = Some r ->
  MandalaImport.isListItem trimmed = true ->
  MandalaImport.matchItem trimmed = Some (Some digits, None, content) ->
  (parseInt digits <? 9)%N = true ->
  parseStep st line
  = MandalaImport.mkState
      (MandalaImport.write_cell (MandalaImport.data st) r
         (N.to_nat (parseInt digits)) content)
      (MandalaImport.gridTarget st) (MandalaImport.processedCenterGrid st).
Proof.
  intros Ht Hne H1 H2 Hr Hi Hm Hp. unfold MandalaImport.parseStep. cbv zeta.
  rewrite Ht. destruct trimmed as [|x trimmed]; [congruence|].
  rewrite H1, H2, Hr, Hi, Hm, Hp. reflexivity.
Qed.

Lemma parseStep_cellLine (st : MandalaImport.ParseState)
    (r : MandalaImport.GridRef) (index : nat) (t : jsstring) :
  MandalaImport.gridTarget st = Some r ->
  index < 9 ->
  clean_text t ->
  parseStep st (js "- [" ++ decimal index ++ js "] " ++ t)
  = MandalaImport.mkState (MandalaImport.write_cell (MandalaImport.data st) r index t)
      (Some r) (MandalaImport.processedCenterGrid st).
Proof.
  intros Hr Hlt Hclean.
  destruct (decimal_index index Hlt) as (Hp & Hn & _).
  pose proof (clean_text_no_terminator t Hclean) as Hterm.
  destruct Hclean as [_ Htrim].
  rewrite <- Hr.
  replace (MandalaImport.write_cell (MandalaImport.data st) r index t)
    with (MandalaImport.write_cell (MandalaImport.data st) r
            (N.to_nat (parseInt (decimal index))) t)
    by (rewrite Hn; reflexivity).
  destruct t as [|c t].
  - apply (parseStep_item st _ (js "- [" ++ decimal index ++ js "]" ++ []) r);
      try exact Hr; try exact Hp.
    + do 9 (destruct index as [|index]; [reflexivity|]). lia.
    + discriminate.
    + reflexivity.
    + reflexivity.
    + do 9 (destruct index as [|index]; [reflexivity|]). lia.
    + rewrite matchItem_indexed by exact Hlt. reflexivity.
  - assert (E : js "- [" ++ decimal index ++ js "] " ++ c :: t
                = js "- [" ++ decimal index ++ js "]" ++ SPACE :: c :: t).
    { do 9 (destruct index as [|index]; [reflexivity|]). lia. }
    rewrite E.
    apply (parseStep_item st _ (js "- [" ++ decimal index ++ js "]" ++ SPACE :: c :: t) r);
      try exact Hr; try exact Hp.
    + rewrite <- E.
      assert (E2 : js "- [" ++ decimal index ++ js "] " ++ c :: t
                   = (45%N :: js " [" ++ decimal index ++ js "] ") ++ c :: t).
      { cbn [js list_ascii_of_string map app]. rewrite <- !app_assoc. reflexivity. }
      rewrite E2. apply trim_app_clean; [reflexivity | discriminate | exact Htrim].
    + discriminate.
    + reflexivity.
    + reflexivity.
    + do 9 (destruct index as [|index]; [reflexivity|]). lia.
    + rewrite matchItem_indexed by exact Hlt.
      change (dropWhile isSpace (SPACE :: c :: t)) with (dropWhile isSpace (c :: t)).
      rewrite (proj1 (trim_fixed _ Htrim)).
      rewrite takeWhile_all by exact Hterm. reflexivity.
Qed.

Lemma fold_exportCells (cs : Mandala.array Mandala.MandalaCell) :
  forall (index : nat) (out rest : jsstring) (st : MandalaImport.ParseState)
         (r : MandalaImport.GridRef),
    MandalaExport.exportCells cs index = Some out ->
    index + length cs <= 9 ->
    (forall c, In (Some c) cs -> clean_text (Mandala.text c)) ->
    MandalaImport.gridTarget st = Some r ->
    fold_left parseStep (split (out ++ rest)) st
    = fold_left parseStep (split rest)
        (MandalaImport.mkState (write_cells (MandalaImport.data st) r index cs)
           (Some r) (MandalaImport.processedCenterGrid st)).
Proof.
  induction cs as [|c cs IH]; intros index out rest st r Hout Hlen Hclean Hr.
  - injection Hout as <-. destruct st as [d tgt pr]. simpl in *. subst tgt.
    reflexivity.
  - destruct c as [c|]; [|discriminate]. cbn [MandalaExport.exportCells] in Hout.
    destruct (MandalaExport.exportCells cs (S index)) as [out'|] eqn:Eout;
      [|discriminate].
    assert (Eo : out = MandalaExport.cellLine index c ++ out') by congruence.
    subst out. clear Hout. simpl in Hlen.
    assert (Hlt : index < 9) by lia.
    assert (Hc : clean_text (Mandala.text c)) by (apply Hclean; left; reflexivity).
    assert (E : (MandalaExport.cellLine index c ++ out') ++ rest
                = (js "- [" ++ decimal index ++ js "] " ++ Mandala.text c)
                    ++ LF :: (out' ++ rest)).
    { unfold MandalaExport.cellLine. rewrite <- !app_assoc. reflexivity. }
    rewrite E, split_app_LF.
    + cbn [fold_left]. rewrite (parseStep_cellLine st r index _ Hr Hlt Hc).
      rewrite (IH (S index) out' rest _ r Eout); cbn [MandalaImport.data
        MandalaImport.gridTarget MandalaImport.processedCenterGrid];
        [reflexivity | lia | | reflexivity].
      intros c' Hin. apply Hclean. right; exact Hin.
    + rewrite !forallb_app. destruct (decimal_index index Hlt) as (_ & _ & Hd).
      apply andb_true_iff; split; [reflexivity|].
      apply andb_true_iff; split; [exact Hd|].
      apply andb_true_iff; split; [reflexivity | exact (clean_text_no_LF _ Hc)].
Qed.

End ParseStepOnCells.

(* ------------------------------------------------------------------ *)
(** ** [parseMandala] after [exportMandala] *)

Lemma grid_ok_cell (g : Mandala.MandalaGridData) (c : nat) :
  grid_ok g -> c < 9 ->
  exists cell, Mandala.get (Mandala.cells g) c = Some cell.
Proof.
  intros [Hlen Hall] Hc. unfold Mandala.get.
  destruct (nth_error (Mandala.cells g) c) as [o|] eqn:E.
  - rewrite Forall_forall in Hall.
    pose proof (Hall o (nth_error_In _ _ E)) as Ho.
    destruct o as [cell|]; [eauto | congruence].
  - apply nth_error_None in E. lia.
Qed.

Lemma chart_ok_full (d : Mandala.MandalaChartData) : chart_ok d -> full d.
Proof.
  intros Hd [c | g c] Ha; simpl in Ha; unfold read_cell.
  - destruct Hd as (Hc & _). destruct (grid_ok_cell _ c Hc Ha) as (cell & ->).
    discriminate.
  - destruct Ha as [Hg Hc].
    destruct (chart_ok_grid d g Hd Hg) as (grid & -> & Hgrid).
    destruct (grid_ok_cell _ c Hgrid Hc) as (cell & ->). discriminate.
Qed.

Lemma exportCells_some (cs : Mandala.array Mandala.MandalaCell) (index : nat) :
  Forall (fun c => c <> None) cs ->
  exists out, MandalaExport.exportCells cs index = Some out.
Proof.
  revert index; induction cs as [|c cs IH]; intros index H; [eexists; reflexivity|].
  inversion H as [|? ? Hc Hcs]; subst. destruct c as [c|]; [|congruence].
  destruct (IH (S index) Hcs) as (out & E).
  cbn [MandalaExport.exportCells]. rewrite E. eexists; reflexivity.
Qed.

Lemma exportGrids_some (gs : Mandala.array Mandala.MandalaGridData) (index : nat) :
  Forall (fun g => exists g', g = Some g' /\ grid_ok g') gs ->
  exists out, MandalaExport.exportGrids gs index = Some out.
Proof.
  revert index; induction gs as [|g gs IH]; intros index H; [eexists; reflexivity|].
  inversion H as [|? ? Hg Hgs]; subst. destruct Hg as (g' & -> & Hok & Hall).
  destruct (IH (S index) Hgs) as (out & E).
  destruct (exportCells_some (Mandala.cells g') 0 Hall) as (cout & Ec).
  cbn [MandalaExport.exportGrids]. rewrite E, Ec.
  destruct (index =? 4); eexists; reflexivity.
Qed.

Lemma split_LF_cons (r : jsstring) : split (LF :: r) = [] :: split r.
Proof. reflexivity. Qed.

Lemma getPositionName_no_LF (index : nat) :
  index < 9 ->
  forallb (fun c => negb (c =? LF)%N)
          (js "## " ++ MandalaExport.getPositionName index ++ js " Grid") = true.
Proof.
  intros H. do 9 (destruct index as [|index]; [reflexivity|]). lia.
Qed.

Lemma exportMandala_lines (d : Mandala.MandalaChartData) :
  chart_ok d ->
  exists core out1 out2,
    Mandala.get (Mandala.cells (Mandala.centerGrid d)) 4 = Some core /\
    MandalaExport.exportCells (Mandala.cells (Mandala.centerGrid d)) 0 = Some out1 /\
    MandalaExport.exportGrids (Mandala.surroundingGrids d) 0 = Some out2 /\
    MandalaExport.exportMandala d
    = Some ((js "# " ++ MandalaExport.centerTitle core)
              ++ LF :: LF :: js "## Center Grid"
              ++ LF :: (out1 ++ LF :: (out2 ++ []))).
Proof.
  intros (Hcenter & Hlen & Hgrids).
  destruct (grid_ok_cell _ 4 Hcenter ltac:(lia)) as (core & Ecore).
  destruct (exportCells_some _ 0 (proj2 Hcenter)) as (out1 & E1).
  destruct (exportGrids_some _ 0 Hgrids) as (out2 & E2).
  exists core, out1, out2. repeat split; try assumption.
  unfold MandalaExport.exportMandala. rewrite Ecore, E1, E2. cbv zeta.
  f_equal. rewrite <- !app_assoc, app_nil_r. reflexivity.
Qed.

Section ExportThenParse.

Variable toLowerCase : jsstring -> jsstring.

Hypothesis toLowerCase_ascii :
  forall s, forallb MandalaImport.isAscii s = true ->
            toLowerCase s = map MandalaImport.asciiLower s.

Local Abbreviation parseStep := (MandalaImport.parseStep toLowerCase).

Lemma fold_exportGrids (gs : Mandala.array Mandala.MandalaGridData) :
  forall (index : nat) (out rest : jsstring) (st : MandalaImport.ParseState),
    MandalaExport.exportGrids gs index = Some out ->
    index + length gs <= 9 ->
    (forall k g, nth_error gs k = Some (Some g) -> index + k <> 4 ->
                 length (Mandala.cells g) = 9 /\
                 forall c, In (Some c) (Mandala.cells g) -> clean_text (Mandala.text c)) ->
    full (MandalaImport.data st) ->
    exists tgt pr,
      fold_left parseStep (split (out ++ rest)) st
      = fold_left parseStep (split rest)
          (MandalaImport.mkState (write_grids (MandalaImport.data st) index gs) tgt pr).
Proof.
  induction gs as [|g gs IH]; intros index out rest st Hout Hlen Hclean Hfull.
  - injection Hout as <-. destruct st as [d tgt pr]. exists tgt, pr. reflexivity.
  - cbn [MandalaExport.exportGrids] in Hout. simpl in Hlen. cbn [write_grids].
    destruct (Nat.eqb_spec index 4) as [E4 | N4].
    + destruct (MandalaExport.exportGrids gs (S index)) as [out'|] eqn:Eout;
        [|discriminate].
      assert (Eo : out = out') by (simpl in Hout; congruence). subst out'.
      apply (IH (S index) out rest st Eout); [lia | | exact Hfull].
      intros k g' Hk Hne. apply (Hclean (S k) g'); [exact Hk | lia].
    + destruct g as [g|]; [|discriminate].
      destruct (MandalaExport.exportCells (Mandala.cells g) 0) as [cout|] eqn:Ec;
        [|discriminate].
      destruct (MandalaExport.exportGrids gs (S index)) as [out'|] eqn:Eout;
        [|discriminate].
      assert (Eo : out = (js "## " ++ MandalaExport.getPositionName index
                            ++ js " Grid" ++ [LF] ++ cout ++ [LF]) ++ out')
        by congruence.
      subst out. clear Hout.
      destruct (Hclean 0 g eq_refl ltac:(lia)) as [Hl Hc].
      assert (Hlt : index < 9) by lia.
      destruct (Mandala.get (Mandala.surroundingGrids (MandalaImport.data st)) index)
        as [g0|] eqn:Eg.
      2:{ exfalso. apply (Hfull (SurroundingCell index 0)); [simpl; lia|].
          unfold read_cell. rewrite Eg. reflexivity. }
      assert (E : (js "## " ++ MandalaExport.getPositionName index
                     ++ js " Grid" ++ [LF] ++ cout ++ [LF]) ++ out' ++ rest
                  = (js "## " ++ MandalaExport.getPositionName index ++ js " Grid")
                      ++ LF :: (cout ++ LF :: (out' ++ rest))).
      { rewrite <- !app_assoc. reflexivity. }
      rewrite <- app_assoc, E.
      rewrite split_app_LF by (apply getPositionName_no_LF; exact Hlt).
      cbn [fold_left].
      rewrite (parseStep_surrounding_header toLowerCase toLowerCase_ascii
                 st index g0 Hlt N4 Eg).
      rewrite (fold_exportCells toLowerCase (Mandala.cells g) 0 cout _ _
                 (MandalaImport.surroundingRef index) Ec);
        cbn [MandalaImport.data MandalaImport.gridTarget
             MandalaImport.processedCenterGrid];
        [ | lia | exact Hc | reflexivity ].
      rewrite split_LF_cons. cbn [fold_left]. rewrite parseStep_blank_line.
      destruct (IH (S index) out' rest
                  (MandalaImport.mkState
                     (write_cells (MandalaImport.data st)
                        (MandalaImport.surroundingRef index) 0 (Mandala.cells g))
                     (Some (MandalaImport.surroundingRef index))
                     (MandalaImport.processedCenterGrid st)) Eout)
        as (tgt & pr & EIH).
      * lia.
      * intros k g' Hk Hne. apply (Hclean (S k) g'); [exact Hk | lia].
      * cbn [MandalaImport.data]. apply full_write_cells. exact Hfull.
      * exists tgt, pr. exact EIH.
Qed.

(** X28: a chart of nine grids of nine cells, whose exported texts hold
    no line terminator and no white space at either end, is exported to a
    text that [parseMandala] reads back to the same texts, cell by cell;
    the cells of [surroundingGrids[4]], which the export skips, come back
    empty.  ([toLowerCase] is JavaScript's, of which only its action on
    ASCII strings is used.) *)
Theorem export_parse_mandala (uuid : nat -> jsstring)
    (d : Mandala.MandalaChartData) (n : nat) :
  chart_ok d ->
  (forall a c, exported_addr a -> read_cell d a = Some c ->
               clean_text (Mandala.text c)) ->
  exists t,
    MandalaExport.exportMandala d = Some t /\
    forall a, valid_addr a ->
      read_text (run (MandalaImport.parseMandala uuid toLowerCase t) n) a
      = match a with
        | SurroundingCell 4 _ => Some []
        | _ => read_text d a
        end.
Proof.
  intros Hok Hclean.
  pose proof Hok as (Hcenter & Hlen & Hgrids).
  destruct (exportMandala_lines d Hok) as (core & out1 & out2 & Ecore & E1 & E2 & Et).
  set (title := MandalaExport.centerTitle core) in *.
  assert (Htitle : title <> [] /\ clean_text title).
  { unfold title, MandalaExport.centerTitle.
    destruct (Mandala.text core) as [|x t] eqn:Ex.
    - split; [discriminate|]. split; [repeat constructor | reflexivity].
    - split; [discriminate|]. rewrite <- Ex.
      apply (Hclean (CenterCell 4) core); [simpl; lia | exact Ecore]. }
  destruct Htitle as [Hne Htc].
  eexists. split; [exact Et|].
  unfold run. rewrite parseMandala_unfold. cbn [fst].
  rewrite split_app_LF
    by (rewrite forallb_app; apply andb_true_iff; split;
        [reflexivity | exact (clean_text_no_LF _ Htc)]).
  cbn [fold_left]. rewrite (parseStep_title toLowerCase _ _ Hne Htc).
  rewrite split_LF_cons. cbn [fold_left]. rewrite parseStep_blank_line.
  rewrite split_app_LF by reflexivity.
  cbn [fold_left].
  rewrite (parseStep_center_header toLowerCase toLowerCase_ascii) by reflexivity.
  cbn [MandalaImport.data].
  assert (Hcc : forall c, In (Some c) (Mandala.cells (Mandala.centerGrid d)) ->
                          clean_text (Mandala.text c)).
  { intros c Hin. apply In_nth_error in Hin as (k & Hk).
    assert (Hk9 : k < 9).
    { destruct Hcenter as [Hl _]. rewrite <- Hl.
      apply nth_error_Some. congruence. }
    apply (Hclean (CenterCell k) c); [exact Hk9|].
    unfold read_cell, Mandala.get. rewrite Hk. reflexivity. }
  rewrite (fold_exportCells toLowerCase _ 0 out1 _ _ MandalaImport.centerRef E1);
    cbn [MandalaImport.data MandalaImport.gridTarget
         MandalaImport.processedCenterGrid];
    [ | destruct Hcenter; lia | exact Hcc | reflexivity ].
  rewrite split_LF_cons. cbn [fold_left]. rewrite parseStep_blank_line.
  set (D := write_cells (empty_chart uuid n) MandalaImport.centerRef 0
              (Mandala.cells (Mandala.centerGrid d))).
  assert (HD : full D).
  { apply full_write_cells. apply chart_ok_full. apply empty_chart_ok. }
  destruct (fold_exportGrids (Mandala.surroundingGrids d) 0 out2 []
              (MandalaImport.mkState D (Some MandalaImport.centerRef) true) E2)
    as (tgt & pr & Efold).
  { lia. }
  { intros k g Hk Hk4.
    rewrite Forall_forall in Hgrids.
    destruct (Hgrids _ (nth_error_In _ _ Hk)) as (g' & Eg & Hg').
    injection Eg as <-. split; [exact (proj1 Hg')|].
    intros c Hin. apply In_nth_error in Hin as (j & Hj).
    assert (Hk9 : k < 9).
    { rewrite <- Hlen. apply nth_error_Some. congruence. }
    assert (Hj9 : j < 9).
    { rewrite <- (proj1 Hg'). apply nth_error_Some. congruence. }
    apply (Hclean (SurroundingCell k j) c); [simpl; lia|].
    unfold read_cell, Mandala.get. rewrite Hk, Hj. reflexivity. }
  { exact HD. }
  rewrite Efold. cbn [split fold_left]. rewrite parseStep_blank_line.
  cbn [MandalaImport.data].
  intros [c | g c] Ha; simpl in Ha.
  - unfold read_text. rewrite read_write_grids_out by discriminate.
    pose proof (read_write_cells_in (Mandala.cells (Mandala.centerGrid d))
                  (empty_chart uuid n) MandalaImport.centerRef 0 c
                  (proj2 Hcenter)) as H.
    unfold read_text in H. cbn [cell_addr] in H. fold D in H.
    rewrite H; [rewrite Nat.sub_0_r; reflexivity | | destruct Hcenter; lia].
    intros k Hk. apply (chart_ok_full _ (empty_chart_ok uuid n)).
    destruct Hcenter. simpl. lia.
  - destruct Ha as [Hg Hc].
    destruct (Nat.eq_dec g 4) as [-> | N4].
    + unfold read_text.
      rewrite read_write_grids_out by (intros g' c' _ Hg' E; congruence).
      unfold D. rewrite read_write_cells_out by discriminate.
      do 9 (destruct c as [|c]; [reflexivity|]). lia.
    + destruct (chart_ok_grid d g Hok Hg) as (grid & Eg & Hgrid).
      rewrite (read_write_grids_in _ D 0 g c grid HD); try assumption;
        try lia.
      * unfold read_text, read_cell. rewrite Eg.
        do 5 (destruct g as [|g]; [try reflexivity; congruence|]). reflexivity.
      * rewrite Nat.sub_0_r. exact Eg.
Qed.

End ExportThenParse.

Lemma sample_chart_ok : chart_ok sample_chart.
Proof.
  unfold chart_ok, grid_ok. cbn.
  repeat split;
    repeat (constructor;
            [first [discriminate
                   | eexists; split; [reflexivity|]; split;
                     [reflexivity | repeat (constructor; [discriminate|]); constructor]]
            |]);
    constructor.
Qed.

Lemma sample_chart_clean (a : CellAddr) (c : Mandala.MandalaCell) :
  valid_addr a -> read_cell sample_chart a = Some c -> clean_text (Mandala.text c).
Proof.
  intros Ha E. destruct a as [k | g k]; simpl in Ha.
  - do 9 (destruct k as [|k];
          [cbv in E; injection E as <-; split; [repeat constructor | reflexivity]|]).
    lia.
  - destruct Ha as [Hg Hk].
    do 9 (destruct g as [|g];
          [do 9 (destruct k as [|k];
                 [cbv in E; injection E as <-; split;
                  [repeat constructor | reflexivity]|]);
           lia|]).
    lia.
Qed.

Lemma export_parse_mandala_witness :
  exists t,
    MandalaExport.exportMandala sample_chart = Some t /\
    forall a, valid_addr a ->
      read_text (run (MandalaImport.parseMandala sample_uuid
                        (map MandalaImport.asciiLower) t) 0) a
      = match a with
        | SurroundingCell 4 _ => Some []
        | _ => read_text sample_chart a
        end.
Proof.
  apply (export_parse_mandala (map MandalaImport.asciiLower)
           (fun s _ => eq_refl) sample_uuid sample_chart 0 sample_chart_ok).
  intros a c Ha. apply sample_chart_clean.
  destruct a as [k | g k]; simpl in *; lia.
Defined.

(* ------------------------------------------------------------------ *)
(** ** The import dialog: which parser reads a text *)

Lemma startsWith_app (p b : jsstring) : startsWith (p ++ b) p = true.
Proof.
  induction p as [|x p IH]; [reflexivity|]. cbn [app startsWith].
  rewrite N.eqb_refl, IH. reflexivity.
Qed.

Lemma str_includes_app (a p b : jsstring) : str_includes (a ++ p ++ b) p = true.
Proof.
  induction a as [|x a IH].
  - cbn [app]. destruct (p ++ b) eqn:E; cbn [str_includes]; rewrite <- E;
      rewrite startsWith_app; reflexivity.
  - cbn [app str_includes]. rewrite IH. apply orb_true_r.
Qed.

Lemma str_includes_inside (a s b p : jsstring) :
  str_includes s p = true -> str_includes (a ++ s ++ b) p = true.
Proof.
  intros H.
  assert (Hs : forall s, str_includes s p = true ->
                         str_includes (s ++ b) p = true).
  { clear. assert (Hsw : forall q s, startsWith s q = true ->
                                     startsWith (s ++ b) q = true).
    { induction q as [|y q IH]; intros [|x s] H; cbn [app startsWith] in *;
        try reflexivity; try discriminate.
      apply andb_true_iff in H as [H1 H2]. rewrite H1, (IH _ H2). reflexivity. }
    induction s as [|x s IH]; intros H.
    - cbn [str_includes] in H. rewrite orb_false_r in H.
      destruct p; [|discriminate].
      destruct ([] ++ b); reflexivity.
    - cbn [str_includes] in H. apply orb_true_iff in H as [H | H].
      + pose proof (Hsw _ (x :: s) H) as H'. cbn [app] in H'.
        cbn [app str_includes]. rewrite H'. reflexivity.
      + cbn [app str_includes]. rewrite (IH H). apply orb_true_r. }
  induction a as [|x a IH]; [exact (Hs _ H)|].
  cbn [app str_includes]. rewrite IH. apply orb_true_r.
Qed.

Lemma str_includes_head (s p : jsstring) (x : jschar) :
  str_includes s (x :: p) = true -> In x s.
Proof.
  induction s as [|y s IH]; cbn [str_includes startsWith]; intros H.
  - discriminate.
  - apply orb_true_iff in H as [H | H].
    + apply andb_true_iff in H as [H _]. apply N.eqb_eq in H. left; exact H.
    + right. exact (IH H).
Qed.

Lemma in_join (sep : jsstring) (ls : list jsstring) (c : jschar) :
  In c (join sep ls) -> In c sep \/ exists l, In l ls /\ In c l.
Proof.
  induction ls as [|x ls IH]; [intros []|].
  destruct ls as [|y ls].
  - simpl. intros H. right. exists x. split; [left; reflexivity | exact H].
  - rewrite join_cons_cons. intros H.
    apply in_app_or in H as [H | H];
      [right; exists x; split; [left; reflexivity | exact H]|].
    apply in_app_or in H as [H | H]; [left; exact H|].
    destruct (IH H) as [Hs | (l & Hl & Hc)]; [left; exact Hs|].
    right. exists l. split; [right; exact Hl | exact Hc].
Qed.

Lemma join_inside (sep : jsstring) (ls : list jsstring) (l : jsstring) :
  In l ls -> exists a b, join sep ls = a ++ l ++ b.
Proof.
  induction ls as [|x ls IH]; [intros []|].
  destruct ls as [|y ls].
  - intros [-> | []]. exists [], []. simpl. rewrite app_nil_r. reflexivity.
  - rewrite join_cons_cons. intros [-> | H].
    + exists [], (sep ++ join sep (y :: ls)). reflexivity.
    + destruct (IH H) as (a & b & E). rewrite E.
      exists (x ++ sep ++ a), b. rewrite <- !app_assoc. reflexivity.
Qed.

Lemma in_str_repeat (s : jsstring) (k : nat) (c : jschar) :
  In c (str_repeat s k) -> In c s.
Proof.
  induction k as [|k IH]; simpl; [intros []|].
  intros H. apply in_app_or in H as [H | H]; auto.
Qed.

Lemma exportMindMap_chars (t : MindMapNode) (c : jschar) :
  In c (exportMindMap t 0) ->
  c = SPACE \/ c = 45%N \/ c = LF \/ exists x, In x (texts t) /\ In c x.
Proof.
  rewrite exportMindMap_lines. intros H.
  apply in_join in H as [[<- | []] | (l & Hl & Hc)]; [tauto|].
  apply in_map_iff in Hl as (pl & <- & Hpl). unfold render in Hc.
  apply in_app_or in Hc as [Hc | Hc].
  { apply in_str_repeat in Hc. destruct Hc as [<- | [<- | []]]; tauto. }
  apply in_app_or in Hc as [Hc | Hc].
  { destruct Hc as [<- | [<- | []]]; tauto. }
  right; right; right. exists (pl_text pl). split; [|exact Hc].
  rewrite <- (texts_flatten t 0). apply in_map. exact Hpl.
Qed.

Lemma exportMindMap_includes (t : MindMapNode) (x p : jsstring) :
  In x (texts t) -> str_includes x p = true ->
  str_includes (exportMindMap t 0) p = true.
Proof.
  intros Hx Hp. rewrite exportMindMap_lines.
  rewrite <- (texts_flatten t 0) in Hx.
  apply in_map_iff in Hx as (pl & <- & Hpl).
  destruct (join_inside [LF] (map render (flatten t 0)) (render pl)
              (in_map _ _ _ Hpl)) as (a & b & ->).
  apply str_includes_inside. unfold render.
  replace (str_repeat (js "  ") (pl_depth pl) ++ js "- " ++ pl_text pl)
    with ((str_repeat (js "  ") (pl_depth pl) ++ js "- ") ++ pl_text pl ++ [])
    by (rewrite app_nil_r, <- app_assoc; reflexivity).
  apply str_includes_inside. exact Hp.
Qed.

Lemma exportMindMap_not_blank (t : MindMapNode) :
  trim (exportMindMap t 0) <> [].
Proof.
  apply (trim_not_blank _ 45%N); [|reflexivity].
  rewrite exportMindMap_unfold. cbv zeta.
  destruct (join [LF] (map (fun child => exportMindMap child (0 + 1)) (children t)));
    change (js "- ") with [45%N; 32%N]; cbn [str_repeat app]; left; reflexivity.
Qed.

(** X30: [handleImport] chooses the parser by the section header alone.
    The export of a mandala chart (nine grids of nine cells) is read by
    [parseMandala]; the export of a mind map is read by [parseMindMap] when
    no node text holds a number sign, and by [parseMandala], which drops
    the tree, when some node text holds the header of the center grid. *)
Theorem handleImport_detection (uuid : nat -> jsstring)
    (toLowerCase : jsstring -> jsstring) (st : App.AppState) (n : nat) :
  (forall d t, chart_ok d -> MandalaExport.exportMandala d = Some t ->
     App.importText st = t ->
     App.handleImport uuid toLowerCase st n
     = (App.mkApp App.mandala false []
          (run (MandalaImport.parseMandala uuid toLowerCase t) n)
          (App.mindMapRoot st), 100 + n)) /\
  (forall T, App.importText st = exportMindMap T 0 ->
     (forall x, In x (texts T) -> ~ In 35%N x) ->
     App.handleImport uuid toLowerCase st n
     = (App.mkApp App.mindmap false [] (App.mandalaData st)
          (run (parseMindMap uuid (exportMindMap T 0)) n),
        snd (parseMindMap uuid (exportMindMap T 0) n))) /\
  (forall T x, App.importText st = exportMindMap T 0 ->
     In x (texts T) ->
     str_includes x (js "## Center Grid") = true
     \/ str_includes x (js "## Main Grid") = true ->
     App.mode (run (App.handleImport uuid toLowerCase st) n) = App.mandala /\
     App.mindMapRoot (run (App.handleImport uuid toLowerCase st) n)
     = App.mindMapRoot st).
Proof.
  split; [|split].
  - intros d t Hok Ht Est. unfold App.handleImport. rewrite Est.
    destruct (exportMandala_lines d Hok) as (core & out1 & out2 & _ & _ & _ & Et).
    rewrite Et in Ht. injection Ht as Ht.
    assert (E : t = (js "# " ++ MandalaExport.centerTitle core ++ [LF; LF])
                      ++ js "## Center Grid"
                      ++ (LF :: (out1 ++ LF :: (out2 ++ [])))).
    { rewrite <- Ht. rewrite <- !app_assoc. reflexivity. }
    assert (Hinc : str_includes t (js "## Center Grid") = true)
      by (rewrite E; apply str_includes_app).
    assert (Htrim : trim t <> []).
    { apply (trim_not_blank _ 35%N); [|reflexivity]. rewrite E. left. reflexivity. }
    destruct (trim t) as [|x0 tr]; [congruence|].
    rewrite Hinc. cbn [orb]. unfold bind, ret, run.
    rewrite parseMandala_unfold. reflexivity.
  - intros T Est Hno. unfold App.handleImport. rewrite Est.
    pose proof (exportMindMap_not_blank T) as Htrim.
    destruct (trim (exportMindMap T 0)) as [|x0 tr]; [congruence|].
    assert (Hnone : forall p, str_includes (exportMindMap T 0) (35%N :: p) = false).
    { intros p. destruct (str_includes _ _) eqn:E; [|reflexivity].
      apply str_includes_head, exportMindMap_chars in E.
      destruct E as [E | [E | [E | (x & Hx & Hc)]]]; try discriminate.
      exfalso. exact (Hno x Hx Hc). }
    change (js "## Center Grid") with (35%N :: js "# Center Grid").
    change (js "## Main Grid") with (35%N :: js "# Main Grid").
    rewrite !Hnone. cbn [orb]. unfold bind, ret, run.
    destruct (parseMindMap uuid (exportMindMap T 0) n) as [root n']. reflexivity.
  - intros T x Est Hx Hinc. unfold run, App.handleImport. rewrite Est.
    pose proof (exportMindMap_not_blank T) as Htrim.
    destruct (trim (exportMindMap T 0)) as [|x0 tr]; [congruence|].
    assert (E : str_includes (exportMindMap T 0) (js "## Center Grid")
                || str_includes (exportMindMap T 0) (js "## Main Grid") = true).
    { apply orb_true_iff. destruct Hinc as [H | H]; [left | right];
        exact (exportMindMap_includes T x _ Hx H). }
    rewrite E. unfold bind, ret. rewrite parseMandala_unfold.
    split; reflexivity.
Qed.

(* ------------------------------------------------------------------ *)
(** ** Items without index *)

Lemma matchItem_plain (t : jsstring) :
  plain_item t ->
  MandalaImport.matchItem (js "- " ++ t) = Some (None, None, t).
Proof.
  intros [Hclean Hhead]. destruct t as [|c t]; [contradiction|].
  destruct Hhead as [H91 H40].
  pose proof (clean_text_no_terminator _ Hclean) as Hterm.
  destruct Hclean as [_ Htrim]. apply trim_fixed in Htrim as [Hdrop _].
  assert (Hc : isSpace c = false).
  { cbn [dropWhile] in Hdrop. destruct (isSpace c); [|reflexivity].
    pose proof (dropWhile_length isSpace t) as L.
    apply (f_equal (@length _)) in Hdrop. simpl in Hdrop. lia. }
  apply N.eqb_neq in H91, H40.
  change (js "- " ++ c :: t) with (45%N :: SPACE :: c :: t).
  unfold MandalaImport.matchItem.
  change (MandalaImport.isItemBullet 45%N) with true. cbv iota.
  assert (T : takeWhile isSpace (SPACE :: c :: t) = [SPACE]).
  { cbn [takeWhile]. change (isSpace SPACE) with true. rewrite Hc. reflexivity. }
  assert (D : dropWhile isSpace (SPACE :: c :: t) = c :: t).
  { cbn [dropWhile]. change (isSpace SPACE) with true. rewrite Hc. reflexivity. }
  rewrite T, D. unfold MandalaImport.matchIndex. rewrite H91, H40.
  cbv iota beta. rewrite Hdrop, takeWhile_all by exact Hterm. reflexivity.
Qed.

Lemma trim_plain (t : jsstring) :
  plain_item t -> trim (js "- " ++ t) = js "- " ++ t.
Proof.
  intros [[_ Htrim] Hhead].
  change (js "- " ++ t) with ((45%N :: [SPACE]) ++ t).
  apply trim_app_clean; [reflexivity | | exact Htrim].
  destruct t; [contradiction | discriminate].
Qed.

Section ParseStepOnPlainItems.

Variable toLowerCase : jsstring -> jsstring.

Hypothesis toLowerCase_ascii :
  forall s, forallb MandalaImport.isAscii s = true ->
            toLowerCase s = map MandalaImport.asciiLower s.

Local Abbreviation parseStep := (MandalaImport.parseStep toLowerCase).

Lemma parseStep_plain (st : MandalaImport.ParseState)
    (r : MandalaImport.GridRef) (t : jsstring) :
  MandalaImport.gridTarget st = Some r ->
  plain_item t ->
  parseStep st (js "- " ++ t)
  = let firstEmpty :=
      findIndex MandalaImport.isEmptyCell
                (MandalaImport.target_cells (MandalaImport.data st) r) in
    if negb (firstEmpty =? -1)%Z
    then MandalaImport.mkState
           (MandalaImport.write_cell (MandalaImport.data st) r
              (Z.to_nat firstEmpty) t)
           (MandalaImport.gridTarget st) (MandalaImport.processedCenterGrid st)
    else st.
Proof.
  intros Hr Hplain. unfold MandalaImport.parseStep. cbv zeta.
  rewrite (trim_plain _ Hplain), (matchItem_plain _ Hplain), Hr.
  reflexivity.
Qed.

Lemma filled_to_first_empty (k : nat) (d : Mandala.MandalaChartData) :
  filled_to k d -> k <= 9 ->
  findIndex MandalaImport.isEmptyCell (Mandala.cells (Mandala.centerGrid d))
  = if k <? 9 then Z.of_nat k else (-1)%Z.
Proof.
  intros (Hlen & Hlow & Hhigh) Hk. unfold findIndex.
  assert (Hfilled : forall j y, j < k ->
            nth_error (Mandala.cells (Mandala.centerGrid d)) j = Some y ->
            MandalaImport.isEmptyCell y = false).
  { intros j y Hj Hy. destruct (Hlow j Hj) as (cell & Hget & Hne).
    unfold Mandala.get in Hget. rewrite Hy in Hget. subst y.
    apply str_eqb_neq. exact Hne. }
  destruct (Nat.ltb_spec k 9) as [Hlt | Hge].
  - destruct (Hhigh k ltac:(lia)) as (cell & Hget & He).
    unfold Mandala.get in Hget.
    destruct (nth_error (Mandala.cells (Mandala.centerGrid d)) k) as [y|] eqn:Ey;
      [|discriminate].
    subst y.
    rewrite (findIndex_from_first _ _ 0%Z k (Some cell) Ey); [lia | | exact Hfilled].
    apply str_eqb_eq. exact He.
  - destruct (findIndex_from_spec MandalaImport.isEmptyCell
                (Mandala.cells (Mandala.centerGrid d)) 0%Z)
      as [[E _] | (j & y & _ & Hy & Hp & _)]; [exact E|].
    assert (Hj : j < 9).
    { rewrite <- Hlen. apply nth_error_Some. congruence. }
    rewrite (Hfilled j y ltac:(lia) Hy) in Hp. discriminate.
Qed.

Lemma filled_to_write (k : nat) (d : Mandala.MandalaChartData) (t : jsstring) :
  filled_to k d -> k < 9 -> t <> [] ->
  filled_to (S k) (MandalaImport.write_cell d MandalaImport.centerRef k t).
Proof.
  intros (Hlen & Hlow & Hhigh) Hk Ht. unfold filled_to.
  unfold MandalaImport.write_cell, MandalaImport.set_cell_text.
  cbn [Mandala.centerGrid Mandala.cells].
  split; [rewrite length_update_nth; exact Hlen|]. split.
  - intros c Hc. destruct (Nat.eq_dec c k) as [-> | Hne].
    + destruct (Hhigh k ltac:(lia)) as (cell & Hget & _).
      rewrite get_update_nth_eq, Hget. eexists; split; [reflexivity | exact Ht].
    + rewrite get_update_nth_ne by congruence. apply Hlow. lia.
  - intros c Hc. rewrite get_update_nth_ne by lia. apply Hhigh. lia.
Qed.

Lemma fold_plain_items (ts : list jsstring) :
  forall (k : nat) (d : Mandala.MandalaChartData) (pr : bool) (c : nat),
    filled_to k d -> k <= 9 -> Forall plain_item ts -> c < 9 ->
    read_text
      (MandalaImport.data
         (fold_left parseStep (map (fun t => js "- " ++ t) ts)
            (MandalaImport.mkState d (Some MandalaImport.centerRef) pr)))
      (CenterCell c)
    = if c <? k then read_text d (CenterCell c) else Some (nth (c - k) ts []).
Proof.
  induction ts as [|t ts IH]; intros k d pr c Hd Hk Hts Hc.
  - cbn [map fold_left MandalaImport.data].
    destruct (Nat.ltb_spec c k) as [_ | Hge]; [reflexivity|].
    destruct Hd as (_ & _ & Hhigh).
    destruct (Hhigh c ltac:(lia)) as (cell & Hget & He).
    unfold read_text, read_cell. rewrite Hget. cbn [option_map]. rewrite He.
    destruct (c - k); reflexivity.
  - inversion Hts as [|? ? Ht Hts']; subst. cbn [map fold_left].
    rewrite (parseStep_plain
               (MandalaImport.mkState d (Some MandalaImport.centerRef) pr)
               MandalaImport.centerRef t eq_refl Ht).
    cbv zeta. cbn [MandalaImport.data MandalaImport.target_cells
                   MandalaImport.gridTarget MandalaImport.processedCenterGrid].
    rewrite (filled_to_first_empty k d Hd Hk).
    destruct (Nat.ltb_spec k 9) as [Hlt | Hge].
    + replace (negb (Z.of_nat k =? -1)%Z) with true
        by (symmetry; apply negb_true_iff, Z.eqb_neq; lia).
      rewrite Nat2Z.id.
      assert (Hne : t <> []).
      { destruct Ht as [_ Hh]. destruct t; [contradiction | discriminate]. }
      rewrite (IH (S k) _ pr c (filled_to_write k d t Hd Hlt Hne)) by (lia || assumption).
      destruct (Nat.ltb_spec c (S k)) as [Hc1 | Hc1];
        destruct (Nat.ltb_spec c k) as [Hc2 | Hc2]; try lia.
      * unfold read_text. rewrite read_write_other; [reflexivity|].
        simpl. intros E. injection E. lia.
      * assert (c = k) by lia. subst c.
        destruct Hd as (_ & _ & Hhigh).
        destruct (Hhigh k ltac:(lia)) as (cell & Hget & _).
        unfold read_text.
        change (CenterCell k) with (cell_addr MandalaImport.centerRef k).
        rewrite (read_write_same d MandalaImport.centerRef k t cell Hget).
        rewrite Nat.sub_diag. reflexivity.
      * replace (c - k) with (S (c - S k)) by lia. reflexivity.
    + change (negb (-1 =? -1)%Z) with false. cbv iota.
      rewrite (IH k d pr c Hd Hk Hts' Hc).
      destruct (Nat.ltb_spec c k) as [_ | Hc2]; [reflexivity | lia].
Qed.

(** X29: list items without index fill the grid in order.  A section
    "Center Grid" followed by items that carry no index (each text clean,
    not empty, not starting with a bracket) puts the first item into cell
    0, the second into cell 1, and so on; the cells after the last item
    stay empty and items after the ninth are dropped. *)
Theorem parseMandala_fills_in_order (uuid : nat -> jsstring)
    (ts : list jsstring) (n c : nat) :
  Forall plain_item ts ->
  c < 9 ->
  read_text
    (run (MandalaImport.parseMandala uuid toLowerCase
            (join [LF] (js "## Center Grid" :: map (fun t => js "- " ++ t) ts))) n)
    (CenterCell c)
  = Some (nth c ts []).
Proof.
  intros Hts Hc. unfold run. rewrite parseMandala_unfold. cbn [fst].
  rewrite split_join.
  - cbn [fold_left].
    rewrite (parseStep_center_header toLowerCase toLowerCase_ascii) by reflexivity.
    cbn [MandalaImport.data].
    rewrite (fold_plain_items ts 0 (empty_chart uuid n) true c); try assumption;
      [rewrite Nat.sub_0_r; reflexivity | | lia].
    split; [reflexivity|]. split; [intros c0 H0; lia|].
    intros c0 [_ H0].
    do 9 (destruct c0 as [|c0]; [eexists; split; reflexivity|]). lia.
  - discriminate.
  - constructor; [reflexivity|].
    apply Forall_forall. intros l Hl. apply in_map_iff in Hl as (t & <- & Ht).
    rewrite Forall_forall in Hts. destruct (Hts t Ht) as [Hclean _].
    rewrite forallb_app. apply andb_true_iff.
    split; [reflexivity | exact (clean_text_no_LF _ Hclean)].
Qed.

End ParseStepOnPlainItems.

Lemma parseMandala_fills_in_order_witness :
  read_text
    (run (MandalaImport.parseMandala sample_uuid (map MandalaImport.asciiLower)
            (join [LF] (js "## Center Grid"
                          :: map (fun t => js "- " ++ t)
                                 [js "Run"; js "Read a book"]))) 0)
    (CenterCell 1)
  = Some (js "Read a book").
Proof.
  apply (parseMandala_fills_in_order (map MandalaImport.asciiLower)
           (fun s _ => eq_refl) sample_uuid [js "Run"; js "Read a book"] 0 1);
    [|lia].
  repeat (constructor;
          [split; [split; [repeat constructor | reflexivity]
                  | split; discriminate]|]).
  constructor.
Defined.

Lemma handleImport_detection_witness :
  App.handleImport sample_uuid (map MandalaImport.asciiLower)
    (App.mkApp App.mindmap true sample_chart_text Mandala.initialData INITIAL_TREE) 0
  = (App.mkApp App.mandala false []
       (run (MandalaImport.parseMandala sample_uuid
               (map MandalaImport.asciiLower) sample_chart_text) 0)
       INITIAL_TREE, 100) /\
  App.mode
    (run (App.handleImport sample_uuid (map MandalaImport.asciiLower)
            (App.mkApp App.mandala true (exportMindMap tree_RABC 0)
               Mandala.initialData INITIAL_TREE)) 0)
  = App.mindmap /\
  App.mode
    (run (App.handleImport sample_uuid (map MandalaImport.asciiLower)
            (App.mkApp App.mindmap true (exportMindMap tree_quoting_header 0)
               Mandala.initialData INITIAL_TREE)) 0)
  = App.mandala.
Proof.
  split; [|split].
  - apply (proj1 (handleImport_detection sample_uuid (map MandalaImport.asciiLower)
                    (App.mkApp App.mindmap true sample_chart_text
                       Mandala.initialData INITIAL_TREE) 0)
             sample_chart sample_chart_text sample_chart_ok);
      reflexivity.
  - unfold run.
    rewrite (proj1 (proj2 (handleImport_detection sample_uuid
                             (map MandalaImport.asciiLower)
                             (App.mkApp App.mandala true (exportMindMap tree_RABC 0)
                                Mandala.initialData INITIAL_TREE) 0))
               tree_RABC eq_refl).
    + reflexivity.
    + intros x Hx Hc. simpl in Hx.
      repeat (destruct Hx as [<- | Hx];
              [simpl in Hc; repeat (destruct Hc as [Hc | Hc]; [discriminate|]);
               exact Hc|]).
      exact Hx.
  - apply (proj2 (proj2 (handleImport_detection sample_uuid
                           (map MandalaImport.asciiLower)
                           (App.mkApp App.mindmap true
                              (exportMindMap tree_quoting_header 0)
                              Mandala.initialData INITIAL_TREE) 0))
             tree_quoting_header (js "as in ## Main Grid") eq_refl).
    + right; left; reflexivity.
    + right; reflexivity.
Defined.
